(** * Customer-agent support system: ticket manager and socket handlers

    A shallow embedding of the ticket management core of the chat server
    (class [TicketManager], the customer and agent namespace handlers and
    the admin endpoint [GET /api/tickets]), with the properties of that
    code proved over the embedding.

    Conventions of the embedding
    - A JavaScript [Map] is an insertion-ordered association list
      ([JsMap]); a [Set] of ticket ids is an insertion-ordered list
      without repetition ([JsSet]).
    - Objects stored in a map are mutated in place by the code; here the
      mutation is a [JsMap.set] of the changed record under the same key.
    - A [Date] is the integer number of milliseconds it denotes.  Every
      handler and method that reads the clock takes the reading from an
      environment [Env]; the same record supplies the text produced by
      [Math.random().toString(36).substr(2)].  An event is handled to
      completion, and the readings of the clock during one event are one
      value.
    - The payload of an event is taken as the handlers use it: texts are
      strings, flags are booleans, an absent field is [None].  A string
      is a sequence of bytes, while [.length] and [substring] of the
      source count UTF-16 code units; the two agree on ASCII text, and
      what is proved about the length of a text is proved of ASCII text
      ([isAscii]).
    - [null] and [undefined] are [None]; truthiness tests of the source
      ([if (x)], [!x], [x || d]) are written out with [truthy]. *)

From Stdlib Require Import ZArith String Ascii List Lia.
From Stdlib Require Import Sorted.
From stdpp Require Import base decidable option list strings pretty.

Open Scope string_scope.
Open Scope Z_scope.

(** ** JavaScript values *)

(** Truthiness of an optional string: [null], [undefined] and the empty
    string are falsy. *)
Definition truthy (o : option string) : bool :=
  match o with
  | Some s => negb (String.eqb s "")
  | None => false
  end.

(** [Array.prototype.includes] on an array of strings. *)
Definition includes (l : list string) (x : string) : bool :=
  existsb (String.eqb x) l.

(** ** Insertion-ordered maps ([Map]) *)

Module JsMap.
Definition t (V : Type) : Type := list (string * V).

Definition empty {V} : t V := [].

Fixpoint get {V} (k : string) (m : t V) : option V :=
  match m with
  | [] => None
  | (k', v) :: m' => if String.eqb k k' then Some v else get k m'
  end.

Definition has {V} (k : string) (m : t V) : bool :=
  match get k m with Some _ => true | None => false end.

(** [Map.prototype.set]: an existing key keeps its position. *)
Fixpoint set {V} (k : string) (v : V) (m : t V) : t V :=
  match m with
  | [] => [(k, v)]
  | (k', v') :: m' =>
      if String.eqb k k' then (k, v) :: m' else (k', v') :: set k v m'
  end.

Fixpoint delete {V} (k : string) (m : t V) : t V :=
  match m with
  | [] => []
  | (k', v') :: m' =>
      if String.eqb k k' then delete k m' else (k', v') :: delete k m'
  end.

Definition values {V} (m : t V) : list V := map snd m.
Definition size {V} (m : t V) : nat := length m.
End JsMap.

(** ** Insertion-ordered sets of strings ([Set]) *)

Module JsSet.
Definition t : Type := list string.

Definition empty : t := [].

Definition has (x : string) (s : t) : bool := includes s x.

Definition add (x : string) (s : t) : t :=
  if has x s then s else (s ++ [x])%list.

Fixpoint delete (x : string) (s : t) : t :=
  match s with
  | [] => []
  | y :: s' => if String.eqb x y then delete x s' else y :: delete x s'
  end.

Definition size (s : t) : nat := length s.
End JsSet.

(** ** [Array.prototype.sort]

    The sort of the language is stable, and for a comparator that is a
    difference of keys the result is determined: it is the stable
    insertion of the elements by that comparator. *)

Fixpoint sort_insert {A} (cmp : A -> A -> Z) (x : A) (l : list A) : list A :=
  match l with
  | [] => [x]
  | y :: l' => if cmp x y <=? 0 then x :: y :: l' else y :: sort_insert cmp x l'
  end.

Definition js_sort {A} (cmp : A -> A -> Z) (l : list A) : list A :=
  fold_right (sort_insert cmp) [] l.

(** [Array.prototype.slice(0, end)], where [end] is [None] for [NaN]. *)
Definition js_slice0 {A} (e : option Z) (l : list A) : list A :=
  match e with
  | None => []
  | Some e =>
      if e <? 0
      then firstn (Z.to_nat (Z.max (Z.of_nat (length l) + e) 0)) l
      else firstn (Z.to_nat e) l
  end.

(** ** Identifiers *)

Definition digit36 (d : N) : ascii :=
  nth (N.to_nat d)
      (list_ascii_of_string "0123456789abcdefghijklmnopqrstuvwxyz") "0"%char.

Fixpoint toString36_go (fuel : nat) (n : N) (acc : string) : string :=
  match fuel with
  | O => acc
  | S fuel' =>
      let acc' := String (digit36 (n mod 36)%N) acc in
      if (n <? 36)%N then acc' else toString36_go fuel' (n / 36)%N acc'
  end.

(** [Number.prototype.toString(36)] on an integer. *)
Definition toString36 (z : Z) : string :=
  match z with
  | Z0 => "0"
  | Zpos p => toString36_go (N.size_nat (Npos p)) (Npos p) ""
  | Zneg p => "-" ++ toString36_go (N.size_nat (Npos p)) (Npos p) ""
  end.

(** The readings one handler takes from its environment: [now] is the
    clock ([Date.now()], [new Date()]); [random k] is the text of
    [Math.random().toString(36).substr(2)] at the [k]-th place of the
    handler that draws one. *)
Record Env := mkEnv { now : Z; random : nat -> string }.

(** [generateMessageId]. *)
Definition generateMessageId (env : Env) (k : nat) : string :=
  toString36 (now env) ++ random env k.

(** [generateTicketId], without the increment of the counter, which
    [createTicket] performs. *)
Definition generateTicketId (env : Env) (counter : nat) : string :=
  "TICKET-" ++ pretty (now env) ++ "-" ++ pretty counter.

(** ** Data model *)

Module Message.
Record t := mk {
  id : string;
  content : string;
  sender : string;
  senderId : option string;
  timestamp : Z;
  read : bool
}.
End Message.

(** A ticket; the two fields of its [customerInfo] are [connectedAt]
    and [lastSeen].  [closedAt] and [closedBy] are absent until the
    ticket is closed. *)
Module Ticket.
Record t := mk {
  id : string;
  customerId : string;
  customerSocketId : string;
  status : string;
  priority : string;
  assignedAgent : option string;
  createdAt : Z;
  updatedAt : Z;
  messages : list Message.t;
  connectedAt : Z;
  lastSeen : Z;
  closedAt : option Z;
  closedBy : option string
}.

Definition with_status (v : string) (x : t) : t :=
  mk (id x) (customerId x) (customerSocketId x) v (priority x)
     (assignedAgent x) (createdAt x) (updatedAt x) (messages x)
     (connectedAt x) (lastSeen x) (closedAt x) (closedBy x).
Definition with_assignedAgent (v : option string) (x : t) : t :=
  mk (id x) (customerId x) (customerSocketId x) (status x) (priority x)
     v (createdAt x) (updatedAt x) (messages x)
     (connectedAt x) (lastSeen x) (closedAt x) (closedBy x).
Definition with_updatedAt (v : Z) (x : t) : t :=
  mk (id x) (customerId x) (customerSocketId x) (status x) (priority x)
     (assignedAgent x) (createdAt x) v (messages x)
     (connectedAt x) (lastSeen x) (closedAt x) (closedBy x).
Definition with_messages (v : list Message.t) (x : t) : t :=
  mk (id x) (customerId x) (customerSocketId x) (status x) (priority x)
     (assignedAgent x) (createdAt x) (updatedAt x) v
     (connectedAt x) (lastSeen x) (closedAt x) (closedBy x).
Definition with_closed (at_ : Z) (by_ : string) (x : t) : t :=
  mk (id x) (customerId x) (customerSocketId x) (status x) (priority x)
     (assignedAgent x) (createdAt x) (updatedAt x) (messages x)
     (connectedAt x) (lastSeen x) (Some at_) (Some by_).
End Ticket.

Module Agent.
Record t := mk {
  id : string;
  socketId : string;
  name : string;
  department : string;
  status : string;
  connectedAt : Z;
  lastActivity : Z
}.

Definition with_status (v : string) (x : t) : t :=
  mk (id x) (socketId x) (name x) (department x) v
     (connectedAt x) (lastActivity x).
Definition with_lastActivity (v : Z) (x : t) : t :=
  mk (id x) (socketId x) (name x) (department x) (status x)
     (connectedAt x) v.
End Agent.

Module Customer.
Record t := mk {
  id : string;
  connectedAt : Z;
  lastActivity : Z
}.
End Customer.

(** The projection [getTicketSummary] returns. *)
Module Summary.
Record last := mkLast {
  content : string;
  timestamp : Z;
  sender : string
}.
Record t := mk {
  id : string;
  customerId : string;
  status : string;
  priority : string;
  createdAt : Z;
  updatedAt : Z;
  messageCount : nat;
  unreadCount : nat;
  lastMessage : option last
}.
End Summary.

Module Stats.
Record t := mk {
  totalTickets : nat;
  openTickets : nat;
  assignedTickets : nat;
  closedTickets : nat;
  activeAgents : nat;
  totalAgents : nat;
  activeCustomers : nat
}.
End Stats.

(** ** The ticket manager *)

Record TicketManager := mkTM {
  tickets : JsMap.t Ticket.t;
  customerSockets : JsMap.t Customer.t;
  agentSockets : JsMap.t Agent.t;
  ticketAssignments : JsMap.t string;
  agentTickets : JsMap.t JsSet.t;
  ticketCounter : nat
}.

Definition with_tickets (v : JsMap.t Ticket.t) (m : TicketManager) :=
  mkTM v (customerSockets m) (agentSockets m) (ticketAssignments m)
       (agentTickets m) (ticketCounter m).
Definition with_customerSockets (v : JsMap.t Customer.t) (m : TicketManager) :=
  mkTM (tickets m) v (agentSockets m) (ticketAssignments m)
       (agentTickets m) (ticketCounter m).
Definition with_agentSockets (v : JsMap.t Agent.t) (m : TicketManager) :=
  mkTM (tickets m) (customerSockets m) v (ticketAssignments m)
       (agentTickets m) (ticketCounter m).
Definition with_ticketAssignments (v : JsMap.t string) (m : TicketManager) :=
  mkTM (tickets m) (customerSockets m) (agentSockets m) v
       (agentTickets m) (ticketCounter m).
Definition with_agentTickets (v : JsMap.t JsSet.t) (m : TicketManager) :=
  mkTM (tickets m) (customerSockets m) (agentSockets m) (ticketAssignments m)
       v (ticketCounter m).
Definition with_ticketCounter (v : nat) (m : TicketManager) :=
  mkTM (tickets m) (customerSockets m) (agentSockets m) (ticketAssignments m)
       (agentTickets m) v.

(** [new TicketManager()]. *)
Definition newTicketManager : TicketManager :=
  mkTM JsMap.empty JsMap.empty JsMap.empty JsMap.empty JsMap.empty 1%nat.

(** ** Methods of [TicketManager] *)

(** [createTicket(customerId, customerSocketId, initialMessage = null)].
    The initial message is pushed only when it is truthy. *)
Definition createTicket (env : Env) (customerId customerSocketId : string)
    (initialMessage : option string) (m : TicketManager)
    : Ticket.t * TicketManager :=
  let ticketId := generateTicketId env (ticketCounter m) in
  let msgs :=
    match initialMessage with
    | Some text =>
        if truthy initialMessage
        then [Message.mk (generateMessageId env 0) text "customer" None
                         (now env) false]
        else []
    | None => []
    end in
  let ticket :=
    Ticket.mk ticketId customerId customerSocketId "open" "normal" None
              (now env) (now env) msgs (now env) (now env) None None in
  (ticket,
   with_ticketCounter (S (ticketCounter m))
     (with_tickets (JsMap.set ticketId ticket (tickets m)) m)).

(** [this.agentTickets.get(id)?.size || 0]. *)
Definition ticketCount (m : TicketManager) (agentId : string) : nat :=
  match JsMap.get agentId (agentTickets m) with
  | Some s => JsSet.size s
  | None => 0%nat
  end.

Definition isAvailable (a : Agent.t) : bool :=
  String.eqb (Agent.status a) "available".

(** The comparator of [getAvailableAgent]. *)
Definition byTicketCount (m : TicketManager) (a b : Agent.t) : Z :=
  Z.of_nat (ticketCount m (Agent.id a)) - Z.of_nat (ticketCount m (Agent.id b)).

(** [getAvailableAgent()]. *)
Definition getAvailableAgent (m : TicketManager) : option Agent.t :=
  let availableAgents :=
    js_sort (byTicketCount m)
            (List.filter isAvailable (JsMap.values (agentSockets m))) in
  match availableAgents with
  | a :: _ => Some a
  | [] => None
  end.

(** [assignTicket(ticketId, agentId)]. *)
Definition assignTicket (env : Env) (ticketId agentId : string)
    (m : TicketManager) : bool * TicketManager :=
  match JsMap.get ticketId (tickets m), JsMap.get agentId (agentSockets m) with
  | Some ticket, Some _ =>
      let ticket' :=
        Ticket.with_updatedAt (now env)
          (Ticket.with_status "assigned"
             (Ticket.with_assignedAgent (Some agentId) ticket)) in
      let m1 := with_tickets (JsMap.set ticketId ticket' (tickets m)) m in
      let m2 :=
        with_ticketAssignments
          (JsMap.set ticketId agentId (ticketAssignments m1)) m1 in
      let m3 :=
        if JsMap.has agentId (agentTickets m2) then m2
        else with_agentTickets
               (JsMap.set agentId JsSet.empty (agentTickets m2)) m2 in
      let m4 :=
        match JsMap.get agentId (agentTickets m3) with
        | Some s =>
            with_agentTickets
              (JsMap.set agentId (JsSet.add ticketId s) (agentTickets m3)) m3
        | None => m3
        end in
      (true, m4)
  | _, _ => (false, m)
  end.

(** [addMessage(ticketId, content, sender, senderId = null)]. *)
Definition addMessage (env : Env) (ticketId content sender : string)
    (senderId : option string) (m : TicketManager)
    : option Message.t * TicketManager :=
  match JsMap.get ticketId (tickets m) with
  | None => (None, m)
  | Some ticket =>
      let message :=
        Message.mk (generateMessageId env 0) content sender senderId
                   (now env) false in
      let ticket' :=
        Ticket.with_updatedAt (now env)
          (Ticket.with_messages (Ticket.messages ticket ++ [message])%list
                                ticket) in
      (Some message, with_tickets (JsMap.set ticketId ticket' (tickets m)) m)
  end.

Definition isActive (t : Ticket.t) : bool :=
  includes ["open"; "assigned"] (Ticket.status t).

(** [getTicketByCustomer(customerSocketId)]: the first entry, in the
    order of the map, of that customer whose status is open or assigned.
    The key is returned with the ticket: the caller keeps a reference to
    the stored object, which is the entry under that key. *)
Definition getTicketByCustomer (customerSocketId : string) (m : TicketManager)
    : option (string * Ticket.t) :=
  List.find
    (fun kv => String.eqb (Ticket.customerSocketId (snd kv)) customerSocketId
               && isActive (snd kv))
    (tickets m).

(** [getTicketSummary(ticket)]. *)
Definition getTicketSummary (ticket : Ticket.t) : Summary.t :=
  let lastMessage := last (Ticket.messages ticket) in
  let unreadCount :=
    length
      (List.filter
         (fun msg => negb (Message.read msg)
                     && String.eqb (Message.sender msg) "customer")
         (Ticket.messages ticket)) in
  Summary.mk (Ticket.id ticket) (Ticket.customerId ticket)
    (Ticket.status ticket) (Ticket.priority ticket)
    (Ticket.createdAt ticket) (Ticket.updatedAt ticket)
    (length (Ticket.messages ticket)) unreadCount
    (match lastMessage with
     | Some lm =>
         Some (Summary.mkLast
                 (substring 0 100 (Message.content lm)
                  ++ (if (100 <? String.length (Message.content lm))%nat
                      then "..." else ""))
                 (Message.timestamp lm) (Message.sender lm))
     | None => None
     end).

(** The comparator [new Date(b.updatedAt) - new Date(a.updatedAt)]. *)
Definition newestFirst (a b : Summary.t) : Z :=
  Summary.updatedAt b - Summary.updatedAt a.

(** [getAgentTickets(agentId)]. *)
Definition getAgentTickets (agentId : string) (m : TicketManager)
    : list Summary.t :=
  let ticketIds :=
    match JsMap.get agentId (agentTickets m) with
    | Some s => s
    | None => JsSet.empty
    end in
  let collected :=
    flat_map
      (fun ticketId =>
         match JsMap.get ticketId (tickets m) with
         | Some ticket =>
             if includes ["assigned"; "open"] (Ticket.status ticket)
             then [getTicketSummary ticket] else []
         | None => []
         end)
      ticketIds in
  js_sort newestFirst collected.

(** [closeTicket(ticketId, closedBy)]. *)
Definition closeTicket (env : Env) (ticketId closedBy : string)
    (m : TicketManager) : bool * TicketManager :=
  match JsMap.get ticketId (tickets m) with
  | None => (false, m)
  | Some ticket =>
      let ticket' :=
        Ticket.with_closed (now env) closedBy
          (Ticket.with_updatedAt (now env)
             (Ticket.with_status "closed" ticket)) in
      let m1 := with_tickets (JsMap.set ticketId ticket' (tickets m)) m in
      let m2 :=
        match Ticket.assignedAgent ticket' with
        | Some agent =>
            if truthy (Ticket.assignedAgent ticket')
            then match JsMap.get agent (agentTickets m1) with
                 | Some s =>
                     with_agentTickets
                       (JsMap.set agent (JsSet.delete ticketId s)
                                  (agentTickets m1)) m1
                 | None => m1
                 end
            else m1
        | None => m1
        end in
      (true,
       with_ticketAssignments (JsMap.delete ticketId (ticketAssignments m2)) m2)
  end.

Definition countStatus (st : string) (m : TicketManager) : nat :=
  length (List.filter (fun t => String.eqb (Ticket.status t) st)
                      (JsMap.values (tickets m))).

(** [getStats()]. *)
Definition getStats (m : TicketManager) : Stats.t :=
  Stats.mk (JsMap.size (tickets m))
    (countStatus "open" m) (countStatus "assigned" m) (countStatus "closed" m)
    (length (List.filter isAvailable (JsMap.values (agentSockets m))))
    (JsMap.size (agentSockets m))
    (JsMap.size (customerSockets m)).

(** ** Events on the two namespaces *)

(** Events a customer socket receives. *)
Inductive CustomerEvent :=
| chat_response (message : string) (timestamp : Z) (messageId : string)
                (sender : string) (messageType : string)
| typing (isTyping : bool).

(** Events an agent socket receives. *)
Inductive AgentEvent :=
| new_ticket (ticket : Summary.t) (content : string) (timestamp : Z)
| customer_message (ticketId content : string) (timestamp : Z)
                   (messageId customer : string)
| customer_typing (ticketId : string) (isTyping : bool)
| customer_disconnected (ticketId : string) (disconnectedAt : Z)
| auth_error (message : string)
| auth_success (agentId agentName : string) (department : option string)
               (tickets : list Summary.t) (stats : Stats.t)
| agent_status_change (agentId agentName status : string)
| error (message : string)
| message_sent (ticketId messageId : string) (timestamp : Z)
| ticket_updated (ticketId status : string) (updatedAt : Z)
| ticket_details (ticket : Ticket.t).

(** What a handler sends: [socket.emit] and [namespace.to(id).emit] are
    [to_customer] and [to_agent] with the id of the receiving socket,
    [socket.broadcast.emit] is [broadcast_from] with the id of the
    sending socket, and [ack] is the call of the acknowledgement
    callback of [chat_message]. *)
Inductive Output :=
| to_customer (socketId : string) (e : CustomerEvent)
| to_agent (socketId : string) (e : AgentEvent)
| broadcast_from (socketId : string) (e : AgentEvent)
| ack (socketId status messageId : string) (timestamp : Z) (ticketId : string).

(** What a socket receives from its peer.  The first argument of each
    constructor is the id of the socket. *)
Inductive Event :=
| customer_connection (socket : string)
| customer_chat_message (socket message : string) (callback : bool)
| customer_typing_event (socket : string) (isTyping : bool)
| customer_disconnect (socket : string)
| agent_connection (socket : string)
| agent_authenticate (socket agentId agentName : string)
                     (department : option string)
| agent_send_message (socket ticketId message : string)
| agent_typing (socket ticketId : string) (isTyping : bool)
| agent_update_ticket_status (socket ticketId status : string)
| agent_update_status (socket status : string)
| agent_get_ticket_details (socket ticketId : string)
| agent_disconnect (socket : string).

(** The server: the ticket manager and, for every agent socket that has
    authenticated, its property [socket.agentId]. *)
Record Server := mkServer {
  ticketManager : TicketManager;
  agentIdOf : JsMap.t string
}.

Definition initial : Server := mkServer newTicketManager JsMap.empty.

(** [ticket.assignedAgent === agentId], where the left side is [null] or
    a string and the right side is [undefined] or a string: the two
    absent values are not strictly equal. *)
Definition sameAgent (assigned agentId : option string) : bool :=
  match assigned, agentId with
  | Some a, Some b => String.eqb a b
  | _, _ => false
  end.

(** ** Customer namespace *)

Definition onCustomerConnection (env : Env) (socket : string) (s : Server)
    : Server * list Output :=
  let m := ticketManager s in
  let m1 :=
    with_customerSockets
      (JsMap.set socket (Customer.mk socket (now env) (now env))
                 (customerSockets m)) m in
  (mkServer m1 (agentIdOf s),
   [to_customer socket
      (chat_response
         "Hello! Welcome to our support chat. How can we help you today?"
         (now env) (generateMessageId env 0) "system" "welcome")]).

Definition busyText : string :=
  "All our agents are currently busy. Your message has been recorded and an agent will respond as soon as possible. Thank you for your patience.".

Definition connectingText : string :=
  "An agent will be with you shortly. Please wait a moment...".

Definition closedText : string :=
  "This support session has been closed. Thank you for contacting us! Feel free to start a new conversation if you need further assistance.".

(** The second half of the handler of [chat_message], after the ticket
    of the customer has been found or created: the acknowledgement and
    the routing of the message.  The local [ticket] of the source is a
    reference to the object stored in the map; after the mutations of
    [addMessage] and [assignTicket] its fields are read back from the
    entry [key] it is stored under ([found] is the object as it was when
    the handler got hold of it). *)
Definition routeChatMessage (env : Env) (socket message : string)
    (callback : bool) (agentIds : JsMap.t string) (key : string)
    (found : Ticket.t) (m2 : TicketManager) : Server * list Output :=
  let ticket := default found (JsMap.get key (tickets m2)) in
  let acks :=
    if callback
    then [ack socket "received" (generateMessageId env 1) (now env)
              (Ticket.id ticket)]
    else [] in
  if String.eqb (Ticket.status ticket) "open" then
    match getAvailableAgent m2 with
    | Some availableAgent =>
        let m3 :=
          snd (assignTicket env (Ticket.id ticket) (Agent.id availableAgent)
                            m2) in
        let ticket' := default ticket (JsMap.get key (tickets m3)) in
        (mkServer m3 agentIds,
         acks ++
         [to_agent (Agent.socketId availableAgent)
            (new_ticket (getTicketSummary ticket') message (now env));
          to_customer socket
            (chat_response connectingText (now env) (generateMessageId env 2)
                           "system" "agent_connecting")])%list
    | None =>
        (mkServer m2 agentIds,
         acks ++
         [to_customer socket
            (chat_response busyText (now env) (generateMessageId env 2)
                           "system" "no_agents_available")])%list
    end
  else if String.eqb (Ticket.status ticket) "assigned"
          && truthy (Ticket.assignedAgent ticket) then
    match Ticket.assignedAgent ticket with
    | Some assigned =>
        match JsMap.get assigned (agentSockets m2) with
        | Some agentSocket =>
            (mkServer m2 agentIds,
             acks ++
             [to_agent (Agent.socketId agentSocket)
                (customer_message (Ticket.id ticket) message (now env)
                                  (generateMessageId env 2) socket)])%list
        | None => (mkServer m2 agentIds, acks)
        end
    | None => (mkServer m2 agentIds, acks)
    end
  else (mkServer m2 agentIds, acks).

(** The handler of [chat_message]: the activity of the customer is
    stamped, the open or assigned ticket of the socket is looked up and
    gets the message, or a ticket is created with it, and the message is
    routed. *)
Definition onChatMessage (env : Env) (socket message : string)
    (callback : bool) (s : Server) : Server * list Output :=
  let m := ticketManager s in
  let m1 :=
    match JsMap.get socket (customerSockets m) with
    | Some info =>
        with_customerSockets
          (JsMap.set socket
             (Customer.mk (Customer.id info) (Customer.connectedAt info)
                          (now env))
             (customerSockets m)) m
    | None => m
    end in
  let '(key, found, m2) :=
    match getTicketByCustomer socket m1 with
    | None =>
        let '(t, m') := createTicket env socket socket (Some message) m1 in
        (Ticket.id t, t, m')
    | Some (k, t) =>
        (k, t, snd (addMessage env (Ticket.id t) message "customer" None m1))
    end in
  routeChatMessage env socket message callback (agentIdOf s) key found m2.

(** The agent socket a customer event about [ticket] is forwarded to. *)
Definition agentSocketOf (m : TicketManager) (ticket : Ticket.t)
    : option Agent.t :=
  match Ticket.assignedAgent ticket with
  | Some assigned =>
      if truthy (Ticket.assignedAgent ticket)
      then JsMap.get assigned (agentSockets m)
      else None
  | None => None
  end.

Definition onCustomerTyping (socket : string) (isTyping : bool) (s : Server)
    : Server * list Output :=
  let m := ticketManager s in
  match getTicketByCustomer socket m with
  | Some (_, ticket) =>
      match agentSocketOf m ticket with
      | Some agentSocket =>
          (s, [to_agent (Agent.socketId agentSocket)
                 (customer_typing (Ticket.id ticket) isTyping)])
      | None => (s, [])
      end
  | None => (s, [])
  end.

Definition onCustomerDisconnect (env : Env) (socket : string) (s : Server)
    : Server * list Output :=
  let m := ticketManager s in
  let outs :=
    match getTicketByCustomer socket m with
    | Some (_, ticket) =>
        match agentSocketOf m ticket with
        | Some agentSocket =>
            [to_agent (Agent.socketId agentSocket)
               (customer_disconnected (Ticket.id ticket) (now env))]
        | None => []
        end
    | None => []
    end in
  (mkServer (with_customerSockets (JsMap.delete socket (customerSockets m)) m)
            (agentIdOf s),
   outs).

(** ** Agent namespace *)

Definition onAuthenticate (env : Env) (socket agentId agentName : string)
    (department : option string) (s : Server) : Server * list Output :=
  if negb (truthy (Some agentId)) || negb (truthy (Some agentName)) then
    (s, [to_agent socket (auth_error "Invalid credentials")])
  else
    let m := ticketManager s in
    let info :=
      Agent.mk agentId socket agentName
        (match department with
         | Some d => if truthy department then d else "General Support"
         | None => "General Support"
         end)
        "available" (now env) (now env) in
    let m1 := with_agentSockets (JsMap.set agentId info (agentSockets m)) m in
    (mkServer m1 (JsMap.set socket agentId (agentIdOf s)),
     [to_agent socket
        (auth_success agentId agentName department
                      (getAgentTickets agentId m1) (getStats m1));
      broadcast_from socket
        (agent_status_change agentId agentName "available")]).

Definition notAssignedText : string :=
  "Ticket not found or not assigned to you".

Definition onSendMessage (env : Env) (socket ticketId message : string)
    (s : Server) : Server * list Output :=
  let m := ticketManager s in
  let agentId := JsMap.get socket (agentIdOf s) in
  match agentId with
  | Some agent =>
      if negb (truthy agentId) then
        (s, [to_agent socket (error "Not authenticated")])
      else
        match JsMap.get ticketId (tickets m) with
        | Some ticket =>
            if sameAgent (Ticket.assignedAgent ticket) agentId then
              match addMessage env ticketId message "agent" (Some agent) m with
              | (Some messageObj, m1) =>
                  (mkServer m1 (agentIdOf s),
                   [to_customer (Ticket.customerSocketId ticket)
                      (chat_response message (Message.timestamp messageObj)
                                     (Message.id messageObj) "agent"
                                     "response");
                    to_agent socket
                      (message_sent ticketId (Message.id messageObj)
                                    (Message.timestamp messageObj))])
              | (None, m1) => (mkServer m1 (agentIdOf s), [])
              end
            else (s, [to_agent socket (error notAssignedText)])
        | None => (s, [to_agent socket (error notAssignedText)])
        end
  | None => (s, [to_agent socket (error "Not authenticated")])
  end.

Definition onAgentTyping (socket ticketId : string) (isTyping : bool)
    (s : Server) : Server * list Output :=
  let agentId := JsMap.get socket (agentIdOf s) in
  match JsMap.get ticketId (tickets (ticketManager s)) with
  | Some ticket =>
      if sameAgent (Ticket.assignedAgent ticket) agentId
      then (s, [to_customer (Ticket.customerSocketId ticket) (typing isTyping)])
      else (s, [])
  | None => (s, [])
  end.

Definition onUpdateTicketStatus (env : Env) (socket ticketId status : string)
    (s : Server) : Server * list Output :=
  let m := ticketManager s in
  let agentId := JsMap.get socket (agentIdOf s) in
  match JsMap.get ticketId (tickets m), agentId with
  | Some ticket, Some agent =>
      if sameAgent (Ticket.assignedAgent ticket) agentId then
        let ticket1 :=
          Ticket.with_updatedAt (now env) (Ticket.with_status status ticket) in
        let m1 := with_tickets (JsMap.set ticketId ticket1 (tickets m)) m in
        let updated :=
          to_agent socket (ticket_updated ticketId status (now env)) in
        if String.eqb status "closed" then
          let m2 := snd (closeTicket env ticketId agent m1) in
          (mkServer m2 (agentIdOf s),
           [updated;
            to_customer (Ticket.customerSocketId ticket)
              (chat_response closedText (now env) (generateMessageId env 0)
                             "system" "session_closed")])
        else (mkServer m1 (agentIdOf s), [updated])
      else (s, [])
  | _, _ => (s, [])
  end.

Definition onUpdateStatus (env : Env) (socket status : string) (s : Server)
    : Server * list Output :=
  let m := ticketManager s in
  match JsMap.get socket (agentIdOf s) with
  | Some agentId =>
      match JsMap.get agentId (agentSockets m) with
      | Some agentInfo =>
          let agentInfo' :=
            Agent.with_lastActivity (now env)
              (Agent.with_status status agentInfo) in
          (mkServer
             (with_agentSockets
                (JsMap.set agentId agentInfo' (agentSockets m)) m)
             (agentIdOf s),
           [broadcast_from socket
              (agent_status_change agentId (Agent.name agentInfo) status)])
      | None => (s, [])
      end
  | None => (s, [])
  end.

Definition markRead (msg : Message.t) : Message.t :=
  if String.eqb (Message.sender msg) "customer"
  then Message.mk (Message.id msg) (Message.content msg) (Message.sender msg)
                  (Message.senderId msg) (Message.timestamp msg) true
  else msg.

Definition onGetTicketDetails (socket ticketId : string) (s : Server)
    : Server * list Output :=
  let m := ticketManager s in
  let agentId := JsMap.get socket (agentIdOf s) in
  match JsMap.get ticketId (tickets m) with
  | Some ticket =>
      if sameAgent (Ticket.assignedAgent ticket) agentId then
        let ticket1 :=
          Ticket.with_messages (map markRead (Ticket.messages ticket)) ticket in
        (mkServer (with_tickets (JsMap.set ticketId ticket1 (tickets m)) m)
                  (agentIdOf s),
         [to_agent socket (ticket_details ticket1)])
      else (s, [])
  | None => (s, [])
  end.

(** The first half of the disconnect handler of an agent socket: the
    entry of the agent, when there is one, gets the status offline and
    the change is broadcast. *)
Definition markOffline (socket agentId : string) (m : TicketManager)
    : TicketManager * list Output :=
  match JsMap.get agentId (agentSockets m) with
  | Some agentInfo =>
      (with_agentSockets
         (JsMap.set agentId (Agent.with_status "offline" agentInfo)
                    (agentSockets m)) m,
       [broadcast_from socket
          (agent_status_change agentId (Agent.name agentInfo) "offline")])
  | None => (m, [])
  end.

(** The disconnect handler: after [markOffline], the entry of the agent
    is deleted from [agentSockets].  The socket itself is gone, and its
    [agentId] with it. *)
Definition onAgentDisconnect (socket : string) (s : Server)
    : Server * list Output :=
  let m := ticketManager s in
  let agentId := JsMap.get socket (agentIdOf s) in
  match agentId with
  | Some agent =>
      if truthy agentId then
        let '(m1, outs) := markOffline socket agent m in
        (mkServer
           (with_agentSockets (JsMap.delete agent (agentSockets m1)) m1)
           (JsMap.delete socket (agentIdOf s)),
         outs)
      else (mkServer m (JsMap.delete socket (agentIdOf s)), [])
  | None => (s, [])
  end.

(** ** The server as a transition function *)

Definition step (env : Env) (e : Event) (s : Server) : Server * list Output :=
  match e with
  | customer_connection socket => onCustomerConnection env socket s
  | customer_chat_message socket message callback =>
      onChatMessage env socket message callback s
  | customer_typing_event socket isTyping => onCustomerTyping socket isTyping s
  | customer_disconnect socket => onCustomerDisconnect env socket s
  | agent_connection _ => (s, [])
  | agent_authenticate socket agentId agentName department =>
      onAuthenticate env socket agentId agentName department s
  | agent_send_message socket ticketId message =>
      onSendMessage env socket ticketId message s
  | agent_typing socket ticketId isTyping =>
      onAgentTyping socket ticketId isTyping s
  | agent_update_ticket_status socket ticketId status =>
      onUpdateTicketStatus env socket ticketId status s
  | agent_update_status socket status => onUpdateStatus env socket status s
  | agent_get_ticket_details socket ticketId =>
      onGetTicketDetails socket ticketId s
  | agent_disconnect socket => onAgentDisconnect socket s
  end.

(** Events are handled one at a time, each to completion. *)
Fixpoint run (trace : list (Env * Event)) (s : Server) : Server :=
  match trace with
  | [] => s
  | (env, e) :: rest => run rest (fst (step env e s))
  end.

(** A state the server can be in. *)
Definition reachable (s : Server) : Prop :=
  exists trace, s = run trace initial.

(** ** The admin endpoint [GET /api/tickets] *)

(** The query parameter [limit] after [parseInt]: absent (the default 50
    applies), not a number, or an integer. *)
Inductive QueryLimit :=
| limit_absent
| limit_NaN
| limit_int (n : Z).

Definition parsedLimit (l : QueryLimit) : option Z :=
  match l with
  | limit_absent => Some 50
  | limit_NaN => None
  | limit_int n => Some n
  end.

(** The tickets that pass the filters [status] and [agentId] of the
    query; a filter applies when its parameter is truthy. *)
Definition matchingTickets (status agentId : option string)
    (m : TicketManager) : list Ticket.t :=
  let all := JsMap.values (tickets m) in
  let byStatus :=
    match status with
    | Some st =>
        if truthy status
        then List.filter (fun t => String.eqb (Ticket.status t) st) all
        else all
    | None => all
    end in
  if truthy agentId
  then List.filter (fun t => sameAgent (Ticket.assignedAgent t) agentId)
                   byStatus
  else byStatus.

(** The comparator [new Date(b.updatedAt) - new Date(a.updatedAt)] on
    tickets. *)
Definition newestTicketFirst (a b : Ticket.t) : Z :=
  Ticket.updatedAt b - Ticket.updatedAt a.

(** The response [{ tickets, total }] of the endpoint. *)
Definition listTickets (status agentId : option string) (limit : QueryLimit)
    (m : TicketManager) : list Summary.t * nat :=
  let page :=
    map getTicketSummary
      (js_slice0 (parsedLimit limit)
         (js_sort newestTicketFirst (matchingTickets status agentId m))) in
  (page, length page).

(** ** Scenarios

    Concrete runs of the server, used to exercise the theorems. *)

Definition sampleEnv (t : Z) : Env := mkEnv t (fun k => "r" ++ pretty k).

(** Two agents are online and the only ticket went to the first. *)
Definition twoAgentsOneTicket : Server :=
  run [(sampleEnv 1, agent_connection "s1");
       (sampleEnv 2, agent_authenticate "s1" "A1" "Ann" None);
       (sampleEnv 3, agent_connection "s2");
       (sampleEnv 4, agent_authenticate "s2" "A2" "Bo" None);
       (sampleEnv 5, customer_connection "c1");
       (sampleEnv 6, customer_chat_message "c1" "Hello" true)]
      initial.

(** Two tickets, no agent. *)
Definition twoOpenTickets : TicketManager :=
  ticketManager
    (run [(sampleEnv 1, customer_connection "c1");
          (sampleEnv 2, customer_chat_message "c1" "Hello" false);
          (sampleEnv 3, customer_connection "c2");
          (sampleEnv 4, customer_chat_message "c2" "Help" false)]
         initial).


(** The agent closes the ticket of [twoAgentsOneTicket]. *)
Definition ticketClosedByAgent : Server :=
  run [(sampleEnv 7, agent_update_ticket_status "s1" "TICKET-6-1" "closed")]
      twoAgentsOneTicket.

(** After the close the customer writes again and gets a second ticket;
    the agent then sets the closed ticket back to open. *)
Definition closedTicketReopened : Server :=
  run [(sampleEnv 8, customer_chat_message "c1" "Are you there?" true);
       (sampleEnv 9, agent_update_ticket_status "s1" "TICKET-6-1" "open")]
      ticketClosedByAgent.

(** ** Invariants of the reachable states *)

(** What holds of every stored ticket: a ticket whose status is assigned
    has an agent, and the id of an agent is never the empty text. *)
Definition ticketOk (t : Ticket.t) : Prop :=
  (Ticket.status t = "assigned" -> Ticket.assignedAgent t <> None)
  /\ Ticket.assignedAgent t <> Some "".

Definition ticketsOk (m : TicketManager) : Prop :=
  forall k t, JsMap.get k (tickets m) = Some t -> ticketOk t.

(** A ticket is stored under its own id. *)
Definition idIsKey (m : TicketManager) : Prop :=
  forall k t, JsMap.get k (tickets m) = Some t -> Ticket.id t = k.

(** An entry of [ticketAssignments] is matched by the ticket and by the
    set of the agent. *)
Definition indexOk (m : TicketManager) : Prop :=
  forall k a, JsMap.get k (ticketAssignments m) = Some a ->
    exists t s,
      JsMap.get k (tickets m) = Some t
      /\ Ticket.assignedAgent t = Some a
      /\ JsMap.get a (agentTickets m) = Some s
      /\ JsSet.has k s = true.

(** The ids in use were generated with a counter below the current one. *)
Definition freshIds (m : TicketManager) : Prop :=
  forall k t, JsMap.get k (tickets m) = Some t ->
    exists env c, k = generateTicketId env c /\ (c < ticketCounter m)%nat.

Definition agentsOk (m : TicketManager) : Prop :=
  forall info, In info (JsMap.values (agentSockets m)) -> Agent.id info <> "".

Definition consistent (m : TicketManager) : Prop :=
  ticketsOk m /\ idIsKey m /\ indexOk m /\ freshIds m /\ agentsOk m.

(** At most one open or assigned ticket for a customer socket. *)
Definition oneActiveTicket (m : TicketManager) : Prop :=
  forall k1 k2 t1 t2,
    JsMap.get k1 (tickets m) = Some t1 ->
    JsMap.get k2 (tickets m) = Some t2 ->
    isActive t1 = true -> isActive t2 = true ->
    Ticket.customerSocketId t1 = Ticket.customerSocketId t2 ->
    k1 = k2.

(** Another ticket than the one stored under [key] belongs to the customer
    socket [socket] and is open or assigned. *)
Definition otherActive (key socket : string) (m : TicketManager) : bool :=
  existsb
    (fun kv =>
       negb (String.eqb (fst kv) key)
       && String.eqb (Ticket.customerSocketId (snd kv)) socket
       && isActive (snd kv))
    (tickets m).

(** An [update_ticket_status] that the handler accepts and that gives
    the status open or assigned to a ticket that is neither, while
    another ticket of the same customer socket is open or assigned. *)
Definition reopens (e : Event) (s : Server) : bool :=
  match e with
  | agent_update_ticket_status socket ticketId status =>
      match JsMap.get ticketId (tickets (ticketManager s)) with
      | Some t =>
          sameAgent (Ticket.assignedAgent t) (JsMap.get socket (agentIdOf s))
          && includes ["open"; "assigned"] status
          && negb (isActive t)
          && otherActive ticketId (Ticket.customerSocketId t)
               (ticketManager s)
      | None => false
      end
  | _ => false
  end.

(** No event of the trace, run from [s], reopens a ticket beside another
    open or assigned ticket of its customer socket. *)
Fixpoint neverReopens (trace : list (Env * Event)) (s : Server) : bool :=
  match trace with
  | [] => true
  | (env, e) :: rest =>
      negb (reopens e s) && neverReopens rest (fst (step env e s))
  end.

(** The text after the last dash of a ticket id is its counter. *)
Fixpoint hasDash (s : string) : bool :=
  match s with
  | EmptyString => false
  | String c s' => Ascii.eqb c "-" || hasDash s'
  end.

Fixpoint lastSegment (s : string) : string :=
  match s with
  | EmptyString => EmptyString
  | String c s' =>
      if hasDash s' then lastSegment s'
      else if Ascii.eqb c "-" then s' else String c s'
  end.


(** Every stored ticket was last updated at or before the reading [c]
    of the clock. *)
Definition stampsBehind (c : Z) (m : TicketManager) : Prop :=
  forall k t, JsMap.get k (tickets m) = Some t -> Ticket.updatedAt t <= c.

(** The clock readings of a trace, starting from [c], never go back. *)
Fixpoint clockMonotone (c : Z) (trace : list (Env * Event)) : Prop :=
  match trace with
  | [] => True
  | (env, _) :: rest => c <= now env /\ clockMonotone (now env) rest
  end.

(** The last clock reading of a trace that starts from [c]. *)
Fixpoint lastReading (c : Z) (trace : list (Env * Event)) : Z :=
  match trace with
  | [] => c
  | (env, _) :: rest => lastReading (now env) rest
  end.

(** ** Further notions used by the properties *)

(** What a message says, without its [read] flag. *)
Definition messageText (msg : Message.t)
    : string * string * string * option string * Z :=
  (Message.id msg, Message.content msg, Message.sender msg,
   Message.senderId msg, Message.timestamp msg).

(** The number of unread customer messages, as [getTicketSummary] counts
    them. *)
Definition unread (t : Ticket.t) : nat :=
  Summary.unreadCount (getTicketSummary t).

(** The events whose handlers write to a ticket, and those whose
    handlers write to the two maps of the assignment index. *)
Definition writesTickets (e : Event) : bool :=
  match e with
  | customer_chat_message _ _ _ => true
  | agent_send_message _ _ _ => true
  | agent_update_ticket_status _ _ _ => true
  | agent_get_ticket_details _ _ => true
  | _ => false
  end.

Definition writesIndex (e : Event) : bool :=
  match e with
  | customer_chat_message _ _ _ => true
  | agent_update_ticket_status _ _ _ => true
  | _ => false
  end.

(** Newest first, on summaries and on tickets. *)
Definition newerOrSame (a b : Summary.t) : Prop :=
  Summary.updatedAt b <= Summary.updatedAt a.

(** The size of the set of an agent after [ticketId] has been added. *)
Definition countAfterAdd (m : TicketManager) (agentId ticketId : string)
    : nat :=
  match JsMap.get agentId (agentTickets m) with
  | Some s => if JsSet.has ticketId s then JsSet.size s else S (JsSet.size s)
  | None => 1%nat
  end.

(** 1 when the ticket has the status, else 0: the share of the ticket in
    the count of that status. *)
Definition hasStatus (st : string) (t : Ticket.t) : nat :=
  if String.eqb (Ticket.status t) st then 1%nat else 0%nat.

(** ** Further invariants of the reachable states *)

(** The keys of a map are pairwise distinct, as those of a [Map] are. *)
Definition distinctKeys {V} (m : JsMap.t V) : Prop :=
  List.NoDup (map fst m).

(** An agent is registered under its own id. *)
Definition agentsKeyed (m : TicketManager) : Prop :=
  forall k info, In (k, info) (agentSockets m) -> Agent.id info = k.

(** The sets of the agents hold ids of stored tickets only. *)
Definition setsKnown (m : TicketManager) : Prop :=
  forall a s k, JsMap.get a (agentTickets m) = Some s ->
                JsSet.has k s = true -> In k (map fst (tickets m)).

Definition registryOk (m : TicketManager) : Prop :=
  distinctKeys (tickets m)
  /\ distinctKeys (agentSockets m)
  /\ agentsKeyed m
  /\ setsKnown m
  /\ S (JsMap.size (tickets m)) = ticketCounter m.

(** A later version of a ticket: the same ticket of the same customer,
    with the messages it had, in their order, and possibly more after
    them. *)
Definition laterVersion (t t' : Ticket.t) : Prop :=
  Ticket.id t' = Ticket.id t
  /\ Ticket.customerId t' = Ticket.customerId t
  /\ Ticket.customerSocketId t' = Ticket.customerSocketId t
  /\ Ticket.createdAt t' = Ticket.createdAt t
  /\ exists more,
       map messageText (Ticket.messages t')
       = (map messageText (Ticket.messages t) ++ more)%list.

(** Every ticket of [m] is stored in [m'] in a later version. *)
Definition ticketsKept (m m' : TicketManager) : Prop :=
  forall k t, JsMap.get k (tickets m) = Some t ->
    exists t', JsMap.get k (tickets m') = Some t' /\ laterVersion t t'.

(** * Properties *)

(** ** Maps and sets *)

Section JsMapFacts.
Context {V : Type}.
Implicit Types (m : JsMap.t V) (k : string) (v : V).

Lemma get_set_eq k v m : JsMap.get k (JsMap.set k v m) = Some v.
Proof.
  induction m as [|[k' v'] m IH]; simpl.
  - now rewrite String.eqb_refl.
  - destruct (String.eqb k k') eqn:E; simpl.
    + now rewrite String.eqb_refl.
    + now rewrite E.
Qed.

Lemma get_set_ne k k' v m :
  k <> k' -> JsMap.get k' (JsMap.set k v m) = JsMap.get k' m.
Proof.
  intros Hne. induction m as [|[k0 v0] m IH]; simpl.
  - destruct (String.eqb_spec k' k); congruence.
  - destruct (String.eqb_spec k k0) as [->|Hk]; simpl.
    + destruct (String.eqb_spec k' k0); congruence.
    + destruct (String.eqb_spec k' k0); congruence.
Qed.

Lemma get_set k k' v m :
  JsMap.get k' (JsMap.set k v m)
  = if String.eqb k k' then Some v else JsMap.get k' m.
Proof.
  destruct (String.eqb_spec k k') as [->|Hne].
  - apply get_set_eq.
  - now apply get_set_ne.
Qed.

Lemma get_delete_eq k m : JsMap.get k (JsMap.delete k m) = None.
Proof.
  induction m as [|[k' v'] m IH]; simpl; [reflexivity|].
  destruct (String.eqb k k') eqn:E; simpl; [assumption|].
  now rewrite E.
Qed.

Lemma get_delete_ne k k' m :
  k <> k' -> JsMap.get k' (JsMap.delete k m) = JsMap.get k' m.
Proof.
  intros Hne. induction m as [|[k0 v0] m IH]; simpl; [reflexivity|].
  destruct (String.eqb_spec k k0) as [->|Hk]; simpl.
  - destruct (String.eqb_spec k' k0); congruence.
  - destruct (String.eqb_spec k' k0); congruence.
Qed.

Lemma get_In k v m : JsMap.get k m = Some v -> In (k, v) m.
Proof.
  induction m as [|[k' v'] m IH]; simpl; [discriminate|].
  destruct (String.eqb_spec k k') as [->|Hk].
  - intros [= ->]. now left.
  - intros H. right. now apply IH.
Qed.

End JsMapFacts.

Lemma includes_In l x : includes l x = true <-> In x l.
Proof.
  unfold includes. rewrite existsb_exists. split.
  - intros (y & Hy & E). apply String.eqb_eq in E. now subst.
  - intros H. exists x. split; [assumption|apply String.eqb_refl].
Qed.

Lemma set_has_add x y s :
  JsSet.has y (JsSet.add x s) = true <-> y = x \/ JsSet.has y s = true.
Proof.
  unfold JsSet.add. destruct (JsSet.has x s) eqn:E.
  - split; [now right|]. intros [->|H]; assumption.
  - unfold JsSet.has in *. rewrite !includes_In, in_app_iff. simpl.
    intuition congruence.
Qed.

Lemma set_has_delete x y s :
  JsSet.has y (JsSet.delete x s) = true <-> y <> x /\ JsSet.has y s = true.
Proof.
  unfold JsSet.has. rewrite !includes_In.
  induction s as [|z s IH]; simpl; [tauto|].
  destruct (String.eqb_spec x z) as [->|Hne]; simpl; rewrite IH.
  - split; [tauto|]. intros [Hy [->|H]]; tauto.
  - split; [|tauto]. intros [->|H]; [|tauto]. split; [congruence|now left].
Qed.

(** ** Sorting *)

Section Sorting.
Context {A : Type} (cmp : A -> A -> Z).

Lemma sort_insert_In x y l : In y (sort_insert cmp x l) <-> y = x \/ In y l.
Proof.
  induction l as [|z l IH]; simpl.
  - split; [intros [->|[]]; now left | intros [->|[]]; now left].
  - destruct (cmp x z <=? 0); simpl; [|rewrite IH]; split;
      intuition congruence.
Qed.

Lemma js_sort_In y l : In y (js_sort cmp l) <-> In y l.
Proof.
  induction l as [|x l IH]; simpl; [tauto|].
  rewrite sort_insert_In, IH. split; intuition congruence.
Qed.

Lemma js_sort_length l : length (js_sort cmp l) = length l.
Proof.
  assert (Hins : forall x l', length (sort_insert cmp x l') = S (length l')).
  { intros x l'. induction l' as [|z l' IH]; simpl; [reflexivity|].
    destruct (cmp x z <=? 0); simpl; congruence. }
  induction l as [|x l IH]; simpl; [reflexivity|].
  now rewrite Hins, IH.
Qed.

(** When the comparator is a difference of keys, the first element of
    the sorted array has the least key. *)
Lemma js_sort_head_least (key : A -> Z) l h rest :
  (forall a b, cmp a b = key a - key b) ->
  js_sort cmp l = h :: rest ->
  forall x, In x l -> key h <= key x.
Proof.
  intros Hcmp. revert h rest.
  induction l as [|x0 l IH]; intros h rest Hs x Hx; [destruct Hx|].
  simpl in Hs. destruct (js_sort cmp l) as [|h' rest'] eqn:El.
  - assert (l = []) as ->.
    { apply length_zero_iff_nil. rewrite <- js_sort_length, El. reflexivity. }
    simpl in Hs. injection Hs as <- <-. destruct Hx as [->|[]]. lia.
  - specialize (IH h' rest' eq_refl).
    simpl in Hs. rewrite Hcmp in Hs.
    destruct (Z.leb_spec (key x0 - key h') 0) as [Hle|Hgt];
      injection Hs as <- <-.
    + destruct Hx as [->|Hx]; [lia|]. specialize (IH x Hx). lia.
    + destruct Hx as [->|Hx]; [lia|]. now apply IH.
Qed.
End Sorting.

(** ** Selection of an agent *)

(** What [getAvailableAgent] returns is a registered agent that is
    available. *)
Lemma getAvailableAgent_some (m : TicketManager) (a : Agent.t) :
  getAvailableAgent m = Some a ->
  In a (JsMap.values (agentSockets m)) /\ isAvailable a = true.
Proof.
  unfold getAvailableAgent.
  destruct (js_sort _ _) as [|h rest] eqn:Es; [discriminate|].
  intros [= ->]. apply filter_In.
  apply (js_sort_In (byTicketCount m)). rewrite Es. now left.
Qed.

Lemma getAvailableAgent_none (m : TicketManager) :
  (forall b, In b (JsMap.values (agentSockets m)) ->
             Agent.status b <> "available") ->
  getAvailableAgent m = None.
Proof.
  intros Hnone. destruct (getAvailableAgent m) as [a|] eqn:E; [|reflexivity].
  apply getAvailableAgent_some in E as [Ha Hav].
  apply String.eqb_eq in Hav. now destruct (Hnone a Ha).
Qed.

(** C3: [getAvailableAgent] never returns an agent whose status is not
    available; the agent it returns has the least number of assigned
    tickets (the size of its set in [agentTickets], 0 when it has none)
    among the available agents; and it returns [null] exactly when no
    registered agent is available. *)
Theorem getAvailableAgent_least_loaded (m : TicketManager) :
  match getAvailableAgent m with
  | Some a =>
      In a (JsMap.values (agentSockets m))
      /\ Agent.status a = "available"
      /\ forall b, In b (JsMap.values (agentSockets m)) ->
                   Agent.status b = "available" ->
                   (ticketCount m (Agent.id a) <= ticketCount m (Agent.id b))%nat
  | None =>
      forall b, In b (JsMap.values (agentSockets m)) ->
                Agent.status b <> "available"
  end.
Proof.
  unfold getAvailableAgent.
  set (avail := List.filter isAvailable (JsMap.values (agentSockets m))).
  destruct (js_sort (byTicketCount m) avail) as [|a rest] eqn:Es.
  - intros b Hb Hst.
    assert (Hin : In b (js_sort (byTicketCount m) avail)).
    { apply js_sort_In. apply filter_In. split; [assumption|].
      unfold isAvailable. now apply String.eqb_eq. }
    rewrite Es in Hin. destruct Hin.
  - assert (Ha : In a avail).
    { apply (js_sort_In (byTicketCount m)). rewrite Es. now left. }
    apply filter_In in Ha as [Ha Hav].
    split; [assumption|]. split; [now apply String.eqb_eq|].
    intros b Hb Hst.
    assert (Hb' : In b avail).
    { apply filter_In. split; [assumption|].
      unfold isAvailable. now apply String.eqb_eq. }
    pose proof (js_sort_head_least (byTicketCount m)
                  (fun x => Z.of_nat (ticketCount m (Agent.id x)))
                  avail a rest (fun _ _ => eq_refl) Es b Hb') as Hle.
    simpl in Hle. lia.
Qed.

(** ** Assignment *)

(** C6: assigning to [a2] a ticket that is assigned to another agent
    [a1] succeeds when the ticket and [a2] exist; the forward entry of
    the ticket becomes [a2], the ticket enters the set of [a2], and the
    set of [a1] is left as it was, so the ticket is still in it. *)
Theorem assignTicket_keeps_previous_slot (env : Env) (m : TicketManager)
    (ticketId a1 a2 : string) (t : Ticket.t) (agent2 : Agent.t)
    (s1 : JsSet.t) :
  JsMap.get ticketId (tickets m) = Some t ->
  JsMap.get a2 (agentSockets m) = Some agent2 ->
  JsMap.get ticketId (ticketAssignments m) = Some a1 ->
  JsMap.get a1 (agentTickets m) = Some s1 ->
  JsSet.has ticketId s1 = true ->
  a2 <> a1 ->
  let m' := snd (assignTicket env ticketId a2 m) in
  fst (assignTicket env ticketId a2 m) = true
  /\ JsMap.get ticketId (ticketAssignments m') = Some a2
  /\ (exists t', JsMap.get ticketId (tickets m') = Some t'
                 /\ Ticket.assignedAgent t' = Some a2
                 /\ Ticket.status t' = "assigned")
  /\ (exists s2, JsMap.get a2 (agentTickets m') = Some s2
                 /\ JsSet.has ticketId s2 = true)
  /\ JsMap.get a1 (agentTickets m') = Some s1.
Proof.
  intros Ht Ha Hfwd Hs1 Hin Hne. unfold assignTicket. rewrite Ht, Ha. simpl.
  unfold JsMap.has.
  destruct (JsMap.get a2 (agentTickets m)) as [s2|] eqn:E2; simpl.
  - rewrite E2. simpl. rewrite !get_set_eq.
    split; [reflexivity|]. split; [reflexivity|].
    split; [eexists; split; [reflexivity|]; now simpl|].
    split.
    + eexists. split; [reflexivity|]. apply set_has_add. now left.
    + now rewrite get_set_ne.
  - rewrite get_set_eq. simpl. rewrite !get_set_eq.
    split; [reflexivity|]. split; [reflexivity|].
    split; [eexists; split; [reflexivity|]; now simpl|].
    split.
    + eexists. split; [reflexivity|]. apply set_has_add. now left.
    + now rewrite !get_set_ne.
Qed.

(** A ticket of agent A1 given to agent A2. *)
Lemma assignTicket_keeps_previous_slot_witness :
  let env := mkEnv 2000 (fun _ => "x") in
  let t :=
    Ticket.mk "T1" "c1" "c1" "assigned" "normal" (Some "A1") 1000 1000 []
              1000 1000 None None in
  let agent2 := Agent.mk "A2" "s2" "Bo" "General Support" "available" 5 5 in
  let m :=
    mkTM [("T1", t)] [] [("A2", agent2)] [("T1", "A1")] [("A1", ["T1"])]
         2%nat in
  let m' := snd (assignTicket env "T1" "A2" m) in
  JsMap.get "T1" (ticketAssignments m') = Some "A2"
  /\ JsMap.get "A1" (agentTickets m') = Some ["T1"]
  /\ JsMap.get "A2" (agentTickets m') = Some ["T1"].
Proof.
  intros env t agent2 m m'.
  destruct (assignTicket_keeps_previous_slot env m "T1" "A1" "A2" t agent2
              ["T1"] eq_refl eq_refl eq_refl eq_refl eq_refl)
    as (_ & Hfwd & _ & _ & Hold).
  - discriminate.
  - split; [exact Hfwd|]. split; [exact Hold|]. reflexivity.
Defined.

(** ** Closing *)

(** [closeTicket] on a known ticket whose agent, if any, has a non-empty
    id. *)
Lemma closeTicket_known (env : Env) (ticketId closedBy : string)
    (m : TicketManager) (t : Ticket.t) :
  JsMap.get ticketId (tickets m) = Some t ->
  Ticket.assignedAgent t <> Some "" ->
  let m' := snd (closeTicket env ticketId closedBy m) in
  fst (closeTicket env ticketId closedBy m) = true
  /\ (exists t', JsMap.get ticketId (tickets m') = Some t'
                 /\ Ticket.status t' = "closed"
                 /\ Ticket.closedAt t' = Some (now env)
                 /\ Ticket.closedBy t' = Some closedBy
                 /\ Ticket.assignedAgent t' = Ticket.assignedAgent t)
  /\ JsMap.get ticketId (ticketAssignments m') = None
  /\ (forall a s, Ticket.assignedAgent t = Some a ->
                  JsMap.get a (agentTickets m') = Some s ->
                  JsSet.has ticketId s = false).
Proof.
  intros Ht Hne. unfold closeTicket. rewrite Ht. simpl.
  split; [reflexivity|].
  destruct (Ticket.assignedAgent t) as [a|] eqn:Ea; simpl.
  - destruct (String.eqb_spec a "") as [->|Ha]; [congruence|]. simpl.
    destruct (JsMap.get a (agentTickets m)) as [s|] eqn:Es; simpl.
    + rewrite get_set_eq, get_delete_eq.
      split; [eexists; split; [reflexivity|]; now simpl|].
      split; [reflexivity|].
      intros a' s' [= <-]. rewrite get_set_eq. intros [= <-].
      destruct (JsSet.has ticketId (JsSet.delete ticketId s)) eqn:E;
        [|reflexivity].
      apply set_has_delete in E. tauto.
    + rewrite get_set_eq, get_delete_eq.
      split; [eexists; split; [reflexivity|]; now simpl|].
      split; [reflexivity|].
      intros a' s' [= <-]. congruence.
  - rewrite get_set_eq, get_delete_eq.
    split; [eexists; split; [reflexivity|]; now simpl|].
    split; [reflexivity|]. intros a s [=].
Qed.

Lemma closeTicket_unknown (env : Env) (ticketId closedBy : string)
    (m : TicketManager) :
  JsMap.get ticketId (tickets m) = None ->
  closeTicket env ticketId closedBy m = (false, m).
Proof. unfold closeTicket. now intros ->. Qed.

(** ** Agent events on a ticket of somebody else *)

(** C8, as stated, fails in two ways.  Agent A2 asks to close the ticket
    of A1; the ticket exists and is not assigned to A2, and the handler
    of [update_ticket_status] sends nothing at all, so no error event.
    And the handlers compare the [assignedAgent] field of the ticket
    with the agent of the socket, not the assignment index: the ticket
    that A1 has closed is in neither map of the index, yet it still
    names A1, so [send_message] of A1 appends a message to it and
    [update_ticket_status] of A1 sets it back to open, with no error
    event. *)
Lemma unassigned_ticket_events_diverge :
  (let s := twoAgentsOneTicket in
   let e := agent_update_ticket_status "s2" "TICKET-6-1" "closed" in
   (exists t, JsMap.get "TICKET-6-1" (tickets (ticketManager s)) = Some t
              /\ Ticket.assignedAgent t = Some "A1"
              /\ JsMap.get "s2" (agentIdOf s) = Some "A2")
   /\ ~ (exists text,
           In (to_agent "s2" (error text)) (snd (step (sampleEnv 7) e s))))
  /\
  (let s := ticketClosedByAgent in
   let m := ticketManager s in
   let sent := step (sampleEnv 8)
                 (agent_send_message "s1" "TICKET-6-1" "hi") s in
   let updated := step (sampleEnv 8)
                    (agent_update_ticket_status "s1" "TICKET-6-1" "open") s in
   JsMap.get "s1" (agentIdOf s) = Some "A1"
   /\ JsMap.get "TICKET-6-1" (ticketAssignments m) = None
   /\ JsMap.get "A1" (agentTickets m) = Some []
   /\ (exists t, JsMap.get "TICKET-6-1" (tickets m) = Some t
                  /\ Ticket.status t = "closed"
                  /\ Ticket.assignedAgent t = Some "A1"
                  /\ length (Ticket.messages t) = 1%nat)
   /\ (exists t', JsMap.get "TICKET-6-1" (tickets (ticketManager (fst sent)))
                   = Some t'
                   /\ length (Ticket.messages t') = 2%nat)
   /\ ~ (exists text, In (to_agent "s1" (error text)) (snd sent))
   /\ (exists t', JsMap.get "TICKET-6-1"
                     (tickets (ticketManager (fst updated))) = Some t'
                   /\ Ticket.status t' = "open")
   /\ ~ (exists text, In (to_agent "s1" (error text)) (snd updated))).
Proof.
  split.
  - split.
    + eexists. vm_compute. repeat split.
    + vm_compute. intros (text & []).
  - vm_compute. repeat split.
    + eexists. repeat split.
    + eexists. repeat split.
    + intros (text & [H|[H|[]]]); discriminate H.
    + eexists. repeat split.
    + intros (text & [H|[]]); discriminate H.
Qed.

(** C8, amended: an agent event that names an existing ticket whose
    [assignedAgent] field is not the agent id of the socket changes
    nothing in the server state, whichever of the four events it is.
    [send_message] answers the socket with one [error] event;
    [update_ticket_status], [typing] and [get_ticket_details] send
    nothing.  The field, not the assignment index, is what the handlers
    test. *)
Theorem foreign_ticket_no_mutation (env : Env) (s : Server)
    (socket ticketId : string) (t : Ticket.t) :
  JsMap.get ticketId (tickets (ticketManager s)) = Some t ->
  sameAgent (Ticket.assignedAgent t) (JsMap.get socket (agentIdOf s)) = false ->
  (forall message, exists text,
      step env (agent_send_message socket ticketId message) s
      = (s, [to_agent socket (error text)]))
  /\ (forall status,
      step env (agent_update_ticket_status socket ticketId status) s = (s, []))
  /\ (forall isTyping,
      step env (agent_typing socket ticketId isTyping) s = (s, []))
  /\ step env (agent_get_ticket_details socket ticketId) s = (s, []).
Proof.
  intros Ht Hno. simpl.
  unfold onSendMessage, onUpdateTicketStatus, onAgentTyping, onGetTicketDetails.
  rewrite Ht, Hno. repeat split.
  - intros message.
    destruct (JsMap.get socket (agentIdOf s)) as [agent|];
      [|eexists; reflexivity].
    destruct (truthy (Some agent)); simpl; eexists; reflexivity.
  - intros status. now destruct (JsMap.get socket (agentIdOf s)).
Qed.

(** Agent A2 acting on the ticket of agent A1. *)
Lemma foreign_ticket_no_mutation_witness :
  let s := twoAgentsOneTicket in
  (exists text,
     step (sampleEnv 7) (agent_send_message "s2" "TICKET-6-1" "hi") s
     = (s, [to_agent "s2" (error text)]))
  /\ step (sampleEnv 7) (agent_update_ticket_status "s2" "TICKET-6-1" "closed") s
     = (s, []).
Proof.
  intros s.
  assert (Ht : exists t,
             JsMap.get "TICKET-6-1" (tickets (ticketManager s)) = Some t
             /\ sameAgent (Ticket.assignedAgent t)
                          (JsMap.get "s2" (agentIdOf s)) = false).
  { eexists. vm_compute. split; reflexivity. }
  destruct Ht as (t & Ht & Hno).
  destruct (foreign_ticket_no_mutation (sampleEnv 7) s "s2" "TICKET-6-1" t
              Ht Hno) as (Hsend & Hupd & _).
  split; [apply Hsend | apply Hupd].
Defined.

(** ** The list endpoint *)

Lemma js_slice0_length {A} (n : Z) (l : list A) :
  0 <= n -> n <= Z.of_nat (length l) ->
  Z.of_nat (length (js_slice0 (Some n) l)) = n.
Proof.
  intros H0 Hn. unfold js_slice0.
  destruct (Z.ltb_spec n 0); [lia|].
  rewrite length_firstn. lia.
Qed.

(** C10, as stated, fails for a negative limit: with [limit=-1] and two
    matching tickets, more than [limit] tickets match, and the total is
    1, the length of the array without its last element. *)
Lemma listTickets_negative_limit :
  let m := twoOpenTickets in
  -1 < Z.of_nat (length (matchingTickets None None m))
  /\ snd (listTickets None None (limit_int (-1)) m) = 1%nat
  /\ Z.of_nat (snd (listTickets None None (limit_int (-1)) m)) <> -1.
Proof. vm_compute. repeat split; discriminate. Qed.

(** C10, amended: [total] is the length of the returned page, not the
    number of tickets that match the filters; whenever the limit is a
    non-negative integer and more than [limit] tickets match, [total]
    equals [limit]. *)
Theorem listTickets_total_is_page_length (status agentId : option string)
    (limit : QueryLimit) (m : TicketManager) :
  snd (listTickets status agentId limit m)
  = length (fst (listTickets status agentId limit m))
  /\ forall n, parsedLimit limit = Some n -> 0 <= n ->
               n < Z.of_nat (length (matchingTickets status agentId m)) ->
               Z.of_nat (snd (listTickets status agentId limit m)) = n.
Proof.
  split; [reflexivity|].
  intros n Hl H0 Hn. unfold listTickets. simpl. rewrite Hl, length_map.
  apply js_slice0_length; [assumption|]. rewrite js_sort_length. lia.
Qed.

(** Two tickets match and the limit is 1. *)
Lemma listTickets_total_is_page_length_witness :
  Z.of_nat (snd (listTickets None None (limit_int 1) twoOpenTickets)) = 1.
Proof.
  apply (listTickets_total_is_page_length None None (limit_int 1)
           twoOpenTickets).
  - reflexivity.
  - lia.
  - vm_compute. reflexivity.
Defined.

(** ** First message of a customer *)

(** The first message of a customer that has no open or assigned ticket,
    when no agent is available: the customer is told that no agent is
    available, and the new ticket is open and unassigned.  It holds the
    message, unless the message is the empty text: [createTicket] pushes
    its initial message only when it is truthy. *)
Lemma first_message_without_agent (env : Env) (s : Server)
    (socket message : string) (callback : bool) :
  getTicketByCustomer socket (ticketManager s) = None ->
  (forall b, In b (JsMap.values (agentSockets (ticketManager s))) ->
             Agent.status b <> "available") ->
  let s' := fst (step env (customer_chat_message socket message callback) s) in
  let outs := snd (step env (customer_chat_message socket message callback) s) in
  let ticketId := generateTicketId env (ticketCounter (ticketManager s)) in
  In (to_customer socket
        (chat_response busyText (now env) (generateMessageId env 2) "system"
                       "no_agents_available")) outs
  /\ exists t,
       JsMap.get ticketId (tickets (ticketManager s')) = Some t
       /\ Ticket.status t = "open"
       /\ Ticket.assignedAgent t = None
       /\ Ticket.customerSocketId t = socket
       /\ Ticket.messages t
          = if String.eqb message "" then []
            else [Message.mk (generateMessageId env 0) message "customer" None
                             (now env) false].
Proof.
  intros Hnew Hnone. simpl. unfold onChatMessage.
  set (m1 := match JsMap.get socket (customerSockets (ticketManager s)) with
             | Some info => _
             | None => _
             end).
  assert (Hm1 : getTicketByCustomer socket m1 = None
                /\ agentSockets m1 = agentSockets (ticketManager s)
                /\ ticketCounter m1 = ticketCounter (ticketManager s)).
  { subst m1. destruct (JsMap.get socket _); repeat split; assumption. }
  destruct Hm1 as (Hnew1 & Hag & Hcnt). rewrite Hnew1.
  unfold createTicket, routeChatMessage. rewrite Hcnt. simpl.
  rewrite get_set_eq. simpl.
  rewrite getAvailableAgent_none by (simpl; now rewrite Hag).
  simpl. split.
  - apply in_or_app. right. now left.
  - rewrite get_set_eq. eexists. split; [reflexivity|]. simpl.
    repeat split. now destruct (String.eqb message "").
Qed.

(** C9, at the input on which the code departs from it: with no agent
    registered, a customer whose first message is the empty text gets
    the answer of type [no_agents_available], whose text says that the
    message has been recorded, and the new ticket is open and unassigned
    but holds no message at all. *)
Theorem first_empty_message_not_recorded :
  let s := run [(sampleEnv 1, customer_connection "c1")] initial in
  let r := step (sampleEnv 2) (customer_chat_message "c1" "" true) s in
  getTicketByCustomer "c1" (ticketManager s) = None
  /\ In (to_customer "c1"
           (chat_response busyText 2 (generateMessageId (sampleEnv 2) 2)
                          "system" "no_agents_available")) (snd r)
  /\ exists t,
       JsMap.get "TICKET-2-1" (tickets (ticketManager (fst r))) = Some t
       /\ Ticket.status t = "open"
       /\ Ticket.assignedAgent t = None
       /\ length (Ticket.messages t) = 0%nat.
Proof.
  intros s r. split; [reflexivity|].
  destruct (first_message_without_agent (sampleEnv 2) s "c1" "" true)
    as (Hout & t & Ht & Hst & Hag & _ & Hmsgs).
  - reflexivity.
  - intros b [].
  - assert (Eid : generateTicketId (sampleEnv 2)
                    (ticketCounter (ticketManager s)) = "TICKET-2-1")
      by (vm_compute; reflexivity).
    rewrite Eid in Ht.
    split; [exact Hout|]. exists t. repeat split; try assumption.
    now rewrite Hmsgs.
Qed.

(** ** Disconnection of an agent *)

Lemma getAgentTickets_ext agentId (m m' : TicketManager) :
  tickets m' = tickets m -> agentTickets m' = agentTickets m ->
  getAgentTickets agentId m' = getAgentTickets agentId m.
Proof. unfold getAgentTickets. now intros -> ->. Qed.

Lemma isActive_includes t :
  includes ["assigned"; "open"] (Ticket.status t) = isActive t.
Proof.
  unfold isActive, includes. simpl.
  destruct (String.eqb (Ticket.status t) "assigned"),
           (String.eqb (Ticket.status t) "open"); reflexivity.
Qed.

(** Every open or assigned ticket of the set of an agent is in the list
    [getAgentTickets] returns. *)
Lemma getAgentTickets_complete agentId (m : TicketManager) ticketId s t :
  JsMap.get agentId (agentTickets m) = Some s ->
  In ticketId s ->
  JsMap.get ticketId (tickets m) = Some t ->
  isActive t = true ->
  In (getTicketSummary t) (getAgentTickets agentId m).
Proof.
  intros Hs Hin Ht Hact. unfold getAgentTickets. rewrite Hs.
  apply js_sort_In. apply in_flat_map. exists ticketId.
  split; [assumption|]. rewrite Ht, isActive_includes, Hact. now left.
Qed.

Lemma delete_set_eq {V} k (v : V) (m : JsMap.t V) :
  JsMap.delete k (JsMap.set k v m) = JsMap.delete k m.
Proof.
  induction m as [|[k' v'] m IH]; simpl.
  - now rewrite String.eqb_refl.
  - destruct (String.eqb k k') eqn:E; simpl.
    + now rewrite String.eqb_refl.
    + now rewrite E, IH.
Qed.

(** C7, as stated, fails: after the socket of agent A1 has disconnected,
    no status is recorded for A1.  The handler sets the status of the
    entry to offline and then deletes the entry itself from
    [agentSockets]: the agent is no longer among the agents, no entry
    has the status offline, and the number of agents that [getStats]
    reports goes from 2 to 1. *)
Lemma disconnect_drops_agent_entry :
  let s := twoAgentsOneTicket in
  let s' := fst (step (sampleEnv 7) (agent_disconnect "s1") s) in
  (exists info, JsMap.get "A1" (agentSockets (ticketManager s)) = Some info
                /\ Agent.status info = "available")
  /\ JsMap.get "A1" (agentSockets (ticketManager s')) = None
  /\ (forall info, In info (JsMap.values (agentSockets (ticketManager s'))) ->
                   Agent.status info <> "offline")
  /\ Stats.totalAgents (getStats (ticketManager s)) = 2%nat
  /\ Stats.totalAgents (getStats (ticketManager s')) = 1%nat.
Proof.
  vm_compute. split; [eexists; split; reflexivity|].
  split; [reflexivity|]. split; [|split; reflexivity].
  intros info [<-|[]]. discriminate.
Qed.

(** C7, amended: when the socket of an authenticated agent disconnects,
    the entry of the agent is given the status offline and the change is
    broadcast; the entry, which holds the reference to the live socket,
    is then removed from [agentSockets] altogether, so that the agents
    left are those of before without this one and no status is recorded
    for it; [tickets], [ticketAssignments] and [agentTickets] are left
    as they were.  When the same agent id then authenticates again, on
    any socket, the [auth_success] payload carries [getAgentTickets] of
    that id, which holds the summary of every open or assigned ticket
    that was in the set of the agent before the disconnect. *)
Theorem agent_disconnect_keeps_assignments (env : Env) (s : Server)
    (socket agent : string) :
  JsMap.get socket (agentIdOf s) = Some agent ->
  agent <> "" ->
  let m := ticketManager s in
  let s' := fst (step env (agent_disconnect socket) s) in
  let m' := ticketManager s' in
  (forall info, JsMap.get agent (agentSockets m) = Some info ->
     JsMap.get agent (agentSockets (fst (markOffline socket agent m)))
     = Some (Agent.with_status "offline" info)
     /\ snd (step env (agent_disconnect socket) s)
        = [broadcast_from socket
             (agent_status_change agent (Agent.name info) "offline")])
  /\ agentSockets m' = JsMap.delete agent (agentSockets m)
  /\ JsMap.get agent (agentSockets m') = None
  /\ JsMap.get socket (agentIdOf s') = None
  /\ tickets m' = tickets m
  /\ ticketAssignments m' = ticketAssignments m
  /\ agentTickets m' = agentTickets m
  /\ forall env2 socket2 agentName department,
       agentName <> "" ->
       exists list stats,
         snd (step env2 (agent_authenticate socket2 agent agentName department)
                   s')
         = [to_agent socket2
              (auth_success agent agentName department list stats);
            broadcast_from socket2
              (agent_status_change agent agentName "available")]
         /\ list = getAgentTickets agent m
         /\ forall ticketId set t,
              JsMap.get agent (agentTickets m) = Some set ->
              In ticketId set ->
              JsMap.get ticketId (tickets m) = Some t ->
              isActive t = true ->
              In (getTicketSummary t) list.
Proof.
  intros Hsock Hne m s' m'.
  assert (Htr : truthy (Some agent) = true).
  { simpl. now destruct (String.eqb_spec agent ""). }
  assert (Hs' : s' = mkServer
                  (with_agentSockets
                     (JsMap.delete agent
                        (agentSockets (fst (markOffline socket agent m))))
                     (fst (markOffline socket agent m)))
                  (JsMap.delete socket (agentIdOf s))
                /\ snd (step env (agent_disconnect socket) s)
                   = snd (markOffline socket agent m)).
  { subst s'. simpl. unfold onAgentDisconnect. rewrite Hsock, Htr.
    fold m. now destruct (markOffline socket agent m). }
  destruct Hs' as [Hs' Houts].
  assert (Hm : tickets (fst (markOffline socket agent m)) = tickets m
               /\ ticketAssignments (fst (markOffline socket agent m))
                  = ticketAssignments m
               /\ agentTickets (fst (markOffline socket agent m))
                  = agentTickets m
               /\ JsMap.delete agent
                    (agentSockets (fst (markOffline socket agent m)))
                  = JsMap.delete agent (agentSockets m)).
  { unfold markOffline. destruct (JsMap.get agent (agentSockets m));
      repeat split. simpl. apply delete_set_eq. }
  destruct Hm as (Hmt & Hma & Hmg & Hmd).
  split.
  { intros info Hinfo. rewrite Houts. unfold markOffline. rewrite Hinfo.
    simpl. now rewrite get_set_eq. }
  subst m'. rewrite Hs'. simpl.
  split; [exact Hmd|].
  split; [apply get_delete_eq|]. split; [apply get_delete_eq|].
  split; [assumption|]. split; [assumption|]. split; [assumption|].
  intros env2 socket2 agentName department Hname.
  unfold onAuthenticate. rewrite Htr.
  assert (Htn : truthy (Some agentName) = true).
  { simpl. now destruct (String.eqb_spec agentName ""). }
  rewrite Htn. simpl. eexists. eexists. split; [reflexivity|].
  assert (Hext : forall v m0, getAgentTickets agent (with_agentSockets v m0)
                              = getAgentTickets agent m0) by reflexivity.
  rewrite !Hext.
  rewrite (getAgentTickets_ext agent m _ Hmt Hmg).
  split; [reflexivity|].
  intros ticketId set t. apply getAgentTickets_complete.
Qed.

(** Agent A1 disconnects and authenticates again on a new socket: its
    ticket is in the payload. *)
Lemma agent_disconnect_keeps_assignments_witness :
  let s := twoAgentsOneTicket in
  let s' := fst (step (sampleEnv 7) (agent_disconnect "s1") s) in
  JsMap.get "A1" (agentSockets (ticketManager s')) = None
  /\ agentTickets (ticketManager s') = [("A1", ["TICKET-6-1"])]
  /\ exists list stats,
       snd (step (sampleEnv 9) (agent_authenticate "s3" "A1" "Ann" None) s')
       = [to_agent "s3" (auth_success "A1" "Ann" None list stats);
          broadcast_from "s3" (agent_status_change "A1" "Ann" "available")]
       /\ length list = 1%nat.
Proof.
  intros s s'.
  destruct (agent_disconnect_keeps_assignments (sampleEnv 7) s "s1" "A1")
    as (_ & _ & Hgone & _ & _ & _ & Hsets & Hre).
  - reflexivity.
  - discriminate.
  - split; [exact Hgone|]. split; [exact Hsets|].
    destruct (Hre (sampleEnv 9) "s3" "Ann" None) as (l & st & E & Hl & _).
    + discriminate.
    + exists l, st. split; [exact E|]. rewrite Hl. reflexivity.
Defined.

(** ** Ticket ids *)

Lemma append_cons c (p s : string) : String c p ++ s = String c (p ++ s).
Proof. reflexivity. Qed.

Lemma append_assoc (a b c : string) : (a ++ b) ++ c = a ++ (b ++ c).
Proof.
  induction a as [|x a IH]; [reflexivity|].
  now rewrite !append_cons, IH.
Qed.

Lemma hasDash_append_dash (p d : string) : hasDash (p ++ String "-" d) = true.
Proof.
  induction p as [|c p IH]; [reflexivity|].
  rewrite append_cons. simpl. rewrite IH. apply orb_true_r.
Qed.

Lemma lastSegment_append (p d : string) :
  hasDash d = false -> lastSegment (p ++ String "-" d) = d.
Proof.
  intros Hd. induction p as [|c p IH].
  - change ("" ++ String "-" d) with (String "-" d). simpl. now rewrite Hd.
  - rewrite append_cons. simpl. now rewrite hasDash_append_dash.
Qed.

Lemma hasDash_pretty_N_go (x : N) (s : string) :
  hasDash (pretty_N_go x s) = hasDash s.
Proof.
  revert s. induction (N.lt_wf_0 x) as [x _ IH]. intros s.
  destruct (N.eq_dec x 0%N) as [->|Hx]; [now rewrite pretty_N_go_0|].
  rewrite pretty_N_go_step by lia.
  rewrite IH by (apply N.div_lt; lia).
  simpl. unfold pretty_N_char. now repeat case_match.
Qed.

Lemma hasDash_pretty_nat (c : nat) : hasDash (pretty c) = false.
Proof.
  unfold pretty, pretty_nat, pretty, pretty_N.
  case_decide; [reflexivity|]. apply hasDash_pretty_N_go.
Qed.

(** The counter of a generated id can be read back from it. *)
Lemma generateTicketId_counter (env env' : Env) (c c' : nat) :
  generateTicketId env c = generateTicketId env' c' -> c = c'.
Proof.
  unfold generateTicketId. intros E.
  assert (H : forall (e : Env) (n : nat),
             lastSegment ("TICKET-" ++ pretty (now e) ++ "-" ++ pretty n)
             = pretty n).
  { intros e n. rewrite <- (append_assoc "TICKET-" (pretty (now e))).
    change ("-" ++ pretty n) with (String "-" (pretty n)).
    apply lastSegment_append, hasDash_pretty_nat. }
  apply (f_equal lastSegment) in E. rewrite !H in E.
  now apply (inj pretty) in E.
Qed.

(** ** Preservation of the invariants by the methods *)

Lemma values_set_In {V} k (v x : V) (m : JsMap.t V) :
  In x (JsMap.values (JsMap.set k v m)) -> x = v \/ In x (JsMap.values m).
Proof.
  induction m as [|[k' v'] m IH]; simpl.
  - intros [<-|[]]. now left.
  - destruct (String.eqb k k'); simpl.
    + intros [<-|H]; [now left|right; now right].
    + intros [<-|H]; [right; now left|]. destruct (IH H); [now left|].
      right. now right.
Qed.

Lemma values_delete_In {V} k (x : V) (m : JsMap.t V) :
  In x (JsMap.values (JsMap.delete k m)) -> In x (JsMap.values m).
Proof.
  induction m as [|[k' v'] m IH]; simpl; [tauto|].
  destruct (String.eqb k k'); simpl.
  - intros H. right. now apply IH.
  - intros [<-|H]; [now left|]. right. now apply IH.
Qed.

Lemma In_get_some {V} k (v : V) (m : JsMap.t V) :
  In (k, v) m -> exists v', JsMap.get k m = Some v'.
Proof.
  induction m as [|[k' v'] m IH]; simpl; [tauto|].
  intros [[= -> ->]|H].
  - rewrite String.eqb_refl. now eexists.
  - destruct (String.eqb k k'); [now eexists|now apply IH].
Qed.

Ltac split_consistent :=
  split; [|split; [|split; [|split]]];
  unfold ticketsOk, idIsKey, indexOk, freshIds, agentsOk; simpl.

(** A stored ticket replaced by one with the same id and agent. *)
Lemma consistent_updateTicket (m : TicketManager) k t t' :
  consistent m ->
  JsMap.get k (tickets m) = Some t ->
  Ticket.id t' = Ticket.id t ->
  Ticket.assignedAgent t' = Ticket.assignedAgent t ->
  (Ticket.status t' = "assigned" -> Ticket.assignedAgent t' <> None) ->
  consistent (with_tickets (JsMap.set k t' (tickets m)) m).
Proof.
  intros (Hok & Hid & Hix & Hfr & Hag) Hk Eid Eag Hst.
  split_consistent.
  - intros k0 t0. rewrite get_set.
    destruct (String.eqb_spec k k0) as [->|Hne].
    + intros [= <-]. split; [assumption|].
      rewrite Eag. now apply (Hok k0 t).
    + apply Hok.
  - intros k0 t0. rewrite get_set.
    destruct (String.eqb_spec k k0) as [->|Hne].
    + intros [= <-]. rewrite Eid. now apply Hid.
    + apply Hid.
  - intros k0 a Ha. destruct (Hix k0 a Ha) as (t0 & s & Ht0 & Hag0 & Hs & Hin).
    destruct (String.eqb_spec k k0) as [->|Hne].
    + exists t', s. simpl. rewrite get_set_eq. repeat split; try assumption.
      rewrite Eag. congruence.
    + exists t0, s. simpl. rewrite get_set_ne by assumption. now repeat split.
  - intros k0 t0. simpl. rewrite get_set.
    destruct (String.eqb_spec k k0) as [->|Hne].
    + intros _. now apply (Hfr k0 t).
    + apply Hfr.
  - assumption.
Qed.

Lemma consistent_createTicket env customerId customerSocketId initialMessage
    (m : TicketManager) :
  consistent m ->
  consistent
    (snd (createTicket env customerId customerSocketId initialMessage m)).
Proof.
  intros (Hok & Hid & Hix & Hfr & Hag). unfold createTicket. simpl.
  set (ticketId := generateTicketId env (ticketCounter m)).
  set (ticket := Ticket.mk ticketId _ _ _ _ _ _ _ _ _ _ _ _).
  assert (Hnew : forall k t, JsMap.get k (tickets m) = Some t -> ticketId <> k).
  { intros k t Hk E. destruct (Hfr k t Hk) as (env' & c & -> & Hc).
    apply generateTicketId_counter in E. lia. }
  split_consistent.
  - intros k t. simpl. rewrite get_set.
    destruct (String.eqb_spec ticketId k) as [->|Hne].
    + intros [= <-]. split; simpl; discriminate.
    + apply Hok.
  - intros k t. simpl. rewrite get_set.
    destruct (String.eqb_spec ticketId k) as [->|Hne].
    + now intros [= <-].
    + apply Hid.
  - intros k a Ha. destruct (Hix k a Ha) as (t0 & s & Ht0 & Hag0 & Hs & Hin).
    exists t0, s. simpl. rewrite get_set_ne by now apply (Hnew k t0).
    now repeat split.
  - intros k t. simpl. rewrite get_set.
    destruct (String.eqb_spec ticketId k) as [<-|Hne].
    + intros _. exists env, (ticketCounter m). split; [reflexivity|lia].
    + intros Hk. destruct (Hfr k t Hk) as (env' & c & -> & Hc).
      exists env', c. split; [reflexivity|lia].
  - assumption.
Qed.

Lemma consistent_addMessage env ticketId content sender senderId
    (m : TicketManager) :
  consistent m ->
  consistent (snd (addMessage env ticketId content sender senderId m)).
Proof.
  intros H. unfold addMessage.
  destruct (JsMap.get ticketId (tickets m)) as [t|] eqn:Et; [|assumption].
  simpl. apply (consistent_updateTicket m ticketId t); try easy.
  simpl. destruct H as (Hok & _). apply (Hok ticketId t Et).
Qed.

(** The state after an assignment, with the sets of the agents left
    abstract. *)
Lemma consistent_assigned (m : TicketManager) ticketId agentId t t' sets :
  consistent m ->
  JsMap.get ticketId (tickets m) = Some t ->
  agentId <> "" ->
  Ticket.id t' = Ticket.id t ->
  Ticket.assignedAgent t' = Some agentId ->
  (exists s, JsMap.get agentId sets = Some s /\ JsSet.has ticketId s = true) ->
  (forall a s k, JsMap.get a (agentTickets m) = Some s ->
                 JsSet.has k s = true ->
                 exists s', JsMap.get a sets = Some s'
                            /\ JsSet.has k s' = true) ->
  consistent
    (mkTM (JsMap.set ticketId t' (tickets m)) (customerSockets m)
          (agentSockets m)
          (JsMap.set ticketId agentId (ticketAssignments m)) sets
          (ticketCounter m)).
Proof.
  intros (Hok & Hid & Hix & Hfr & Hag) Ht Hne Eid Eag Hnew Hold.
  split_consistent.
  - intros k0 t0. rewrite get_set.
    destruct (String.eqb_spec ticketId k0) as [->|Hk].
    + intros [= <-]. unfold ticketOk. rewrite Eag. split; congruence.
    + apply Hok.
  - intros k0 t0. rewrite get_set.
    destruct (String.eqb_spec ticketId k0) as [->|Hk].
    + intros [= <-]. rewrite Eid. now apply Hid.
    + apply Hid.
  - intros k0 a. rewrite !get_set.
    destruct (String.eqb_spec ticketId k0) as [->|Hk].
    + intros [= <-]. destruct Hnew as (s & Hs & Hin).
      exists t', s. now repeat split.
    + intros Ha. destruct (Hix k0 a Ha) as (t0 & s & Ht0 & Hag0 & Hs & Hin).
      destruct (Hold a s k0 Hs Hin) as (s' & Hs' & Hin').
      exists t0, s'. now repeat split.
  - intros k0 t0. rewrite get_set.
    destruct (String.eqb_spec ticketId k0) as [->|Hk].
    + intros _. now apply (Hfr k0 t).
    + apply Hfr.
  - assumption.
Qed.

Lemma consistent_assignTicket env ticketId agentId (m : TicketManager) :
  consistent m -> agentId <> "" ->
  consistent (snd (assignTicket env ticketId agentId m)).
Proof.
  intros H Hne. unfold assignTicket.
  destruct (JsMap.get ticketId (tickets m)) as [t|] eqn:Et; [|assumption].
  destruct (JsMap.get agentId (agentSockets m)) as [ag|]; [|assumption].
  simpl. unfold JsMap.has. simpl.
  destruct (JsMap.get agentId (agentTickets m)) as [s0|] eqn:Es; simpl.
  - rewrite Es. simpl.
    apply (consistent_assigned m ticketId agentId t); try easy.
    + exists (JsSet.add ticketId s0). rewrite get_set_eq.
      split; [reflexivity|]. apply set_has_add. now left.
    + intros a s k Hs Hin. rewrite get_set.
      destruct (String.eqb_spec agentId a) as [->|Ha].
      * eexists. split; [reflexivity|]. apply set_has_add. right. congruence.
      * now exists s.
  - rewrite get_set_eq. simpl.
    apply (consistent_assigned m ticketId agentId t); try easy.
    + exists (JsSet.add ticketId JsSet.empty). rewrite get_set_eq.
      split; [reflexivity|]. apply set_has_add. now left.
    + intros a s k Hs Hin. rewrite !get_set.
      destruct (String.eqb_spec agentId a) as [->|Ha]; [congruence|].
      now exists s.
Qed.

(** The state after a close, with the sets of the agents left abstract. *)
Lemma consistent_closed (m : TicketManager) ticketId t t' sets :
  consistent m ->
  JsMap.get ticketId (tickets m) = Some t ->
  Ticket.id t' = Ticket.id t ->
  Ticket.assignedAgent t' = Ticket.assignedAgent t ->
  Ticket.status t' = "closed" ->
  (forall a s k, k <> ticketId ->
                 JsMap.get a (agentTickets m) = Some s ->
                 JsSet.has k s = true ->
                 exists s', JsMap.get a sets = Some s'
                            /\ JsSet.has k s' = true) ->
  consistent
    (mkTM (JsMap.set ticketId t' (tickets m)) (customerSockets m)
          (agentSockets m)
          (JsMap.delete ticketId (ticketAssignments m)) sets
          (ticketCounter m)).
Proof.
  intros (Hok & Hid & Hix & Hfr & Hag) Ht Eid Eag Est Hold.
  split_consistent.
  - intros k0 t0. rewrite get_set.
    destruct (String.eqb_spec ticketId k0) as [->|Hk].
    + intros [= <-]. unfold ticketOk. rewrite Eag, Est.
      split; [discriminate|]. now apply (Hok k0 t).
    + apply Hok.
  - intros k0 t0. rewrite get_set.
    destruct (String.eqb_spec ticketId k0) as [->|Hk].
    + intros [= <-]. rewrite Eid. now apply Hid.
    + apply Hid.
  - intros k0 a.
    destruct (String.eqb_spec ticketId k0) as [->|Hk].
    + now rewrite get_delete_eq.
    + rewrite get_delete_ne, get_set_ne by assumption.
      intros Ha. destruct (Hix k0 a Ha) as (t0 & s & Ht0 & Hag0 & Hs & Hin).
      destruct (Hold a s k0 (not_eq_sym Hk) Hs Hin) as (s' & Hs' & Hin').
      exists t0, s'. now repeat split.
  - intros k0 t0. rewrite get_set.
    destruct (String.eqb_spec ticketId k0) as [->|Hk].
    + intros _. now apply (Hfr k0 t).
    + apply Hfr.
  - assumption.
Qed.

Lemma consistent_closeTicket env ticketId closedBy (m : TicketManager) :
  consistent m ->
  consistent (snd (closeTicket env ticketId closedBy m)).
Proof.
  intros H. unfold closeTicket.
  destruct (JsMap.get ticketId (tickets m)) as [t|] eqn:Et; [|assumption].
  simpl.
  assert (Hsame : forall a s k, k <> ticketId ->
            JsMap.get a (agentTickets m) = Some s -> JsSet.has k s = true ->
            exists s', JsMap.get a (agentTickets m) = Some s'
                       /\ JsSet.has k s' = true).
  { intros a s k _ Hs Hin. now exists s. }
  destruct (Ticket.assignedAgent t) as [agent|] eqn:Ea; simpl.
  2:{ now apply (consistent_closed m ticketId t). }
  destruct (negb (agent =? "")%string); simpl.
  2:{ now apply (consistent_closed m ticketId t). }
  destruct (JsMap.get agent (agentTickets m)) as [s1|] eqn:Es; simpl.
  2:{ now apply (consistent_closed m ticketId t). }
  apply (consistent_closed m ticketId t); try easy.
  intros a s k Hk Hs Hin. simpl. rewrite get_set.
  destruct (String.eqb_spec agent a) as [->|Hne].
  - eexists. split; [reflexivity|]. apply set_has_delete. split; congruence.
  - now exists s.
Qed.

Lemma consistent_agentSockets (m : TicketManager) v :
  consistent m ->
  (forall info, In info (JsMap.values v) -> Agent.id info <> "") ->
  consistent (with_agentSockets v m).
Proof.
  intros (Hok & Hid & Hix & Hfr & Hag) Hv. now split_consistent.
Qed.

Lemma get_In_values {V} k (v : V) (m : JsMap.t V) :
  JsMap.get k m = Some v -> In v (JsMap.values m).
Proof.
  intros H. apply get_In in H. unfold JsMap.values.
  now apply (in_map snd) in H.
Qed.

(** An entry of [agentSockets] replaced by one with the same id. *)
Lemma consistent_updateAgent (m : TicketManager) k info info' :
  consistent m ->
  JsMap.get k (agentSockets m) = Some info ->
  Agent.id info' = Agent.id info ->
  consistent
    (with_agentSockets (JsMap.set k info' (agentSockets m)) m).
Proof.
  intros H Hk Eid. apply consistent_agentSockets; [assumption|].
  destruct H as (_ & _ & _ & _ & Hag).
  intros x Hx. apply values_set_In in Hx as [->|Hx].
  - rewrite Eid. apply Hag. now apply (get_In_values k).
  - now apply Hag.
Qed.

(** ** Preservation of the invariants by the handlers *)

Lemma routeChatMessage_consistent env socket message callback agentIds key
    found (m2 : TicketManager) :
  consistent m2 ->
  consistent
    (ticketManager
       (fst (routeChatMessage env socket message callback agentIds key found
                              m2))).
Proof.
  intros H2. unfold routeChatMessage.
  set (ticket := default found _). clearbody ticket. cbv zeta.
  destruct (String.eqb (Ticket.status ticket) "open").
  - destruct (getAvailableAgent m2) as [ag|] eqn:Eav; simpl.
    + apply consistent_assignTicket; [assumption|].
      destruct H2 as (_ & _ & _ & _ & Hag).
      now apply Hag, getAvailableAgent_some.
    + assumption.
  - destruct (_ && _); [|assumption].
    destruct (Ticket.assignedAgent ticket); [|assumption].
    now destruct (JsMap.get _ _).
Qed.

Lemma onChatMessage_consistent env socket message callback (s : Server) :
  consistent (ticketManager s) ->
  consistent
    (ticketManager (fst (onChatMessage env socket message callback s))).
Proof.
  intros H. unfold onChatMessage.
  set (m1 := match JsMap.get socket (customerSockets (ticketManager s)) with
             | Some info => _
             | None => _
             end).
  assert (H1 : consistent m1).
  { subst m1. destruct (JsMap.get socket _); exact H. }
  clearbody m1.
  destruct (getTicketByCustomer socket m1) as [[k t]|].
  - apply routeChatMessage_consistent. now apply consistent_addMessage.
  - pose proof (consistent_createTicket env socket socket (Some message) m1 H1)
      as Hc.
    destruct (createTicket env socket socket (Some message) m1) as [t m'].
    apply routeChatMessage_consistent. exact Hc.
Qed.

Lemma onUpdateTicketStatus_consistent env socket ticketId status (s : Server) :
  consistent (ticketManager s) ->
  consistent
    (ticketManager (fst (onUpdateTicketStatus env socket ticketId status s))).
Proof.
  intros H. unfold onUpdateTicketStatus.
  destruct (JsMap.get ticketId (tickets (ticketManager s))) as [t|] eqn:Et;
    [|assumption].
  destruct (JsMap.get socket (agentIdOf s)) as [agent|]; [|assumption].
  destruct (sameAgent (Ticket.assignedAgent t) (Some agent)) eqn:Es;
    [|assumption].
  assert (H1 : consistent
                 (with_tickets
                    (JsMap.set ticketId
                       (Ticket.with_updatedAt (now env)
                          (Ticket.with_status status t))
                       (tickets (ticketManager s)))
                    (ticketManager s))).
  { apply (consistent_updateTicket _ ticketId t); try easy.
    simpl. intros _. now destruct (Ticket.assignedAgent t). }
  destruct (String.eqb status "closed"); simpl; [|assumption].
  now apply consistent_closeTicket.
Qed.

Lemma step_consistent env e (s : Server) :
  consistent (ticketManager s) ->
  consistent (ticketManager (fst (step env e s))).
Proof.
  intros H. destruct e; simpl.
  - exact H.
  - now apply onChatMessage_consistent.
  - unfold onCustomerTyping.
    destruct (getTicketByCustomer _ _) as [[k t]|]; [|assumption].
    now destruct (agentSocketOf _ _).
  - exact H.
  - exact H.
  - unfold onAuthenticate, truthy.
    destruct (String.eqb_spec agentId "") as [->|Hid]; simpl; [assumption|].
    destruct (String.eqb agentName ""); simpl; [assumption|].
    apply consistent_agentSockets; [assumption|].
    destruct H as (_ & _ & _ & _ & Hag).
    intros x Hx. apply values_set_In in Hx as [->|Hx]; [|now apply Hag].
    exact Hid.
  - unfold onSendMessage.
    destruct (JsMap.get socket (agentIdOf s)) as [agent|]; [|assumption].
    destruct (negb (truthy (Some agent))); [assumption|].
    destruct (JsMap.get ticketId _) as [t|]; [|assumption].
    destruct (sameAgent _ _); [|assumption].
    pose proof (consistent_addMessage env ticketId message "agent"
                  (Some agent) (ticketManager s) H) as Hm.
    now destruct (addMessage _ _ _ _ _ _) as [[msg|] m1].
  - unfold onAgentTyping.
    destruct (JsMap.get ticketId _) as [t|]; [|assumption].
    now destruct (sameAgent _ _).
  - now apply onUpdateTicketStatus_consistent.
  - unfold onUpdateStatus.
    destruct (JsMap.get socket (agentIdOf s)) as [agent|]; [|assumption].
    destruct (JsMap.get agent _) as [info|] eqn:Ei; [|assumption].
    simpl. now apply (consistent_updateAgent _ agent info).
  - unfold onGetTicketDetails.
    destruct (JsMap.get ticketId _) as [t|] eqn:Et; [|assumption].
    destruct (sameAgent _ _); [|assumption].
    simpl. apply (consistent_updateTicket _ ticketId t); try easy.
    simpl. destruct H as (Hok & _). apply (Hok ticketId t Et).
  - unfold onAgentDisconnect.
    destruct (JsMap.get socket (agentIdOf s)) as [agent|]; [|assumption].
    destruct (truthy (Some agent)); [|assumption].
    assert (Hm : consistent (fst (markOffline socket agent (ticketManager s)))).
    { unfold markOffline.
      destruct (JsMap.get agent _) as [info|] eqn:Ei; [|assumption].
      simpl. now apply (consistent_updateAgent _ agent info). }
    destruct (markOffline socket agent (ticketManager s)) as [m1 outs].
    simpl in *. apply consistent_agentSockets; [assumption|].
    destruct Hm as (_ & _ & _ & _ & Hag).
    intros x Hx. apply values_delete_In in Hx. now apply Hag.
Qed.

Lemma initial_consistent : consistent (ticketManager initial).
Proof. split_consistent; try discriminate. intros info []. Qed.

Lemma run_consistent trace (s : Server) :
  consistent (ticketManager s) ->
  consistent (ticketManager (run trace s)).
Proof.
  revert s. induction trace as [|[env e] rest IH]; intros s H; [exact H|].
  simpl. apply IH. now apply step_consistent.
Qed.

(** ** Status, agent and index *)

(** C1, as stated, fails: after an agent has closed its ticket, the
    ticket still names the agent, while its status is closed and both
    directions of the index have let go of it.  The state is reached by
    two agents authenticating, a customer writing, and the assigned agent
    closing the ticket. *)
Lemma closed_ticket_keeps_its_agent :
  reachable ticketClosedByAgent
  /\ exists t,
       JsMap.get "TICKET-6-1" (tickets (ticketManager ticketClosedByAgent))
       = Some t
       /\ Ticket.status t = "closed"
       /\ Ticket.assignedAgent t = Some "A1"
       /\ JsMap.get "TICKET-6-1"
                    (ticketAssignments (ticketManager ticketClosedByAgent))
          = None
       /\ ~ (Ticket.status t = "assigned" <-> Ticket.assignedAgent t <> None).
Proof.
  split.
  - exists [(sampleEnv 1, agent_connection "s1");
            (sampleEnv 2, agent_authenticate "s1" "A1" "Ann" None);
            (sampleEnv 3, agent_connection "s2");
            (sampleEnv 4, agent_authenticate "s2" "A2" "Bo" None);
            (sampleEnv 5, customer_connection "c1");
            (sampleEnv 6, customer_chat_message "c1" "Hello" true);
            (sampleEnv 7,
             agent_update_ticket_status "s1" "TICKET-6-1" "closed")].
    vm_compute. reflexivity.
  - eexists. split; [vm_compute; reflexivity|]. simpl.
    repeat split. intros [_ H]. discriminate H. discriminate.
Qed.

(** C1, amended: in every state the server reaches, a ticket whose
    status is assigned has an agent, and an entry of [ticketAssignments]
    from a ticket id to an agent is matched in the other places: the
    ticket is stored, its [assignedAgent] is that agent, and its id is in
    the set of that agent in [agentTickets].  Every handler, and with it
    every method it calls, keeps this. *)
Theorem assignment_index_sound (trace : list (Env * Event)) :
  let m := ticketManager (run trace initial) in
  (forall k t, JsMap.get k (tickets m) = Some t ->
               Ticket.status t = "assigned" ->
               exists a, Ticket.assignedAgent t = Some a)
  /\ (forall k a, JsMap.get k (ticketAssignments m) = Some a ->
        exists t s,
          JsMap.get k (tickets m) = Some t
          /\ Ticket.assignedAgent t = Some a
          /\ JsMap.get a (agentTickets m) = Some s
          /\ JsSet.has k s = true).
Proof.
  intros m.
  destruct (run_consistent trace initial initial_consistent)
    as (Hok & _ & Hix & _).
  split; [|exact Hix].
  intros k t Hk Hst. destruct (Hok k t Hk) as [Hag _].
  specialize (Hag Hst). destruct (Ticket.assignedAgent t) as [a|].
  - now exists a.
  - now destruct Hag.
Qed.

(** ** Closing a ticket *)

(** C5: in every state the server reaches, [closeTicket] on a stored
    ticket returns true, gives the ticket the status closed and stamps
    [closedAt] and [closedBy]; afterwards the id of the ticket is in no
    entry of [ticketAssignments] and is not in the set of the agent the
    ticket names.  On an unknown id it returns false and the state is as
    it was. *)
Theorem closeTicket_releases (trace : list (Env * Event)) (env : Env)
    (ticketId closedBy : string) :
  let m := ticketManager (run trace initial) in
  let r := closeTicket env ticketId closedBy m in
  match JsMap.get ticketId (tickets m) with
  | Some t =>
      fst r = true
      /\ (exists t', JsMap.get ticketId (tickets (snd r)) = Some t'
                     /\ Ticket.status t' = "closed"
                     /\ Ticket.closedAt t' = Some (now env)
                     /\ Ticket.closedBy t' = Some closedBy
                     /\ Ticket.assignedAgent t' = Ticket.assignedAgent t)
      /\ JsMap.get ticketId (ticketAssignments (snd r)) = None
      /\ (forall a s, Ticket.assignedAgent t = Some a ->
                      JsMap.get a (agentTickets (snd r)) = Some s ->
                      JsSet.has ticketId s = false)
  | None => r = (false, m)
  end.
Proof.
  intros m r.
  destruct (JsMap.get ticketId (tickets m)) as [t|] eqn:Et.
  - apply closeTicket_known; [assumption|].
    destruct (run_consistent trace initial initial_consistent) as (Hok & _).
    apply (Hok ticketId t Et).
  - now apply closeTicket_unknown.
Qed.

(** ** One open or assigned ticket for a customer *)

Lemma oneActive_set (m : TicketManager) k t' :
  oneActiveTicket m ->
  (isActive t' = true ->
   forall k0 t0, k0 <> k -> JsMap.get k0 (tickets m) = Some t0 ->
                 isActive t0 = true ->
                 Ticket.customerSocketId t0 <> Ticket.customerSocketId t') ->
  oneActiveTicket (with_tickets (JsMap.set k t' (tickets m)) m).
Proof.
  intros H Hnew k1 k2 t1 t2. simpl. rewrite !get_set.
  destruct (String.eqb_spec k k1) as [<-|H1],
           (String.eqb_spec k k2) as [<-|H2]; try easy.
  - intros [= <-] Ht2 Ha1 Ha2 E.
    now destruct (Hnew Ha1 k2 t2 (not_eq_sym H2) Ht2 Ha2).
  - intros Ht1 [= <-] Ha1 Ha2 E.
    now destruct (Hnew Ha2 k1 t1 (not_eq_sym H1) Ht1 Ha1).
  - apply H.
Qed.

(** A stored ticket replaced by one of the same customer that is open or
    assigned only if the stored one was. *)
Lemma oneActive_update (m : TicketManager) k t t' :
  oneActiveTicket m ->
  JsMap.get k (tickets m) = Some t ->
  Ticket.customerSocketId t' = Ticket.customerSocketId t ->
  (isActive t' = true -> isActive t = true) ->
  oneActiveTicket (with_tickets (JsMap.set k t' (tickets m)) m).
Proof.
  intros H Hk Ecs Hact. apply oneActive_set; [assumption|].
  intros Ha k0 t0 Hne Hk0 Ha0 E. apply Hne.
  apply (H k0 k t0 t); try assumption; [now apply Hact|congruence].
Qed.

Lemma getTicketByCustomer_none socket (m : TicketManager) k t :
  getTicketByCustomer socket m = None ->
  JsMap.get k (tickets m) = Some t ->
  isActive t = true ->
  Ticket.customerSocketId t <> socket.
Proof.
  intros Hnone Hk Ha E. unfold getTicketByCustomer in Hnone.
  apply get_In in Hk.
  pose proof (find_none _ _ Hnone (k, t) Hk) as Hf. simpl in Hf.
  rewrite Ha, andb_true_r in Hf. apply String.eqb_neq in Hf. contradiction.
Qed.

Lemma oneActive_createTicket env customerId socket initialMessage
    (m : TicketManager) :
  oneActiveTicket m ->
  getTicketByCustomer socket m = None ->
  oneActiveTicket (snd (createTicket env customerId socket initialMessage m)).
Proof.
  intros H Hnone. unfold createTicket. simpl.
  apply (oneActive_set m); [assumption|].
  intros _ k0 t0 _ Hk0 Ha0. simpl.
  now apply (getTicketByCustomer_none socket m k0 t0).
Qed.

Lemma oneActive_addMessage env ticketId content sender senderId
    (m : TicketManager) :
  oneActiveTicket m ->
  oneActiveTicket (snd (addMessage env ticketId content sender senderId m)).
Proof.
  intros H. unfold addMessage.
  destruct (JsMap.get ticketId (tickets m)) as [t|] eqn:Et; [|assumption].
  simpl. now apply (oneActive_update m ticketId t).
Qed.

Lemma oneActive_assignTicket env ticketId agentId (m : TicketManager) :
  oneActiveTicket m ->
  (forall t, JsMap.get ticketId (tickets m) = Some t -> isActive t = true) ->
  oneActiveTicket (snd (assignTicket env ticketId agentId m)).
Proof.
  intros H Hact. unfold assignTicket.
  destruct (JsMap.get ticketId (tickets m)) as [t|] eqn:Et; [|assumption].
  destruct (JsMap.get agentId (agentSockets m)) as [ag|]; [|assumption].
  assert (Hup : oneActiveTicket
                  (with_tickets
                     (JsMap.set ticketId
                        (Ticket.with_updatedAt (now env)
                           (Ticket.with_status "assigned"
                              (Ticket.with_assignedAgent (Some agentId) t)))
                        (tickets m)) m)).
  { apply (oneActive_update m ticketId t); try easy. intros _. now apply Hact. }
  simpl. unfold JsMap.has. simpl.
  destruct (JsMap.get agentId (agentTickets m)) as [s0|] eqn:Es; simpl.
  - rewrite Es. exact Hup.
  - rewrite get_set_eq. exact Hup.
Qed.

Lemma oneActive_closeTicket env ticketId closedBy (m : TicketManager) :
  oneActiveTicket m ->
  oneActiveTicket (snd (closeTicket env ticketId closedBy m)).
Proof.
  intros H. unfold closeTicket.
  destruct (JsMap.get ticketId (tickets m)) as [t|] eqn:Et; [|assumption].
  assert (Hup : oneActiveTicket
                  (with_tickets
                     (JsMap.set ticketId
                        (Ticket.with_closed (now env) closedBy
                           (Ticket.with_updatedAt (now env)
                              (Ticket.with_status "closed" t)))
                        (tickets m)) m)).
  { apply (oneActive_update m ticketId t); try easy. }
  simpl. destruct (Ticket.assignedAgent t) as [agent|]; simpl; [|exact Hup].
  destruct (negb (agent =? "")%string); simpl; [|exact Hup].
  destruct (JsMap.get agent (agentTickets m)); exact Hup.
Qed.

Lemma routeChatMessage_oneActive env socket message callback agentIds key
    found (m2 : TicketManager) :
  oneActiveTicket m2 -> idIsKey m2 ->
  JsMap.get key (tickets m2) <> None ->
  oneActiveTicket
    (ticketManager
       (fst (routeChatMessage env socket message callback agentIds key found
                              m2))).
Proof.
  intros H2 Hid Hkey. unfold routeChatMessage.
  destruct (JsMap.get key (tickets m2)) as [ticket|] eqn:Ek; [|congruence].
  simpl default. cbv zeta.
  destruct (String.eqb_spec (Ticket.status ticket) "open") as [Hopen|_].
  - destruct (getAvailableAgent m2) as [ag|]; simpl; [|assumption].
    apply oneActive_assignTicket; [assumption|].
    rewrite (Hid key ticket Ek), Ek. intros t [= <-].
    unfold isActive. now rewrite Hopen.
  - destruct (_ && _); [|assumption].
    destruct (Ticket.assignedAgent ticket) as [ag|]; [|assumption].
    now destruct (JsMap.get ag (agentSockets m2)).
Qed.

Lemma onChatMessage_oneActive env socket message callback (s : Server) :
  consistent (ticketManager s) ->
  oneActiveTicket (ticketManager s) ->
  oneActiveTicket
    (ticketManager (fst (onChatMessage env socket message callback s))).
Proof.
  intros Hc H. unfold onChatMessage.
  set (m1 := match JsMap.get socket (customerSockets (ticketManager s)) with
             | Some info => _
             | None => _
             end).
  assert (H1 : consistent m1 /\ oneActiveTicket m1).
  { subst m1. destruct (JsMap.get socket _); split; assumption. }
  clearbody m1. destruct H1 as [Hc1 H1].
  destruct (getTicketByCustomer socket m1) as [[k t]|] eqn:Eg.
  - pose proof (consistent_addMessage env (Ticket.id t) message "customer"
                  None m1 Hc1) as Hc2.
    apply routeChatMessage_oneActive.
    + now apply oneActive_addMessage.
    + apply Hc2.
    + unfold getTicketByCustomer in Eg. apply find_some in Eg as [Hin _].
      apply In_get_some in Hin as [v Hv]. unfold addMessage.
      destruct (JsMap.get (Ticket.id t) (tickets m1)); simpl; [|congruence].
      rewrite get_set. destruct (String.eqb _ _); congruence.
  - pose proof (consistent_createTicket env socket socket (Some message) m1
                  Hc1) as Hc2.
    pose proof (oneActive_createTicket env socket socket (Some message) m1
                  H1 Eg) as H2.
    assert (Hk : JsMap.get
                   (Ticket.id
                      (fst (createTicket env socket socket (Some message) m1)))
                   (tickets
                      (snd (createTicket env socket socket (Some message) m1)))
                 <> None).
    { unfold createTicket. simpl. now rewrite get_set_eq. }
    destruct (createTicket env socket socket (Some message) m1) as [t m'].
    apply routeChatMessage_oneActive; [assumption|apply Hc2|assumption].
Qed.

Lemma otherActive_false key socket (m : TicketManager) k0 t0 :
  otherActive key socket m = false ->
  JsMap.get k0 (tickets m) = Some t0 ->
  k0 <> key ->
  isActive t0 = true ->
  Ticket.customerSocketId t0 <> socket.
Proof.
  unfold otherActive. intros Hno Hk Hne Ha E.
  assert (Hex : existsb
                  (fun kv =>
                     negb (String.eqb (fst kv) key)
                     && String.eqb (Ticket.customerSocketId (snd kv)) socket
                     && isActive (snd kv))
                  (tickets m) = true); [|congruence].
  apply existsb_exists. exists (k0, t0). split; [now apply get_In|].
  cbn [fst snd]. rewrite Ha, E, String.eqb_refl.
  now destruct (String.eqb_spec k0 key).
Qed.

Lemma onUpdateTicketStatus_oneActive env socket ticketId status (s : Server) :
  oneActiveTicket (ticketManager s) ->
  reopens (agent_update_ticket_status socket ticketId status) s = false ->
  oneActiveTicket
    (ticketManager (fst (onUpdateTicketStatus env socket ticketId status s))).
Proof.
  intros H Hre. unfold onUpdateTicketStatus. unfold reopens in Hre.
  destruct (JsMap.get ticketId (tickets (ticketManager s))) as [t|] eqn:Et;
    [|assumption].
  destruct (JsMap.get socket (agentIdOf s)) as [agent|]; [|assumption].
  destruct (sameAgent (Ticket.assignedAgent t) (Some agent)) eqn:Es;
    [|assumption].
  assert (H1 : oneActiveTicket
                 (with_tickets
                    (JsMap.set ticketId
                       (Ticket.with_updatedAt (now env)
                          (Ticket.with_status status t))
                       (tickets (ticketManager s)))
                    (ticketManager s))).
  { apply oneActive_set; [assumption|].
    unfold isActive at 1. cbn [Ticket.status Ticket.with_updatedAt
                               Ticket.with_status Ticket.customerSocketId].
    intros Hst k0 t0 Hne Hk0 Ha0 E. rewrite Hst in Hre.
    destruct (isActive t) eqn:Ha.
    - apply Hne. now apply (H k0 ticketId t0 t).
    - cbn [andb negb] in Hre.
      now apply (otherActive_false _ _ _ k0 t0 Hre). }
  destruct (String.eqb status "closed"); simpl; [|assumption].
  now apply oneActive_closeTicket.
Qed.

Lemma step_oneActive env e (s : Server) :
  consistent (ticketManager s) ->
  oneActiveTicket (ticketManager s) ->
  reopens e s = false ->
  oneActiveTicket (ticketManager (fst (step env e s))).
Proof.
  intros Hc H Hre. destruct e; simpl.
  - exact H.
  - now apply onChatMessage_oneActive.
  - unfold onCustomerTyping.
    destruct (getTicketByCustomer _ _) as [[k t]|]; [|assumption].
    now destruct (agentSocketOf _ _).
  - exact H.
  - exact H.
  - unfold onAuthenticate.
    now destruct (negb (truthy (Some agentId))
                  || negb (truthy (Some agentName))).
  - unfold onSendMessage.
    destruct (JsMap.get socket (agentIdOf s)) as [agent|]; [|assumption].
    destruct (negb (truthy (Some agent))); [assumption|].
    destruct (JsMap.get ticketId _) as [t|]; [|assumption].
    destruct (sameAgent _ _); [|assumption].
    pose proof (oneActive_addMessage env ticketId message "agent"
                  (Some agent) (ticketManager s) H) as Hm.
    now destruct (addMessage _ _ _ _ _ _) as [[msg|] m1].
  - unfold onAgentTyping.
    destruct (JsMap.get ticketId _) as [t|]; [|assumption].
    now destruct (sameAgent _ _).
  - now apply onUpdateTicketStatus_oneActive.
  - unfold onUpdateStatus.
    destruct (JsMap.get socket (agentIdOf s)) as [agent|]; [|assumption].
    now destruct (JsMap.get agent _).
  - unfold onGetTicketDetails.
    destruct (JsMap.get ticketId _) as [t|] eqn:Et; [|assumption].
    destruct (sameAgent _ _); [|assumption].
    simpl. now apply (oneActive_update _ ticketId t).
  - unfold onAgentDisconnect.
    destruct (JsMap.get socket (agentIdOf s)) as [agent|]; [|assumption].
    destruct (truthy (Some agent)); [|assumption].
    unfold markOffline. now destruct (JsMap.get agent _).
Qed.

Lemma run_oneActive trace (s : Server) :
  consistent (ticketManager s) ->
  oneActiveTicket (ticketManager s) ->
  neverReopens trace s = true ->
  oneActiveTicket (ticketManager (run trace s)).
Proof.
  revert s. induction trace as [|[env e] rest IH]; intros s Hc H Hn;
    [exact H|].
  simpl in *. apply andb_true_iff in Hn as [Hre Hn].
  apply negb_true_iff in Hre.
  apply IH; [now apply step_consistent|now apply step_oneActive|assumption].
Qed.

(** C2, as stated, fails: the handler of [update_ticket_status] accepts
    any status from the agent a ticket names, also for a closed ticket.
    The customer of a closed ticket writes again and gets a second
    ticket; the agent sets the closed one back to open; two tickets of
    the same customer socket are now open or assigned. *)
Lemma reopened_ticket_second_active :
  reachable closedTicketReopened
  /\ (exists t1 t2,
        JsMap.get "TICKET-6-1" (tickets (ticketManager closedTicketReopened))
        = Some t1
        /\ JsMap.get "TICKET-8-2" (tickets (ticketManager closedTicketReopened))
           = Some t2
        /\ Ticket.status t1 = "open" /\ Ticket.status t2 = "assigned"
        /\ Ticket.customerSocketId t1 = "c1"
        /\ Ticket.customerSocketId t2 = "c1")
  /\ ~ oneActiveTicket (ticketManager closedTicketReopened).
Proof.
  assert (Hboth : exists t1 t2,
        JsMap.get "TICKET-6-1" (tickets (ticketManager closedTicketReopened))
        = Some t1
        /\ JsMap.get "TICKET-8-2" (tickets (ticketManager closedTicketReopened))
           = Some t2
        /\ Ticket.status t1 = "open" /\ Ticket.status t2 = "assigned"
        /\ Ticket.customerSocketId t1 = "c1"
        /\ Ticket.customerSocketId t2 = "c1").
  { eexists. eexists. split; [vm_compute; reflexivity|].
    split; [vm_compute; reflexivity|]. simpl. repeat split. }
  split; [|split; [exact Hboth|]].
  - exists [(sampleEnv 1, agent_connection "s1");
            (sampleEnv 2, agent_authenticate "s1" "A1" "Ann" None);
            (sampleEnv 3, agent_connection "s2");
            (sampleEnv 4, agent_authenticate "s2" "A2" "Bo" None);
            (sampleEnv 5, customer_connection "c1");
            (sampleEnv 6, customer_chat_message "c1" "Hello" true);
            (sampleEnv 7,
             agent_update_ticket_status "s1" "TICKET-6-1" "closed");
            (sampleEnv 8, customer_chat_message "c1" "Are you there?" true);
            (sampleEnv 9,
             agent_update_ticket_status "s1" "TICKET-6-1" "open")].
    vm_compute. reflexivity.
  - destruct Hboth as (t1 & t2 & H1 & H2 & S1 & S2 & C1 & C2). intros H.
    assert (E : "TICKET-6-1" = "TICKET-8-2"); [|discriminate E].
    apply (H _ _ t1 t2 H1 H2).
    + unfold isActive. now rewrite S1.
    + unfold isActive. now rewrite S2.
    + congruence.
Qed.

(** ** Messages and time stamps

    Every stored stamp is at or before the last reading of the clock, as
    long as the clock is not set back between events. *)

Lemma stampsBehind_set (c c' : Z) (m : TicketManager) k t' :
  stampsBehind c m -> c <= c' -> Ticket.updatedAt t' <= c' ->
  stampsBehind c' (with_tickets (JsMap.set k t' (tickets m)) m).
Proof.
  intros H Hc Ht k0 t0. simpl. rewrite get_set.
  destruct (String.eqb k k0).
  - now intros [= <-].
  - intros Hk. specialize (H k0 t0 Hk). lia.
Qed.

Lemma stampsBehind_later (c c' : Z) (m : TicketManager) :
  stampsBehind c m -> c <= c' -> stampsBehind c' m.
Proof. intros H Hc k t Hk. specialize (H k t Hk). lia. Qed.

Lemma stampsBehind_addMessage env ticketId content sender senderId c
    (m : TicketManager) :
  stampsBehind c m -> c <= now env ->
  stampsBehind (now env)
    (snd (addMessage env ticketId content sender senderId m)).
Proof.
  intros H Hc. unfold addMessage.
  destruct (JsMap.get ticketId (tickets m));
    [|now apply (stampsBehind_later c)].
  simpl. apply (stampsBehind_set c); [assumption..|]. simpl. lia.
Qed.

Lemma stampsBehind_assignTicket env ticketId agentId c (m : TicketManager) :
  stampsBehind c m -> c <= now env ->
  stampsBehind (now env) (snd (assignTicket env ticketId agentId m)).
Proof.
  intros H Hc. unfold assignTicket.
  destruct (JsMap.get ticketId (tickets m)) as [t|];
    [|now apply (stampsBehind_later c)].
  destruct (JsMap.get agentId (agentSockets m));
    [|now apply (stampsBehind_later c)].
  assert (Hup : stampsBehind (now env)
                  (with_tickets
                     (JsMap.set ticketId
                        (Ticket.with_updatedAt (now env)
                           (Ticket.with_status "assigned"
                              (Ticket.with_assignedAgent (Some agentId) t)))
                        (tickets m)) m)).
  { apply (stampsBehind_set c); [assumption..|]. simpl. lia. }
  simpl. unfold JsMap.has. simpl.
  destruct (JsMap.get agentId (agentTickets m)) eqn:Es; simpl.
  - rewrite Es. exact Hup.
  - rewrite get_set_eq. exact Hup.
Qed.

Lemma stampsBehind_closeTicket env ticketId closedBy c (m : TicketManager) :
  stampsBehind c m -> c <= now env ->
  stampsBehind (now env) (snd (closeTicket env ticketId closedBy m)).
Proof.
  intros H Hc. unfold closeTicket.
  destruct (JsMap.get ticketId (tickets m)) as [t|];
    [|now apply (stampsBehind_later c)].
  assert (Hup : stampsBehind (now env)
                  (with_tickets
                     (JsMap.set ticketId
                        (Ticket.with_closed (now env) closedBy
                           (Ticket.with_updatedAt (now env)
                              (Ticket.with_status "closed" t)))
                        (tickets m)) m)).
  { apply (stampsBehind_set c); [assumption..|]. simpl. lia. }
  simpl. destruct (Ticket.assignedAgent t) as [agent|]; simpl; [|exact Hup].
  destruct (negb (agent =? "")%string); simpl; [|exact Hup].
  destruct (JsMap.get agent (agentTickets m)); exact Hup.
Qed.

Lemma step_stampsBehind env e c (s : Server) :
  stampsBehind c (ticketManager s) -> c <= now env ->
  stampsBehind (now env) (ticketManager (fst (step env e s))).
Proof.
  intros H Hc.
  pose proof (stampsBehind_later c (now env) _ H Hc) as Hs.
  destruct e; simpl; try exact Hs.
  - unfold onChatMessage.
    set (m1 := match JsMap.get socket (customerSockets (ticketManager s)) with
               | Some info => _
               | None => _
               end).
    assert (H1 : stampsBehind c m1).
    { subst m1. destruct (JsMap.get socket _); exact H. }
    clearbody m1.
    assert (Hroute : forall key found m2,
              stampsBehind (now env) m2 ->
              stampsBehind (now env)
                (ticketManager
                   (fst (routeChatMessage env socket message callback
                                          (agentIdOf s) key found m2)))).
    { intros key found m2 H2. unfold routeChatMessage.
      set (ticket := default found _). clearbody ticket. cbv zeta.
      destruct (String.eqb (Ticket.status ticket) "open").
      - destruct (getAvailableAgent m2) as [ag|]; simpl; [|assumption].
        apply (stampsBehind_assignTicket env _ _ (now env)); [assumption|lia].
      - destruct (_ && _); [|assumption].
        destruct (Ticket.assignedAgent ticket) as [ag|]; [|assumption].
        now destruct (JsMap.get ag (agentSockets m2)). }
    destruct (getTicketByCustomer socket m1) as [[k t]|].
    + apply Hroute. now apply (stampsBehind_addMessage env _ _ _ _ c).
    + unfold createTicket. apply Hroute. simpl.
      apply (stampsBehind_set c); [assumption..|]. simpl. lia.
  - unfold onCustomerTyping.
    destruct (getTicketByCustomer _ _) as [[k t]|]; [|assumption].
    now destruct (agentSocketOf _ _).
  - unfold onAuthenticate.
    now destruct (negb (truthy (Some agentId))
                  || negb (truthy (Some agentName))).
  - unfold onSendMessage.
    destruct (JsMap.get socket (agentIdOf s)) as [agent|]; [|assumption].
    destruct (negb (truthy (Some agent))); [assumption|].
    destruct (JsMap.get ticketId _) as [t|]; [|assumption].
    destruct (sameAgent _ _); [|assumption].
    pose proof (stampsBehind_addMessage env ticketId message "agent"
                  (Some agent) c (ticketManager s) H Hc) as Hm.
    now destruct (addMessage _ _ _ _ _ _) as [[msg|] m1].
  - unfold onAgentTyping.
    destruct (JsMap.get ticketId _) as [t|]; [|assumption].
    now destruct (sameAgent _ _).
  - unfold onUpdateTicketStatus.
    destruct (JsMap.get ticketId (tickets (ticketManager s))) as [t|];
      [|assumption].
    destruct (JsMap.get socket (agentIdOf s)) as [agent|]; [|assumption].
    destruct (sameAgent _ _); [|assumption].
    assert (H1 : stampsBehind (now env)
                   (with_tickets
                      (JsMap.set ticketId
                         (Ticket.with_updatedAt (now env)
                            (Ticket.with_status status t))
                         (tickets (ticketManager s)))
                      (ticketManager s))).
    { apply (stampsBehind_set c); [assumption..|]. simpl. lia. }
    destruct (String.eqb status "closed"); simpl; [|assumption].
    apply (stampsBehind_closeTicket env _ _ (now env)); [assumption|lia].
  - unfold onUpdateStatus.
    destruct (JsMap.get socket (agentIdOf s)) as [agent|]; [|assumption].
    now destruct (JsMap.get agent _).
  - unfold onGetTicketDetails.
    destruct (JsMap.get ticketId _) as [t|] eqn:Et; [|assumption].
    destruct (sameAgent _ _); [|assumption].
    simpl. apply (stampsBehind_set c); [assumption..|]. simpl.
    specialize (H ticketId t Et). lia.
  - unfold onAgentDisconnect.
    destruct (JsMap.get socket (agentIdOf s)) as [agent|]; [|assumption].
    destruct (truthy (Some agent)); [|assumption].
    unfold markOffline. now destruct (JsMap.get agent _).
Qed.

(** In a run whose clock readings never go back, every stored ticket was
    last updated at or before the last reading. *)
Lemma stamps_behind_clock (trace : list (Env * Event)) (c : Z) (s : Server) :
  stampsBehind c (ticketManager s) ->
  clockMonotone c trace ->
  stampsBehind (lastReading c trace) (ticketManager (run trace s)).
Proof.
  revert c s. induction trace as [|[env e] rest IH]; intros c s H Hm;
    [exact H|].
  simpl in *. destruct Hm as [Hc Hm].
  apply IH; [|assumption]. now apply (step_stampsBehind env e c).
Qed.

(** C4, as stated, fails: [addMessage] stamps the ticket with the
    reading of the clock, whatever the stamp it had.  A ticket is
    created when the clock reads 1000; the clock is then set back, and a
    message added at the reading 500 leaves the ticket with an
    [updatedAt] of 500, before the 1000 it had. *)
Lemma addMessage_clock_set_back :
  let m := ticketManager
             (run [(sampleEnv 1000, customer_connection "c1");
                   (sampleEnv 1000, customer_chat_message "c1" "Hello" false)]
                  initial) in
  let r := addMessage (sampleEnv 500) "TICKET-1000-1" "Again" "customer"
             None m in
  exists t msg t',
    JsMap.get "TICKET-1000-1" (tickets m) = Some t
    /\ fst r = Some msg
    /\ JsMap.get "TICKET-1000-1" (tickets (snd r)) = Some t'
    /\ Ticket.updatedAt t = 1000
    /\ Ticket.updatedAt t' = 500
    /\ ~ (Ticket.updatedAt t' >= Ticket.updatedAt t).
Proof.
  vm_compute. eexists. eexists. eexists.
  repeat split; try reflexivity. intros H. now apply H.
Qed.

(** C4, amended: [addMessage] on an id that is not a key of [tickets]
    returns [null] and leaves the whole state as it is.  On a known id
    it returns the message it appended: the ticket has exactly one
    message more, the returned message is the last one, the other
    tickets are untouched, and [updatedAt] is the reading of the clock
    taken by the call.  In a state reached by a run whose clock readings
    never go back, a call at a reading not before the last one leaves
    [updatedAt] at or after the value it had. *)
Theorem addMessage_appends (env : Env) (ticketId content sender : string)
    (senderId : option string) :
  (forall m, JsMap.get ticketId (tickets m) = None ->
     addMessage env ticketId content sender senderId m = (None, m))
  /\
  (forall m t, JsMap.get ticketId (tickets m) = Some t ->
   exists msg t',
     addMessage env ticketId content sender senderId m
     = (Some msg, with_tickets (JsMap.set ticketId t' (tickets m)) m)
     /\ Message.content msg = content
     /\ Message.sender msg = sender
     /\ Message.senderId msg = senderId
     /\ Ticket.messages t' = (Ticket.messages t ++ [msg])%list
     /\ length (Ticket.messages t') = S (length (Ticket.messages t))
     /\ last (Ticket.messages t') = Some msg
     /\ Ticket.status t' = Ticket.status t
     /\ Ticket.assignedAgent t' = Ticket.assignedAgent t
     /\ Ticket.updatedAt t' = now env)
  /\
  (forall trace c t t',
     clockMonotone c trace ->
     lastReading c trace <= now env ->
     let m := ticketManager (run trace initial) in
     JsMap.get ticketId (tickets m) = Some t ->
     JsMap.get ticketId
       (tickets (snd (addMessage env ticketId content sender senderId m)))
     = Some t' ->
     Ticket.updatedAt t <= Ticket.updatedAt t').
Proof.
  split; [|split].
  - intros m. unfold addMessage. intros ->. reflexivity.
  - intros m t. unfold addMessage. intros ->.
    eexists. eexists. split; [reflexivity|]. simpl.
    repeat split; try reflexivity.
    + rewrite length_app. simpl. lia.
    + apply last_snoc.
  - intros trace c t t' Hm Hle m Hk.
    assert (Hb : stampsBehind (lastReading c trace) m).
    { apply stamps_behind_clock; [|assumption].
      intros k0 t0 Hk0. discriminate Hk0. }
    specialize (Hb ticketId t Hk).
    unfold addMessage. rewrite Hk. simpl. rewrite get_set_eq.
    intros [= <-]. simpl. lia.
Qed.

(** A customer writes twice, the second time at a later reading of the
    clock. *)
Lemma addMessage_appends_witness :
  let m := ticketManager
             (run [(sampleEnv 1, customer_connection "c1");
                   (sampleEnv 2, customer_chat_message "c1" "Hello" false)]
                  initial) in
  exists t t',
    JsMap.get "TICKET-2-1" (tickets m) = Some t
    /\ JsMap.get "TICKET-2-1"
         (tickets (snd (addMessage (sampleEnv 5) "TICKET-2-1" "Again"
                          "customer" None m)))
       = Some t'
    /\ length (Ticket.messages t') = S (length (Ticket.messages t))
    /\ Ticket.updatedAt t <= Ticket.updatedAt t'.
Proof.
  intros m.
  destruct (addMessage_appends (sampleEnv 5) "TICKET-2-1" "Again" "customer"
              None) as (_ & Happ & Hmono).
  assert (Ht : exists t, JsMap.get "TICKET-2-1" (tickets m) = Some t).
  { eexists. vm_compute. reflexivity. }
  destruct Ht as [t Ht].
  destruct (Happ m t Ht) as (msg & t' & E & _ & _ & _ & _ & Hlen & _).
  assert (Ht' : JsMap.get "TICKET-2-1"
                  (tickets (snd (addMessage (sampleEnv 5) "TICKET-2-1" "Again"
                                   "customer" None m)))
                = Some t').
  { rewrite E.
    change (JsMap.get "TICKET-2-1"
              (JsMap.set "TICKET-2-1" t' (tickets m)) = Some t').
    apply get_set_eq. }
  exists t, t'. split; [exact Ht|]. split; [exact Ht'|].
  split; [exact Hlen|].
  apply (Hmono
           [(sampleEnv 1, customer_connection "c1");
            (sampleEnv 2, customer_chat_message "c1" "Hello" false)] 0 t t').
  - simpl. lia.
  - simpl. lia.
  - exact Ht.
  - exact Ht'.
Defined.

(** * Further properties of the ticket manager *)

(** ** Lookup of the ticket of a customer *)

Lemma find_first {A} (p : A -> bool) (l : list A) (x : A) :
  List.find p l = Some x ->
  exists before after,
    l = (before ++ x :: after)%list
    /\ p x = true
    /\ forall y, In y before -> p y = false.
Proof.
  induction l as [|a l IH]; simpl; [discriminate|].
  destruct (p a) eqn:Ea.
  - intros [= ->]. exists [], l. repeat split; [assumption|]. intros y [].
  - intros H. destruct (IH H) as (before & after & -> & Hx & Hb).
    exists (a :: before), after. repeat split; [assumption|].
    intros y [<-|Hy]; [assumption|now apply Hb].
Qed.

Lemma isActive_status t :
  isActive t = true
  <-> Ticket.status t = "open" \/ Ticket.status t = "assigned".
Proof.
  unfold isActive. rewrite includes_In. simpl. intuition congruence.
Qed.

(** X1: [getTicketByCustomer] returns the earliest stored ticket of the
    socket whose status is open or assigned: the entries stored before
    it are of other sockets or have another status.  It returns [null]
    exactly when the socket has no such ticket; a closed or resolved
    ticket is never returned. *)
Theorem getTicketByCustomer_earliest_active (socket : string)
    (m : TicketManager) :
  match getTicketByCustomer socket m with
  | Some (k, t) =>
      Ticket.customerSocketId t = socket
      /\ (Ticket.status t = "open" \/ Ticket.status t = "assigned")
      /\ exists before after,
           tickets m = (before ++ (k, t) :: after)%list
           /\ forall k' t', In (k', t') before ->
                Ticket.customerSocketId t' = socket ->
                Ticket.status t' <> "open" /\ Ticket.status t' <> "assigned"
  | None =>
      forall k t, In (k, t) (tickets m) ->
        Ticket.customerSocketId t = socket ->
        Ticket.status t <> "open" /\ Ticket.status t <> "assigned"
  end.
Proof.
  unfold getTicketByCustomer.
  set (p := fun kv : string * Ticket.t =>
              String.eqb (Ticket.customerSocketId (snd kv)) socket
              && isActive (snd kv)).
  assert (Hno : forall k t, p (k, t) = false ->
            Ticket.customerSocketId t = socket ->
            Ticket.status t <> "open" /\ Ticket.status t <> "assigned").
  { intros k t Hp Hs. subst p. simpl in Hp. rewrite Hs, String.eqb_refl in Hp.
    simpl in Hp. split; intros E;
      assert (Ha : isActive t = true) by (apply isActive_status; tauto);
      congruence. }
  destruct (List.find p (tickets m)) as [[k t]|] eqn:Ef.
  - apply find_first in Ef as (before & after & Hsplit & Hp & Hb).
    subst p. simpl in Hp. apply andb_true_iff in Hp as [Hs Ha].
    apply String.eqb_eq in Hs. apply isActive_status in Ha.
    split; [assumption|]. split; [assumption|].
    exists before, after. split; [assumption|].
    intros k' t' Hin. apply (Hno k' t'). now apply Hb.
  - intros k t Hin. apply (Hno k t). now apply (find_none _ _ Ef (k, t)).
Qed.

(** ** Statistics *)

Lemma filter_length_le {A} (p : A -> bool) (l : list A) :
  (length (List.filter p l) <= length l)%nat.
Proof.
  induction l as [|a l IH]; simpl; [lia|]. destruct (p a); simpl; lia.
Qed.

Lemma filter3_length_le {A} (p q r : A -> bool) (l : list A) :
  (forall x, p x = true -> q x = false /\ r x = false) ->
  (forall x, q x = true -> r x = false) ->
  (length (List.filter p l) + length (List.filter q l)
   + length (List.filter r l) <= length l)%nat.
Proof.
  intros Hp Hq. induction l as [|a l IH]; simpl; [lia|].
  destruct (p a) eqn:Ea.
  - destruct (Hp a Ea) as [-> ->]. simpl. lia.
  - destruct (q a) eqn:Eb.
    + rewrite (Hq a Eb). simpl. lia.
    + destruct (r a); simpl; lia.
Qed.

Lemma filter3_length_eq {A} (p q r : A -> bool) (l : list A) :
  (forall x, p x = true -> q x = false /\ r x = false) ->
  (forall x, q x = true -> r x = false) ->
  (forall x, In x l -> p x = true \/ q x = true \/ r x = true) ->
  (length (List.filter p l) + length (List.filter q l)
   + length (List.filter r l) = length l)%nat.
Proof.
  intros Hp Hq. induction l as [|a l IH]; intros Hall; simpl; [lia|].
  assert (IH' := IH (fun x Hx => Hall x (or_intror Hx))).
  destruct (p a) eqn:Ea.
  - destruct (Hp a Ea) as [-> ->]. simpl. lia.
  - destruct (q a) eqn:Eb.
    + rewrite (Hq a Eb). simpl. lia.
    + destruct (r a) eqn:Ec; simpl; [lia|].
      destruct (Hall a (or_introl eq_refl)) as [H|[H|H]]; congruence.
Qed.

(** X2: in the report of [getStats], the open, assigned and closed
    tickets are disjoint parts of all tickets: their counts add up to at
    most [totalTickets], and to exactly [totalTickets] when no ticket
    has another status (such as resolved); [activeAgents] is at most
    [totalAgents]. *)
Theorem getStats_counts (m : TicketManager) :
  let st := getStats m in
  (Stats.openTickets st + Stats.assignedTickets st + Stats.closedTickets st
   <= Stats.totalTickets st)%nat
  /\ (Stats.activeAgents st <= Stats.totalAgents st)%nat
  /\ ((forall t, In t (JsMap.values (tickets m)) ->
         Ticket.status t = "open" \/ Ticket.status t = "assigned"
         \/ Ticket.status t = "closed") ->
      (Stats.openTickets st + Stats.assignedTickets st
       + Stats.closedTickets st = Stats.totalTickets st)%nat).
Proof.
  simpl. unfold countStatus, JsMap.size, JsMap.values.
  assert (Hlen : length (tickets m) = length (map snd (tickets m)))
    by now rewrite length_map.
  assert (Hd1 : forall x : Ticket.t,
            String.eqb (Ticket.status x) "open" = true ->
            String.eqb (Ticket.status x) "assigned" = false
            /\ String.eqb (Ticket.status x) "closed" = false).
  { intros x E. apply String.eqb_eq in E. now rewrite E. }
  assert (Hd2 : forall x : Ticket.t,
            String.eqb (Ticket.status x) "assigned" = true ->
            String.eqb (Ticket.status x) "closed" = false).
  { intros x E. apply String.eqb_eq in E. now rewrite E. }
  split; [|split].
  - rewrite Hlen. now apply filter3_length_le.
  - rewrite <- (length_map snd (agentSockets m)). apply filter_length_le.
  - intros Hall. rewrite Hlen. apply filter3_length_eq; try assumption.
    intros x Hx. rewrite !String.eqb_eq. now apply Hall.
Qed.

(** ** Summaries *)









(** ** Load of an agent *)

(** The maps after a successful [assignTicket]. *)
Lemma assignTicket_effect (env : Env) (m : TicketManager)
    (ticketId agentId : string) (t : Ticket.t) (agent : Agent.t) :
  JsMap.get ticketId (tickets m) = Some t ->
  JsMap.get agentId (agentSockets m) = Some agent ->
  let m' := snd (assignTicket env ticketId agentId m) in
  tickets m'
  = JsMap.set ticketId
      (Ticket.with_updatedAt (now env)
         (Ticket.with_status "assigned"
            (Ticket.with_assignedAgent (Some agentId) t)))
      (tickets m)
  /\ ticketAssignments m'
     = JsMap.set ticketId agentId (ticketAssignments m)
  /\ JsMap.get agentId (agentTickets m')
     = Some (JsSet.add ticketId
               (default JsSet.empty (JsMap.get agentId (agentTickets m))))
  /\ (forall other, other <> agentId ->
        JsMap.get other (agentTickets m') = JsMap.get other (agentTickets m))
  /\ agentSockets m' = agentSockets m
  /\ customerSockets m' = customerSockets m
  /\ ticketCounter m' = ticketCounter m.
Proof.
  intros Ht Ha. unfold assignTicket. rewrite Ht, Ha. simpl. unfold JsMap.has.
  simpl. destruct (JsMap.get agentId (agentTickets m)) as [s|] eqn:Es; simpl.
  - rewrite Es. simpl. rewrite get_set_eq. repeat split.
    intros other Hne. now rewrite get_set_ne by congruence.
  - rewrite get_set_eq. simpl. rewrite get_set_eq. repeat split.
    intros other Hne. now rewrite !get_set_ne by congruence.
Qed.

(** X4: a successful [assignTicket] makes the load of the agent the size
    of its set with the ticket added: one more when the ticket was not
    in the set, the same when it was (assigning twice does not count
    twice), and it leaves the load of every other agent as it was. *)
Theorem assignTicket_load (env : Env) (m : TicketManager)
    (ticketId agentId : string) (t : Ticket.t) (agent : Agent.t) :
  JsMap.get ticketId (tickets m) = Some t ->
  JsMap.get agentId (agentSockets m) = Some agent ->
  let m' := snd (assignTicket env ticketId agentId m) in
  ticketCount m' agentId = countAfterAdd m agentId ticketId
  /\ (forall other, other <> agentId ->
        ticketCount m' other = ticketCount m other)
  /\ ticketCount (snd (assignTicket env ticketId agentId m')) agentId
     = ticketCount m' agentId.
Proof.
  intros Ht Ha m'.
  destruct (assignTicket_effect env m ticketId agentId t agent Ht Ha)
    as (Htk & _ & Hset & Hother & Hag & _).
  fold m' in Htk, Hset, Hother, Hag.
  split; [|split].
  - unfold ticketCount, countAfterAdd. rewrite Hset.
    unfold JsSet.add, JsSet.size.
    destruct (JsMap.get agentId (agentTickets m)) as [s|]; simpl.
    + destruct (JsSet.has ticketId s); [reflexivity|].
      rewrite length_app. simpl. lia.
    + reflexivity.
  - intros other Hne. unfold ticketCount. now rewrite Hother.
  - assert (Ht' : exists t', JsMap.get ticketId (tickets m') = Some t').
    { rewrite Htk, get_set_eq. now eexists. }
    destruct Ht' as [t' Ht']. rewrite <- Hag in Ha.
    destruct (assignTicket_effect env m' ticketId agentId t' agent Ht' Ha)
      as (_ & _ & Hset' & _).
    unfold ticketCount. rewrite Hset', Hset. simpl.
    unfold JsSet.add at 1.
    assert (Hin : JsSet.has ticketId
                    (JsSet.add ticketId
                       (default JsSet.empty
                          (JsMap.get agentId (agentTickets m)))) = true)
      by (apply set_has_add; now left).
    now rewrite Hin.
Qed.

(** A ticket assigned to an agent that has one ticket already. *)
Lemma assignTicket_load_witness :
  let env := sampleEnv 10 in
  let m := ticketManager twoAgentsOneTicket in
  let m' := snd (assignTicket env "TICKET-6-1" "A2" m) in
  ticketCount m' "A2" = 1%nat /\ ticketCount m' "A1" = 1%nat.
Proof.
  intros env m m'.
  assert (Ht : exists t agent,
            JsMap.get "TICKET-6-1" (tickets m) = Some t
            /\ JsMap.get "A2" (agentSockets m) = Some agent).
  { eexists. eexists. split; vm_compute; reflexivity. }
  destruct Ht as (t & agent & Ht & Ha).
  destruct (assignTicket_load env m "TICKET-6-1" "A2" t agent Ht Ha)
    as (Hc & Ho & _).
  split.
  - fold m' in Hc. rewrite Hc. vm_compute. reflexivity.
  - fold m' in Ho. rewrite (Ho "A1") by discriminate. vm_compute. reflexivity.
Defined.

(** ** Order of the listings *)

Section SortedByKey.
Context {A : Type} (cmp : A -> A -> Z) (key : A -> Z).
Hypothesis cmp_key : forall a b, cmp a b = key a - key b.

Let ordered (a b : A) : Prop := key a <= key b.

Lemma sort_insert_sorted x l :
  StronglySorted ordered l -> StronglySorted ordered (sort_insert cmp x l).
Proof.
  induction l as [|y l IH]; simpl; intros Hs.
  - constructor; constructor.
  - apply StronglySorted_inv in Hs as [Hs Hy]. rewrite cmp_key.
    destruct (Z.leb_spec (key x - key y) 0) as [Hle|Hgt].
    + constructor; [now constructor|].
      constructor; [unfold ordered; lia|].
      rewrite List.Forall_forall in *. intros z Hz. specialize (Hy z Hz).
      unfold ordered in *. lia.
    + constructor; [now apply IH|].
      rewrite List.Forall_forall in *. intros z Hz.
      apply sort_insert_In in Hz as [->|Hz]; [unfold ordered; lia|].
      now apply Hy.
Qed.

Lemma js_sort_sorted l : StronglySorted ordered (js_sort cmp l).
Proof.
  induction l as [|x l IH]; simpl; [constructor|].
  now apply sort_insert_sorted.
Qed.
End SortedByKey.

Lemma firstn_sorted {A} (R : A -> A -> Prop) n l :
  StronglySorted R l -> StronglySorted R (firstn n l).
Proof.
  revert l. induction n as [|n IH]; intros [|x l] Hs; simpl;
    try constructor.
  - apply IH. now apply StronglySorted_inv in Hs.
  - apply StronglySorted_inv in Hs as [_ Hx].
    rewrite List.Forall_forall in *. intros z Hz. apply Hx.
    rewrite <- (firstn_skipn n l). apply in_or_app. now left.
Qed.

Lemma js_slice0_sorted {A} (R : A -> A -> Prop) e l :
  StronglySorted R l -> StronglySorted R (js_slice0 e l).
Proof.
  intros Hs. unfold js_slice0. destruct e as [e|]; [|constructor].
  destruct (e <? 0); now apply firstn_sorted.
Qed.

Lemma js_slice0_In {A} e (l : list A) x : In x (js_slice0 e l) -> In x l.
Proof.
  assert (Hf : forall n, In x (firstn n l) -> In x l).
  { intros n Hx. rewrite <- (firstn_skipn n l). apply in_or_app. now left. }
  unfold js_slice0. destruct e as [e|]; [|intros []].
  destruct (e <? 0); apply Hf.
Qed.

Lemma js_slice0_length_le {A} e (l : list A) :
  (length (js_slice0 e l) <= length l)%nat.
Proof.
  unfold js_slice0. destruct e as [e|]; simpl; [|lia].
  destruct (e <? 0); rewrite length_firstn; lia.
Qed.

Lemma map_sorted {A B} (f : A -> B) (R : B -> B -> Prop) l :
  StronglySorted (fun a b => R (f a) (f b)) l ->
  StronglySorted R (map f l).
Proof.
  induction 1 as [|x l Hs IH Hx]; simpl; constructor; [assumption|].
  rewrite List.Forall_forall in *. intros z Hz.
  apply in_map_iff in Hz as (y & <- & Hy). now apply Hx.
Qed.

Lemma sorted_weaken {A} (R R' : A -> A -> Prop) l :
  (forall a b, R a b -> R' a b) ->
  StronglySorted R l -> StronglySorted R' l.
Proof.
  intros HR. induction 1 as [|x l Hs IH Hx]; constructor; [assumption|].
  rewrite List.Forall_forall in *. intros z Hz. now apply HR, Hx.
Qed.

Lemma matchingTickets_In status agentId (m : TicketManager) t :
  In t (matchingTickets status agentId m) ->
  In t (JsMap.values (tickets m))
  /\ (forall st, status = Some st -> st <> "" -> Ticket.status t = st)
  /\ (forall a, agentId = Some a -> a <> "" ->
                Ticket.assignedAgent t = Some a).
Proof.
  unfold matchingTickets.
  set (all := JsMap.values (tickets m)).
  set (byStatus := match status with Some st => _ | None => all end).
  assert (Hst : forall x, In x byStatus ->
            In x all
            /\ forall st, status = Some st -> st <> "" ->
                          Ticket.status x = st).
  { subst byStatus. intros x. destruct status as [st|]; simpl.
    - destruct (String.eqb_spec st "") as [->|Hne]; simpl.
      + intros Hx. split; [assumption|]. now intros st' [= <-].
      + intros Hx. apply filter_In in Hx as [Hx E].
        apply String.eqb_eq in E. split; [assumption|].
        now intros st' [= <-].
    - intros Hx. split; [assumption|]. discriminate. }
  destruct agentId as [a|]; simpl.
  - destruct (String.eqb_spec a "") as [->|Hne]; simpl.
    + intros Hx. destruct (Hst t Hx) as [Hin Hs].
      split; [assumption|]. split; [assumption|]. now intros a' [= <-].
    + intros Hx. apply filter_In in Hx as [Hx E].
      destruct (Hst t Hx) as [Hin Hs].
      split; [assumption|]. split; [assumption|]. intros a' [= <-] _.
      destruct (Ticket.assignedAgent t) as [b|]; [|discriminate].
      simpl in E. apply String.eqb_eq in E. now subst.
  - intros Hx. destruct (Hst t Hx) as [Hin Hs].
    split; [assumption|]. split; [assumption|]. discriminate.
Qed.

(** X5: the page [GET /api/tickets] returns is ordered by [updatedAt],
    newest first; every entry is the summary of a stored ticket that
    passes the filters given (a ticket with the status asked for, of the
    agent asked for); the page is never longer than the list of matching
    tickets, nor than a limit that is a non-negative integer. *)
Theorem listTickets_page (status agentId : option string)
    (limit : QueryLimit) (m : TicketManager) :
  let page := fst (listTickets status agentId limit m) in
  StronglySorted newerOrSame page
  /\ (forall s, In s page ->
        exists t,
          In t (JsMap.values (tickets m))
          /\ s = getTicketSummary t
          /\ (forall st, status = Some st -> st <> "" ->
                         Ticket.status t = st)
          /\ (forall a, agentId = Some a -> a <> "" ->
                        Ticket.assignedAgent t = Some a))
  /\ (length page <= length (matchingTickets status agentId m))%nat
  /\ (forall n, parsedLimit limit = Some n -> 0 <= n ->
                Z.of_nat (length page) <= n).
Proof.
  simpl. split; [|split; [|split]].
  - apply map_sorted, js_slice0_sorted.
    apply (sorted_weaken
             (fun a b => - Ticket.updatedAt a <= - Ticket.updatedAt b)).
    { intros a b Hab. unfold newerOrSame. simpl. lia. }
    apply (js_sort_sorted newestTicketFirst
             (fun t => - Ticket.updatedAt t)).
    intros a b. unfold newestTicketFirst. lia.
  - intros s Hs. apply in_map_iff in Hs as (t & <- & Ht).
    apply js_slice0_In, js_sort_In, matchingTickets_In in Ht
      as (Hin & Hst & Hag).
    exists t. now repeat split.
  - rewrite length_map.
    etransitivity; [apply js_slice0_length_le|].
    now rewrite js_sort_length.
  - intros n Hn H0. rewrite length_map, Hn. unfold js_slice0.
    destruct (Z.ltb_spec n 0); [lia|]. rewrite length_firstn. lia.
Qed.

(** X6: the list [getAgentTickets] returns is ordered by [updatedAt],
    newest first, and holds nothing but summaries of stored tickets that
    are in the set of the agent and whose status is open or assigned;
    for an agent without a set it is empty. *)
Theorem getAgentTickets_sound (agentId : string) (m : TicketManager) :
  let list := getAgentTickets agentId m in
  StronglySorted newerOrSame list
  /\ (forall s, In s list ->
        exists set ticketId t,
          JsMap.get agentId (agentTickets m) = Some set
          /\ In ticketId set
          /\ JsMap.get ticketId (tickets m) = Some t
          /\ (Ticket.status t = "open" \/ Ticket.status t = "assigned")
          /\ s = getTicketSummary t)
  /\ (JsMap.get agentId (agentTickets m) = None -> list = []).
Proof.
  unfold getAgentTickets. split; [|split].
  - apply (sorted_weaken
             (fun a b => - Summary.updatedAt a <= - Summary.updatedAt b)).
    { intros a b Hab. unfold newerOrSame. lia. }
    apply (js_sort_sorted newestFirst (fun s => - Summary.updatedAt s)).
    intros a b. unfold newestFirst. lia.
  - intros s Hs. apply js_sort_In, in_flat_map in Hs as (ticketId & Hin & Hs).
    destruct (JsMap.get agentId (agentTickets m)) as [set|]; [|destruct Hin].
    destruct (JsMap.get ticketId (tickets m)) as [t|] eqn:Et; [|destruct Hs].
    rewrite isActive_includes in Hs.
    destruct (isActive t) eqn:Ea; [|destruct Hs].
    destruct Hs as [<-|[]]. exists set, ticketId, t.
    repeat split; try assumption. now apply isActive_status.
  - now intros ->.
Qed.

(** ** Reading a ticket *)

Lemma markRead_text (l : list Message.t) :
  map messageText (map markRead l) = map messageText l.
Proof.
  rewrite map_map. apply map_ext. intros msg. unfold markRead.
  now destruct (String.eqb (Message.sender msg) "customer").
Qed.

Lemma markRead_no_unread (l : list Message.t) :
  List.filter
    (fun msg => negb (Message.read msg)
                && String.eqb (Message.sender msg) "customer")
    (map markRead l) = [].
Proof.
  induction l as [|msg l IH]; [reflexivity|]. simpl. unfold markRead at 1 2.
  destruct (String.eqb (Message.sender msg) "customer") eqn:E; simpl.
  - exact IH.
  - rewrite E, andb_false_r. exact IH.
Qed.

(** X7: when the agent a ticket is assigned to asks for its details, the
    customer messages of the ticket become read, so that the ticket has
    no unread message left; the messages keep their number, order,
    content, sender and time, the messages of other senders keep their
    flag, and status, agent and [updatedAt] of the ticket are as before.
    The agent receives the ticket as it is after the marking. *)
Theorem get_ticket_details_marks_read (env : Env) (s : Server)
    (socket ticketId : string) (t : Ticket.t) :
  JsMap.get ticketId (tickets (ticketManager s)) = Some t ->
  sameAgent (Ticket.assignedAgent t) (JsMap.get socket (agentIdOf s)) = true ->
  exists t1,
    step env (agent_get_ticket_details socket ticketId) s
    = (mkServer
         (with_tickets (JsMap.set ticketId t1 (tickets (ticketManager s)))
                       (ticketManager s))
         (agentIdOf s),
       [to_agent socket (ticket_details t1)])
    /\ unread t1 = 0%nat
    /\ map messageText (Ticket.messages t1)
       = map messageText (Ticket.messages t)
    /\ (forall msg, In msg (Ticket.messages t) ->
          Message.sender msg <> "customer" -> In msg (Ticket.messages t1))
    /\ Ticket.status t1 = Ticket.status t
    /\ Ticket.assignedAgent t1 = Ticket.assignedAgent t
    /\ Ticket.updatedAt t1 = Ticket.updatedAt t.
Proof.
  intros Ht Hsame. simpl. unfold onGetTicketDetails. rewrite Ht, Hsame.
  eexists. split; [reflexivity|]. unfold unread. simpl.
  split; [now rewrite markRead_no_unread|].
  split; [apply markRead_text|].
  split; [|now repeat split].
  intros msg Hin Hs. apply in_map_iff. exists msg. split; [|assumption].
  unfold markRead. now destruct (String.eqb_spec (Message.sender msg) "customer").
Qed.

(** The agent of the ticket of [twoAgentsOneTicket] reads it. *)
Lemma get_ticket_details_marks_read_witness :
  exists t1,
    fst (step (sampleEnv 7) (agent_get_ticket_details "s1" "TICKET-6-1")
              twoAgentsOneTicket)
    = mkServer
        (with_tickets
           (JsMap.set "TICKET-6-1" t1
                      (tickets (ticketManager twoAgentsOneTicket)))
           (ticketManager twoAgentsOneTicket))
        (agentIdOf twoAgentsOneTicket)
    /\ unread t1 = 0%nat.
Proof.
  assert (Ht : exists t,
            JsMap.get "TICKET-6-1" (tickets (ticketManager twoAgentsOneTicket))
            = Some t
            /\ sameAgent (Ticket.assignedAgent t)
                 (JsMap.get "s1" (agentIdOf twoAgentsOneTicket)) = true).
  { eexists. split; vm_compute; reflexivity. }
  destruct Ht as (t & Ht & Hsame).
  destruct (get_ticket_details_marks_read (sampleEnv 7) twoAgentsOneTicket
              "s1" "TICKET-6-1" t Ht Hsame) as (t1 & E & Hu & _).
  exists t1. split; [now rewrite E|exact Hu].
Defined.

(** ** Authentication *)

(** X8: [authenticate] without an agent id or without a name answers
    the socket with [auth_error] and nothing else, and changes nothing:
    the socket stays unauthenticated and no agent is registered. *)
Theorem authenticate_rejects_incomplete (env : Env) (s : Server)
    (socket agentId agentName : string) (department : option string) :
  agentId = "" \/ agentName = "" ->
  step env (agent_authenticate socket agentId agentName department) s
  = (s, [to_agent socket (auth_error "Invalid credentials")]).
Proof.
  intros H. simpl. unfold onAuthenticate, truthy.
  destruct H as [-> | ->]; simpl; [reflexivity|].
  now rewrite orb_true_r.
Qed.

Lemma authenticate_rejects_incomplete_witness :
  step (sampleEnv 1) (agent_authenticate "s1" "A1" "" None) initial
  = (initial, [to_agent "s1" (auth_error "Invalid credentials")]).
Proof.
  apply authenticate_rejects_incomplete. now right.
Defined.

Lemma getAvailableAgent_finds (m : TicketManager) (a : Agent.t) :
  In a (JsMap.values (agentSockets m)) ->
  Agent.status a = "available" ->
  getAvailableAgent m <> None.
Proof.
  intros Ha Hst. unfold getAvailableAgent.
  destruct (js_sort _ _) as [|h rest] eqn:Es; [|discriminate].
  assert (Hin : In a (js_sort (byTicketCount m)
                        (List.filter isAvailable
                           (JsMap.values (agentSockets m))))).
  { apply js_sort_In, filter_In. split; [assumption|].
    unfold isAvailable. now apply String.eqb_eq. }
  rewrite Es in Hin. destruct Hin.
Qed.

(** X9: after [authenticate] with an agent id and a name, the agent is
    registered under its id as available and bound to the socket, with
    the department given or, without one, General Support; the socket is
    authenticated as that agent; [getAvailableAgent] finds an agent; and
    the tickets and both maps of the assignment index are untouched, so
    that a returning agent keeps the tickets of its earlier session. *)
Theorem authenticate_registers_available (env : Env) (s : Server)
    (socket agentId agentName : string) (department : option string) :
  agentId <> "" -> agentName <> "" ->
  let s' :=
    fst (step env (agent_authenticate socket agentId agentName department) s)
  in
  JsMap.get agentId (agentSockets (ticketManager s'))
  = Some (Agent.mk agentId socket agentName
            (match department with
             | Some d => if String.eqb d "" then "General Support" else d
             | None => "General Support"
             end)
            "available" (now env) (now env))
  /\ JsMap.get socket (agentIdOf s') = Some agentId
  /\ getAvailableAgent (ticketManager s') <> None
  /\ tickets (ticketManager s') = tickets (ticketManager s)
  /\ ticketAssignments (ticketManager s') = ticketAssignments (ticketManager s)
  /\ agentTickets (ticketManager s') = agentTickets (ticketManager s).
Proof.
  intros Hid Hname. simpl. unfold onAuthenticate, truthy.
  destruct (String.eqb_spec agentId "") as [E|_]; [contradiction|].
  destruct (String.eqb_spec agentName "") as [E|_]; [contradiction|].
  simpl.
  assert (Hget : forall info,
            JsMap.get agentId
              (JsMap.set agentId info (agentSockets (ticketManager s)))
            = Some info) by (intros; apply get_set_eq).
  split.
  - rewrite Hget. do 2 f_equal. destruct department as [d|]; [|reflexivity].
    now destruct (String.eqb d "").
  - split; [apply get_set_eq|]. split; [|now repeat split].
    eapply getAvailableAgent_finds.
    + simpl. eapply get_In_values. apply Hget.
    + reflexivity.
Qed.

Lemma authenticate_registers_available_witness :
  let s' :=
    fst (step (sampleEnv 1) (agent_authenticate "s1" "A1" "Ann" None) initial)
  in
  JsMap.get "s1" (agentIdOf s') = Some "A1"
  /\ getAvailableAgent (ticketManager s') <> None.
Proof.
  intros s'.
  destruct (authenticate_registers_available (sampleEnv 1) initial "s1" "A1"
              "Ann" None) as (_ & Hsock & Hav & _); [discriminate..|].
  split; [exact Hsock|exact Hav].
Defined.

(** ** An agent writes to its customer *)

(** X10: [send_message] from the agent a ticket is assigned to appends
    one unread message of sender agent, with the id of the agent and the
    text sent, to that ticket (status and agent of the ticket are as
    before); the socket of the customer of the ticket gets the text as a
    [chat_response] carrying the id and time of the stored message, and
    the agent gets [message_sent] with the same id and time. *)
Theorem send_message_delivers (env : Env) (s : Server)
    (socket ticketId message agent : string) (t : Ticket.t) :
  JsMap.get ticketId (tickets (ticketManager s)) = Some t ->
  JsMap.get socket (agentIdOf s) = Some agent ->
  agent <> "" ->
  Ticket.assignedAgent t = Some agent ->
  exists msg t1,
    step env (agent_send_message socket ticketId message) s
    = (mkServer
         (with_tickets (JsMap.set ticketId t1 (tickets (ticketManager s)))
                       (ticketManager s))
         (agentIdOf s),
       [to_customer (Ticket.customerSocketId t)
          (chat_response message (Message.timestamp msg) (Message.id msg)
                         "agent" "response");
        to_agent socket
          (message_sent ticketId (Message.id msg) (Message.timestamp msg))])
    /\ Ticket.messages t1 = (Ticket.messages t ++ [msg])%list
    /\ msg = Message.mk (generateMessageId env 0) message "agent"
                        (Some agent) (now env) false
    /\ Ticket.status t1 = Ticket.status t
    /\ Ticket.assignedAgent t1 = Ticket.assignedAgent t
    /\ Ticket.customerSocketId t1 = Ticket.customerSocketId t.
Proof.
  intros Ht Hsock Hne Hag. simpl. unfold onSendMessage.
  rewrite Hsock, Ht, Hag. simpl.
  destruct (String.eqb_spec agent "") as [E|_]; [contradiction|]. simpl.
  rewrite String.eqb_refl. unfold addMessage. rewrite Ht.
  eexists. eexists. split; [reflexivity|]. now repeat split.
Qed.

Lemma send_message_delivers_witness :
  exists msg,
    snd (step (sampleEnv 7) (agent_send_message "s1" "TICKET-6-1" "Hi")
              twoAgentsOneTicket)
    = [to_customer "c1"
         (chat_response "Hi" (Message.timestamp msg) (Message.id msg)
                        "agent" "response");
       to_agent "s1"
         (message_sent "TICKET-6-1" (Message.id msg) (Message.timestamp msg))]
    /\ Message.senderId msg = Some "A1".
Proof.
  assert (Ht : exists t,
            JsMap.get "TICKET-6-1" (tickets (ticketManager twoAgentsOneTicket))
            = Some t
            /\ Ticket.assignedAgent t = Some "A1"
            /\ Ticket.customerSocketId t = "c1").
  { eexists. split; [vm_compute; reflexivity|]. split; reflexivity. }
  destruct Ht as (t & Ht & Hag & Hcs).
  destruct (send_message_delivers (sampleEnv 7) twoAgentsOneTicket "s1"
              "TICKET-6-1" "Hi" "A1" t Ht)
    as (msg & t1 & E & _ & Hmsg & _); [reflexivity|discriminate|exact Hag|].
  exists msg. rewrite E, Hcs. split; [reflexivity|]. now rewrite Hmsg.
Defined.

(** ** An agent closes or re-labels its ticket *)

Lemma countStatus_set (m : TicketManager) k t t' st :
  JsMap.get k (tickets m) = Some t ->
  (countStatus st (with_tickets (JsMap.set k t' (tickets m)) m)
   + hasStatus st t
   = countStatus st m + hasStatus st t')%nat.
Proof.
  unfold countStatus, JsMap.values, hasStatus. simpl.
  induction (tickets m) as [|[k0 t0] l IH]; simpl; [discriminate|].
  destruct (String.eqb k k0); simpl.
  - intros [= ->].
    destruct (String.eqb (Ticket.status t') st),
             (String.eqb (Ticket.status t) st); simpl; lia.
  - intros H. specialize (IH H).
    destruct (String.eqb (Ticket.status t0) st); simpl; lia.
Qed.

Lemma size_set_known {V} k (v v0 : V) (m : JsMap.t V) :
  JsMap.get k m = Some v0 -> JsMap.size (JsMap.set k v m) = JsMap.size m.
Proof.
  unfold JsMap.size. induction m as [|[k' v'] m IH]; simpl; [discriminate|].
  destruct (String.eqb k k'); simpl; [reflexivity|].
  intros H. now rewrite IH.
Qed.

(** The maps after [closeTicket] on a stored ticket. *)
Lemma closeTicket_effect (env : Env) (m : TicketManager)
    (ticketId closedBy : string) (t : Ticket.t) :
  JsMap.get ticketId (tickets m) = Some t ->
  let m' := snd (closeTicket env ticketId closedBy m) in
  tickets m'
  = JsMap.set ticketId
      (Ticket.with_closed (now env) closedBy
         (Ticket.with_updatedAt (now env) (Ticket.with_status "closed" t)))
      (tickets m)
  /\ ticketAssignments m' = JsMap.delete ticketId (ticketAssignments m)
  /\ agentSockets m' = agentSockets m
  /\ customerSockets m' = customerSockets m
  /\ ticketCounter m' = ticketCounter m
  /\ (forall other, Ticket.assignedAgent t <> Some other ->
        JsMap.get other (agentTickets m') = JsMap.get other (agentTickets m)).
Proof.
  intros Ht. unfold closeTicket. rewrite Ht. simpl.
  destruct (Ticket.assignedAgent t) as [agent|]; simpl;
    [|now repeat split].
  destruct (negb (agent =? "")%string); simpl; [|now repeat split].
  destruct (JsMap.get agent (agentTickets m)); simpl; [|now repeat split].
  repeat split. intros other Hne. rewrite get_set_ne; congruence.
Qed.

(** X11: when the agent a ticket is assigned to sets its status to
    closed, the ticket is closed and stamped with the agent and the
    time, keeps its messages, and leaves [ticketAssignments]; the agent
    is told [ticket_updated] and the customer [session_closed].  In the
    statistics the number of tickets is unchanged, and for every status
    the count moves by the ticket alone: closed gains it, its previous
    status loses it. *)
Theorem agent_closes_ticket (env : Env) (s : Server)
    (socket ticketId agent : string) (t : Ticket.t) :
  JsMap.get ticketId (tickets (ticketManager s)) = Some t ->
  JsMap.get socket (agentIdOf s) = Some agent ->
  Ticket.assignedAgent t = Some agent ->
  let r := step env (agent_update_ticket_status socket ticketId "closed") s in
  let m := ticketManager s in
  let m' := ticketManager (fst r) in
  snd r
  = [to_agent socket (ticket_updated ticketId "closed" (now env));
     to_customer (Ticket.customerSocketId t)
       (chat_response closedText (now env) (generateMessageId env 0)
                      "system" "session_closed")]
  /\ (exists t1,
        JsMap.get ticketId (tickets m') = Some t1
        /\ Ticket.status t1 = "closed"
        /\ Ticket.closedBy t1 = Some agent
        /\ Ticket.closedAt t1 = Some (now env)
        /\ Ticket.messages t1 = Ticket.messages t)
  /\ JsMap.get ticketId (ticketAssignments m') = None
  /\ Stats.totalTickets (getStats m') = Stats.totalTickets (getStats m)
  /\ forall st,
       (countStatus st m' + hasStatus st t
        = countStatus st m + (if String.eqb "closed" st then 1 else 0))%nat.
Proof.
  intros Ht Hsock Hag r m m'.
  set (t0 := Ticket.with_updatedAt (now env) (Ticket.with_status "closed" t)).
  set (m0 := with_tickets (JsMap.set ticketId t0 (tickets m)) m).
  assert (Hr : r = (mkServer (snd (closeTicket env ticketId agent m0))
                             (agentIdOf s),
                    [to_agent socket
                       (ticket_updated ticketId "closed" (now env));
                     to_customer (Ticket.customerSocketId t)
                       (chat_response closedText (now env)
                          (generateMessageId env 0) "system"
                          "session_closed")])).
  { subst r. simpl. unfold onUpdateTicketStatus.
    rewrite Ht, Hsock, Hag. simpl. now rewrite String.eqb_refl. }
  assert (Ht0 : JsMap.get ticketId (tickets m0) = Some t0)
    by (subst m0; simpl; apply get_set_eq).
  destruct (closeTicket_effect env m0 ticketId agent t0 Ht0)
    as (Htk & Hta & _).
  subst m'. rewrite Hr. simpl.
  split; [reflexivity|]. split; [|split; [|split]].
  - rewrite Htk, get_set_eq. eexists. split; [reflexivity|]. now repeat split.
  - rewrite Hta. apply get_delete_eq.
  - change (JsMap.size (tickets (snd (closeTicket env ticketId agent m0)))
            = JsMap.size (tickets m)).
    rewrite Htk, (size_set_known ticketId _ t0) by assumption.
    subst m0. simpl. now rewrite (size_set_known ticketId t0 t).
  - intros st.
    pose proof (countStatus_set m ticketId t t0 st Ht) as H1. fold m0 in H1.
    pose proof (countStatus_set m0 ticketId t0
                  (Ticket.with_closed (now env) agent
                     (Ticket.with_updatedAt (now env)
                        (Ticket.with_status "closed" t0))) st Ht0) as H2.
    unfold countStatus in *. rewrite Htk. simpl in H2.
    unfold hasStatus in *. simpl in *.
    destruct (String.eqb "closed" st); lia.
Qed.

(** The agent of the ticket of [twoAgentsOneTicket] closes it: one
    assigned ticket less, one closed ticket more. *)
Lemma agent_closes_ticket_witness :
  let m := ticketManager twoAgentsOneTicket in
  let m' := ticketManager ticketClosedByAgent in
  JsMap.get "TICKET-6-1" (ticketAssignments m') = None
  /\ (countStatus "closed" m' + 0 = countStatus "closed" m + 1)%nat
  /\ (countStatus "assigned" m' + 1 = countStatus "assigned" m + 0)%nat.
Proof.
  intros m m'.
  assert (Ht : exists t,
            JsMap.get "TICKET-6-1" (tickets m) = Some t
            /\ Ticket.assignedAgent t = Some "A1"
            /\ Ticket.status t = "assigned").
  { eexists. split; [vm_compute; reflexivity|]. split; reflexivity. }
  destruct Ht as (t & Ht & Hag & Hst).
  destruct (agent_closes_ticket (sampleEnv 7) twoAgentsOneTicket "s1"
              "TICKET-6-1" "A1" t Ht eq_refl Hag)
    as (_ & _ & Hfwd & _ & Hcount).
  split; [exact Hfwd|]. split.
  - specialize (Hcount "closed"). unfold hasStatus in Hcount.
    rewrite Hst in Hcount. exact Hcount.
  - specialize (Hcount "assigned"). unfold hasStatus in Hcount.
    rewrite Hst in Hcount. exact Hcount.
Defined.

(** X12: a status other than closed that the agent of a ticket sets
    (resolved, say) is written to the ticket and reported to the agent
    with [ticket_updated], and nothing else happens: the ticket keeps
    its agent and its messages, and both maps of the assignment index
    are untouched, so the ticket goes on counting in the load of its
    agent. *)
Theorem status_update_keeps_assignment (env : Env) (s : Server)
    (socket ticketId status agent : string) (t : Ticket.t) :
  JsMap.get ticketId (tickets (ticketManager s)) = Some t ->
  JsMap.get socket (agentIdOf s) = Some agent ->
  Ticket.assignedAgent t = Some agent ->
  status <> "closed" ->
  let r := step env (agent_update_ticket_status socket ticketId status) s in
  let m := ticketManager s in
  let m' := ticketManager (fst r) in
  snd r = [to_agent socket (ticket_updated ticketId status (now env))]
  /\ (exists t1,
        JsMap.get ticketId (tickets m') = Some t1
        /\ Ticket.status t1 = status
        /\ Ticket.updatedAt t1 = now env
        /\ Ticket.assignedAgent t1 = Some agent
        /\ Ticket.closedAt t1 = Ticket.closedAt t
        /\ Ticket.messages t1 = Ticket.messages t)
  /\ ticketAssignments m' = ticketAssignments m
  /\ agentTickets m' = agentTickets m
  /\ forall other, ticketCount m' other = ticketCount m other.
Proof.
  intros Ht Hsock Hag Hst. simpl. unfold onUpdateTicketStatus.
  rewrite Ht, Hsock, Hag. simpl. rewrite String.eqb_refl.
  destruct (String.eqb_spec status "closed") as [E|_]; [contradiction|].
  simpl. split; [reflexivity|]. split; [|now repeat split].
  rewrite get_set_eq. eexists. split; [reflexivity|]. now repeat split.
Qed.

Lemma status_update_keeps_assignment_witness :
  let r :=
    step (sampleEnv 7) (agent_update_ticket_status "s1" "TICKET-6-1" "resolved")
         twoAgentsOneTicket in
  snd r = [to_agent "s1" (ticket_updated "TICKET-6-1" "resolved" 7)]
  /\ ticketCount (ticketManager (fst r)) "A1"
     = ticketCount (ticketManager twoAgentsOneTicket) "A1".
Proof.
  intros r.
  assert (Ht : exists t,
            JsMap.get "TICKET-6-1" (tickets (ticketManager twoAgentsOneTicket))
            = Some t
            /\ Ticket.assignedAgent t = Some "A1").
  { eexists. split; [vm_compute; reflexivity|reflexivity]. }
  destruct Ht as (t & Ht & Hag).
  destruct (status_update_keeps_assignment (sampleEnv 7) twoAgentsOneTicket
              "s1" "TICKET-6-1" "resolved" "A1" t Ht eq_refl Hag)
    as (Hout & _ & _ & _ & Hload); [discriminate|].
  split; [exact Hout|apply Hload].
Defined.

(** ** What the handlers leave alone *)

Lemma quiet_events_keep_tickets_aux (env : Env) (e : Event) (s : Server) :
  writesTickets e = false ->
  tickets (ticketManager (fst (step env e s))) = tickets (ticketManager s)
  /\ ticketCounter (ticketManager (fst (step env e s)))
     = ticketCounter (ticketManager s).
Proof.
  destruct e; simpl; try discriminate; intros _; try (split; reflexivity).
  - unfold onCustomerTyping.
    destruct (getTicketByCustomer _ _) as [[k t]|]; [|now split].
    now destruct (agentSocketOf _ _).
  - unfold onAuthenticate.
    now destruct (negb (truthy (Some agentId))
                  || negb (truthy (Some agentName))).
  - unfold onAgentTyping.
    destruct (JsMap.get ticketId _) as [t|]; [|now split].
    now destruct (sameAgent _ _).
  - unfold onUpdateStatus.
    destruct (JsMap.get socket (agentIdOf s)) as [agent|]; [|now split].
    now destruct (JsMap.get agent _).
  - unfold onAgentDisconnect.
    destruct (JsMap.get socket (agentIdOf s)) as [agent|]; [|now split].
    destruct (truthy (Some agent)); [|now split].
    unfold markOffline. now destruct (JsMap.get agent _).
Qed.

(** X13: tickets are written only by the handlers of [chat_message],
    [send_message], [update_ticket_status] and [get_ticket_details], and
    the two maps of the assignment index only by those of [chat_message]
    and [update_ticket_status]; no other event (connections,
    disconnections of customers and agents, typing, [authenticate],
    [update_status]) changes a ticket, creates one, or changes an
    assignment.  In particular no disconnect closes or releases a
    ticket. *)
Theorem quiet_events_keep_tickets (env : Env) (e : Event) (s : Server) :
  let m := ticketManager s in
  let m' := ticketManager (fst (step env e s)) in
  (writesTickets e = false ->
   tickets m' = tickets m /\ ticketCounter m' = ticketCounter m)
  /\ (writesIndex e = false ->
      ticketAssignments m' = ticketAssignments m
      /\ agentTickets m' = agentTickets m).
Proof.
  destruct e; simpl; (split; [try discriminate|try discriminate]);
    intros _; try (split; reflexivity).
  - unfold onCustomerTyping.
    destruct (getTicketByCustomer _ _) as [[k t]|]; [|now split].
    now destruct (agentSocketOf _ _).
  - unfold onCustomerTyping.
    destruct (getTicketByCustomer _ _) as [[k t]|]; [|now split].
    now destruct (agentSocketOf _ _).
  - unfold onAuthenticate.
    now destruct (negb (truthy (Some agentId))
                  || negb (truthy (Some agentName))).
  - unfold onAuthenticate.
    now destruct (negb (truthy (Some agentId))
                  || negb (truthy (Some agentName))).
  - unfold onSendMessage.
    destruct (JsMap.get socket (agentIdOf s)) as [agent|]; [|now split].
    destruct (negb (truthy (Some agent))); [now split|].
    destruct (JsMap.get ticketId _) as [t|] eqn:Et; [|now split].
    destruct (sameAgent _ _); [|now split].
    unfold addMessage. now rewrite Et.
  - unfold onAgentTyping.
    destruct (JsMap.get ticketId _) as [t|]; [|now split].
    now destruct (sameAgent _ _).
  - unfold onAgentTyping.
    destruct (JsMap.get ticketId _) as [t|]; [|now split].
    now destruct (sameAgent _ _).
  - unfold onUpdateStatus.
    destruct (JsMap.get socket (agentIdOf s)) as [agent|]; [|now split].
    now destruct (JsMap.get agent _).
  - unfold onUpdateStatus.
    destruct (JsMap.get socket (agentIdOf s)) as [agent|]; [|now split].
    now destruct (JsMap.get agent _).
  - unfold onGetTicketDetails.
    destruct (JsMap.get ticketId _) as [t|]; [|now split].
    now destruct (sameAgent _ _).
  - unfold onAgentDisconnect.
    destruct (JsMap.get socket (agentIdOf s)) as [agent|]; [|now split].
    destruct (truthy (Some agent)); [|now split].
    unfold markOffline. now destruct (JsMap.get agent _).
  - unfold onAgentDisconnect.
    destruct (JsMap.get socket (agentIdOf s)) as [agent|]; [|now split].
    destruct (truthy (Some agent)); [|now split].
    unfold markOffline. now destruct (JsMap.get agent _).
Qed.

(** * Further invariants *)

(** ** Keys of a map *)

Section JsMapKeys.
Context {V : Type}.
Implicit Types (m : JsMap.t V) (k : string) (v : V).

Lemma get_None_keys k m : JsMap.get k m = None <-> ~ In k (map fst m).
Proof.
  induction m as [|[k' v'] m IH]; simpl; [tauto|].
  destruct (String.eqb_spec k k') as [->|Hne].
  - split; [discriminate|]. intros H. destruct H. now left.
  - rewrite IH. split; [|tauto]. intros H [E|Hin]; [congruence|tauto].
Qed.

Lemma keys_set k v m :
  map fst (JsMap.set k v m)
  = match JsMap.get k m with
    | Some _ => map fst m
    | None => (map fst m ++ [k])%list
    end.
Proof.
  induction m as [|[k' v'] m IH]; simpl; [reflexivity|].
  destruct (String.eqb_spec k k') as [->|Hne]; simpl; [reflexivity|].
  rewrite IH. now destruct (JsMap.get k m).
Qed.

Lemma NoDup_snoc {A} (l : list A) (x : A) :
  List.NoDup l -> ~ In x l -> List.NoDup (l ++ [x]).
Proof.
  induction l as [|y l IH]; simpl; intros H Hx.
  - constructor; [intros []|constructor].
  - apply List.NoDup_cons_iff in H as [Hy H].
    apply List.NoDup_cons_iff. split; [|apply IH; tauto].
    rewrite in_app_iff. simpl. intuition congruence.
Qed.

Lemma distinct_set k v m : distinctKeys m -> distinctKeys (JsMap.set k v m).
Proof.
  unfold distinctKeys. intros H. rewrite keys_set.
  destruct (JsMap.get k m) eqn:E; [assumption|].
  apply get_None_keys in E. now apply NoDup_snoc.
Qed.

Lemma In_delete k k' v' m :
  In (k', v') (JsMap.delete k m) -> In (k', v') m /\ k' <> k.
Proof.
  induction m as [|[k0 v0] m IH]; simpl; [tauto|].
  destruct (String.eqb_spec k k0) as [->|Hne]; simpl.
  - intros H. destruct (IH H). split; [now right|assumption].
  - intros [[= -> ->]|H]; [split; [now left|congruence]|].
    destruct (IH H). split; [now right|assumption].
Qed.

Lemma distinct_delete k m : distinctKeys m -> distinctKeys (JsMap.delete k m).
Proof.
  unfold distinctKeys. induction m as [|[k0 v0] m IH]; simpl; [trivial|].
  intros H. apply List.NoDup_cons_iff in H as [Hk H].
  destruct (String.eqb k k0); simpl; [now apply IH|].
  apply List.NoDup_cons_iff. split; [|now apply IH].
  intros Hin. apply Hk. apply in_map_iff in Hin as ([k1 v1] & E & Hin).
  simpl in E. subst k1. apply In_delete in Hin as [Hin _].
  now apply (in_map fst) in Hin.
Qed.

Lemma In_set k v k' v' m :
  distinctKeys m ->
  In (k', v') (JsMap.set k v m) ->
  (k' = k /\ v' = v) \/ (k' <> k /\ In (k', v') m).
Proof.
  unfold distinctKeys. induction m as [|[k0 v0] m IH]; simpl.
  - intros _ [[= <- <-]|[]]. now left.
  - intros H. apply List.NoDup_cons_iff in H as [Hk H].
    destruct (String.eqb_spec k k0) as [->|Hne]; simpl.
    + intros [[= <- <-]|Hin]; [now left|]. right.
      split; [|now right]. intros ->. apply Hk.
      now apply (in_map fst) in Hin.
    + intros [[= <- <-]|Hin]; [right; split; [congruence|now left]|].
      destruct (IH H Hin) as [?|[? ?]]; [now left|].
      right. split; [assumption|now right].
Qed.

Lemma distinct_In_get k v m :
  distinctKeys m -> In (k, v) m -> JsMap.get k m = Some v.
Proof.
  unfold distinctKeys. induction m as [|[k0 v0] m IH]; simpl; [tauto|].
  intros H. apply List.NoDup_cons_iff in H as [Hk H].
  intros [[= -> ->]|Hin]; [now rewrite String.eqb_refl|].
  destruct (String.eqb_spec k k0) as [->|Hne]; [|now apply IH].
  destruct Hk. now apply (in_map fst) in Hin.
Qed.

Lemma size_set k v m :
  JsMap.size (JsMap.set k v m)
  = match JsMap.get k m with
    | Some _ => JsMap.size m
    | None => S (JsMap.size m)
    end.
Proof.
  unfold JsMap.size. rewrite <- !(length_map fst), keys_set.
  destruct (JsMap.get k m); [reflexivity|]. rewrite length_app. simpl. lia.
Qed.
End JsMapKeys.

Lemma values_In {V} (x : V) (m : JsMap.t V) :
  In x (JsMap.values m) -> exists k, In (k, x) m.
Proof.
  unfold JsMap.values. intros H. apply in_map_iff in H as ([k v] & E & Hin).
  simpl in E. subst v. now exists k.
Qed.

(** ** Preservation *)

(** A step on the tickets that keeps their keys. *)
Lemma registryOk_sameKeys (m m' : TicketManager) :
  registryOk m ->
  map fst (tickets m') = map fst (tickets m) ->
  agentSockets m' = agentSockets m ->
  ticketCounter m' = ticketCounter m ->
  (forall a s k, JsMap.get a (agentTickets m') = Some s ->
     JsSet.has k s = true ->
     In k (map fst (tickets m))
     \/ exists s0, JsMap.get a (agentTickets m) = Some s0
                   /\ JsSet.has k s0 = true) ->
  registryOk m'.
Proof.
  intros (Hd & Hda & Hk & Hs & Hn) Ekeys Eag Ecnt Hsets.
  unfold registryOk, distinctKeys, agentsKeyed, setsKnown, JsMap.size.
  rewrite <- (length_map fst (tickets m')), Ekeys, Eag, Ecnt, length_map.
  repeat split; try assumption.
  intros a s k Ha Hin. destruct (Hsets a s k Ha Hin) as [H|(s0 & H0 & Hin0)];
    [assumption|]. now apply (Hs a s0 k).
Qed.

Lemma registryOk_updateTicket (m : TicketManager) k t t' :
  registryOk m -> JsMap.get k (tickets m) = Some t ->
  registryOk (with_tickets (JsMap.set k t' (tickets m)) m).
Proof.
  intros H Hk. apply (registryOk_sameKeys m); try easy.
  - simpl. now rewrite keys_set, Hk.
  - intros a s k0 Ha Hin. right. now exists s.
Qed.

Lemma registryOk_addMessage env ticketId content sender senderId
    (m : TicketManager) :
  registryOk m ->
  registryOk (snd (addMessage env ticketId content sender senderId m)).
Proof.
  intros H. unfold addMessage.
  destruct (JsMap.get ticketId (tickets m)) as [t|] eqn:Et; [|assumption].
  simpl. now apply (registryOk_updateTicket m ticketId t).
Qed.

Lemma registryOk_createTicket env customerId customerSocketId initialMessage
    (m : TicketManager) :
  registryOk m -> consistent m ->
  registryOk
    (snd (createTicket env customerId customerSocketId initialMessage m)).
Proof.
  intros (Hd & Hda & Hk & Hs & Hn) (_ & _ & _ & Hfr & _).
  unfold createTicket. simpl.
  set (ticketId := generateTicketId env (ticketCounter m)).
  assert (Hnew : JsMap.get ticketId (tickets m) = None).
  { destruct (JsMap.get ticketId (tickets m)) as [t|] eqn:E; [|reflexivity].
    destruct (Hfr ticketId t E) as (env' & c & E' & Hc).
    apply generateTicketId_counter in E'. lia. }
  unfold registryOk, distinctKeys, agentsKeyed, setsKnown. simpl.
  rewrite size_set, Hnew, keys_set, Hnew.
  repeat split; try assumption.
  - apply (distinct_set ticketId) with (v := Ticket.mk ticketId customerId
      customerSocketId "open" "normal" None (now env) (now env) [] (now env)
      (now env) None None) in Hd.
    unfold distinctKeys in Hd. now rewrite keys_set, Hnew in Hd.
  - intros a s k Ha Hin. apply in_or_app. left. now apply (Hs a s k).
  - now rewrite Hn.
Qed.

Lemma registryOk_assignTicket env ticketId agentId (m : TicketManager) :
  registryOk m ->
  registryOk (snd (assignTicket env ticketId agentId m)).
Proof.
  intros H.
  destruct (JsMap.get ticketId (tickets m)) as [t|] eqn:Et;
    [|unfold assignTicket; now rewrite Et].
  destruct (JsMap.get agentId (agentSockets m)) as [agent|] eqn:Ea;
    [|unfold assignTicket; now rewrite Et, Ea].
  destruct (assignTicket_effect env m ticketId agentId t agent Et Ea)
    as (Htk & _ & Hset & Hother & Hag & _ & Hcnt).
  apply (registryOk_sameKeys m); try assumption.
  - now rewrite Htk, keys_set, Et.
  - intros a s k Ha Hin.
    destruct (String.eqb_spec a agentId) as [->|Hne].
    + rewrite Hset in Ha. injection Ha as <-.
      apply set_has_add in Hin as [->|Hin].
      * left. destruct (In_dec string_dec ticketId (map fst (tickets m)))
          as [Hi|Hi]; [assumption|].
        apply get_None_keys in Hi. congruence.
      * destruct (JsMap.get agentId (agentTickets m)) as [s0|];
          [right; now exists s0|discriminate].
    + right. exists s. now rewrite <- Hother.
Qed.

Lemma registryOk_closeTicket env ticketId closedBy (m : TicketManager) :
  registryOk m ->
  registryOk (snd (closeTicket env ticketId closedBy m)).
Proof.
  intros H. unfold closeTicket.
  destruct (JsMap.get ticketId (tickets m)) as [t|] eqn:Et; [|assumption].
  assert (Hkeys : map fst
                    (JsMap.set ticketId
                       (Ticket.with_closed (now env) closedBy
                          (Ticket.with_updatedAt (now env)
                             (Ticket.with_status "closed" t)))
                       (tickets m)) = map fst (tickets m))
    by now rewrite keys_set, Et.
  assert (Hsame : forall a s k, JsMap.get a (agentTickets m) = Some s ->
            JsSet.has k s = true ->
            In k (map fst (tickets m))
            \/ exists s0, JsMap.get a (agentTickets m) = Some s0
                          /\ JsSet.has k s0 = true).
  { intros a s k Ha Hin. right. now exists s. }
  simpl. destruct (Ticket.assignedAgent t) as [agent|]; simpl;
    [|now apply (registryOk_sameKeys m)].
  destruct (negb (agent =? "")%string); simpl;
    [|now apply (registryOk_sameKeys m)].
  destruct (JsMap.get agent (agentTickets m)) as [s1|] eqn:Es; simpl;
    [|now apply (registryOk_sameKeys m)].
  apply (registryOk_sameKeys m); try easy.
  intros a s k. simpl. rewrite get_set.
  destruct (String.eqb_spec agent a) as [->|Hne].
  - intros [= <-] Hin. apply set_has_delete in Hin as [_ Hin].
    right. now exists s1.
  - intros Ha Hin. right. now exists s.
Qed.

Lemma registryOk_agentSockets (m : TicketManager) v :
  registryOk m ->
  distinctKeys v ->
  (forall k info, In (k, info) v -> Agent.id info = k) ->
  registryOk (with_agentSockets v m).
Proof.
  intros (Hd & Hda & Hk & Hs & Hn) Hv Hkeyed. now repeat split.
Qed.

Lemma registryOk_setAgent (m : TicketManager) k info :
  registryOk m -> Agent.id info = k ->
  registryOk (with_agentSockets (JsMap.set k info (agentSockets m)) m).
Proof.
  intros H Eid. pose proof H as (_ & Hda & Hk & _).
  apply registryOk_agentSockets; [assumption|now apply distinct_set|].
  intros k0 info0 Hin.
  destruct (In_set _ _ _ _ _ Hda Hin) as [[-> ->]|[_ Hin']];
    [assumption|now apply Hk].
Qed.

Lemma registryOk_deleteAgent (m : TicketManager) k :
  registryOk m ->
  registryOk (with_agentSockets (JsMap.delete k (agentSockets m)) m).
Proof.
  intros H. pose proof H as (_ & Hda & Hk & _).
  apply registryOk_agentSockets; [assumption|now apply distinct_delete|].
  intros k0 info0 Hin. apply In_delete in Hin as [Hin _]. now apply Hk.
Qed.

Lemma get_agent_id (m : TicketManager) k info :
  registryOk m -> JsMap.get k (agentSockets m) = Some info ->
  Agent.id info = k.
Proof. intros (_ & _ & Hk & _) H. now apply Hk, get_In. Qed.

Lemma step_registryOk env e (s : Server) :
  consistent (ticketManager s) ->
  registryOk (ticketManager s) ->
  registryOk (ticketManager (fst (step env e s))).
Proof.
  intros Hc H. destruct e; simpl; try exact H.
  - unfold onChatMessage.
    set (m1 := match JsMap.get socket (customerSockets (ticketManager s)) with
               | Some info => _
               | None => _
               end).
    assert (H1 : consistent m1 /\ registryOk m1).
    { subst m1. destruct (JsMap.get socket _); split; assumption. }
    clearbody m1. destruct H1 as [Hc1 H1].
    assert (Hroute : forall key found m2,
              registryOk m2 ->
              registryOk
                (ticketManager
                   (fst (routeChatMessage env socket message callback
                                          (agentIdOf s) key found m2)))).
    { intros key found m2 H2. unfold routeChatMessage.
      set (ticket := default found _). clearbody ticket. cbv zeta.
      destruct (String.eqb (Ticket.status ticket) "open").
      - destruct (getAvailableAgent m2) as [ag|]; simpl; [|assumption].
        now apply registryOk_assignTicket.
      - destruct (_ && _); [|assumption].
        destruct (Ticket.assignedAgent ticket) as [ag|]; [|assumption].
        now destruct (JsMap.get ag (agentSockets m2)). }
    destruct (getTicketByCustomer socket m1) as [[k t]|].
    + apply Hroute. now apply registryOk_addMessage.
    + pose proof (registryOk_createTicket env socket socket (Some message) m1
                    H1 Hc1) as H2.
      destruct (createTicket env socket socket (Some message) m1) as [t m'].
      now apply Hroute.
  - unfold onCustomerTyping.
    destruct (getTicketByCustomer _ _) as [[k t]|]; [|assumption].
    now destruct (agentSocketOf _ _).
  - unfold onAuthenticate.
    destruct (negb (truthy (Some agentId))
              || negb (truthy (Some agentName))); [assumption|].
    simpl. now apply registryOk_setAgent.
  - unfold onSendMessage.
    destruct (JsMap.get socket (agentIdOf s)) as [agent|]; [|assumption].
    destruct (negb (truthy (Some agent))); [assumption|].
    destruct (JsMap.get ticketId _) as [t|]; [|assumption].
    destruct (sameAgent _ _); [|assumption].
    pose proof (registryOk_addMessage env ticketId message "agent"
                  (Some agent) (ticketManager s) H) as Hm.
    now destruct (addMessage _ _ _ _ _ _) as [[msg|] m1].
  - unfold onAgentTyping.
    destruct (JsMap.get ticketId _) as [t|]; [|assumption].
    now destruct (sameAgent _ _).
  - unfold onUpdateTicketStatus.
    destruct (JsMap.get ticketId (tickets (ticketManager s))) as [t|] eqn:Et;
      [|assumption].
    destruct (JsMap.get socket (agentIdOf s)) as [agent|]; [|assumption].
    destruct (sameAgent _ _); [|assumption].
    pose proof (registryOk_updateTicket (ticketManager s) ticketId t
                  (Ticket.with_updatedAt (now env)
                     (Ticket.with_status status t)) H Et) as H1.
    destruct (String.eqb status "closed"); simpl; [|assumption].
    now apply registryOk_closeTicket.
  - unfold onUpdateStatus.
    destruct (JsMap.get socket (agentIdOf s)) as [agent|]; [|assumption].
    destruct (JsMap.get agent _) as [info|] eqn:Ei; [|assumption].
    simpl. apply registryOk_setAgent; [assumption|].
    simpl. now apply (get_agent_id (ticketManager s)).
  - unfold onGetTicketDetails.
    destruct (JsMap.get ticketId _) as [t|] eqn:Et; [|assumption].
    destruct (sameAgent _ _); [|assumption].
    simpl. now apply (registryOk_updateTicket _ ticketId t).
  - unfold onAgentDisconnect.
    destruct (JsMap.get socket (agentIdOf s)) as [agent|]; [|assumption].
    destruct (truthy (Some agent)); [|assumption].
    assert (Hm : registryOk (fst (markOffline socket agent (ticketManager s)))).
    { unfold markOffline.
      destruct (JsMap.get agent _) as [info|] eqn:Ei; [|assumption].
      simpl. apply registryOk_setAgent; [assumption|].
      simpl. now apply (get_agent_id (ticketManager s)). }
    destruct (markOffline socket agent (ticketManager s)) as [m1 outs].
    simpl in *. now apply registryOk_deleteAgent.
Qed.

Lemma run_invariants trace (s : Server) :
  consistent (ticketManager s) -> registryOk (ticketManager s) ->
  consistent (ticketManager (run trace s))
  /\ registryOk (ticketManager (run trace s)).
Proof.
  revert s. induction trace as [|[env e] rest IH]; intros s Hc H;
    [now split|].
  simpl. apply IH; [now apply step_consistent|now apply step_registryOk].
Qed.

Lemma initial_registryOk : registryOk (ticketManager initial).
Proof.
  repeat split; try constructor.
  - intros k info [].
  - intros a s k H. discriminate H.
Qed.

Lemma reachable_invariants trace :
  consistent (ticketManager (run trace initial))
  /\ registryOk (ticketManager (run trace initial)).
Proof.
  apply run_invariants; [apply initial_consistent|apply initial_registryOk].
Qed.

(** ** Tickets are stored once and for all *)

(** X14: in every state the server reaches, the keys of [tickets] are
    pairwise distinct and each ticket is stored under its own id; no
    ticket is ever removed or replaced by another: the number of
    tickets, which [getStats] reports as [totalTickets], is the number
    of ids generated so far, [ticketCounter - 1]. *)
Theorem tickets_stored_once (trace : list (Env * Event)) :
  let m := ticketManager (run trace initial) in
  List.NoDup (map fst (tickets m))
  /\ (forall k t, In (k, t) (tickets m) ->
        Ticket.id t = k /\ JsMap.get k (tickets m) = Some t)
  /\ S (Stats.totalTickets (getStats m)) = ticketCounter m.
Proof.
  intros m.
  destruct (reachable_invariants trace)
    as ((_ & Hid & _) & (Hd & _ & _ & _ & Hn)).
  fold m in Hid, Hd, Hn. split; [exact Hd|]. split; [|exact Hn].
  intros k t Hin. pose proof (distinct_In_get k t _ Hd Hin) as Hg.
  split; [now apply Hid|exact Hg].
Qed.

(** ** Who is offered a ticket *)

(** In a reachable state the agent that is picked is registered under
    its id. *)
Lemma picked_is_registered (m : TicketManager) (ag : Agent.t) :
  registryOk m -> getAvailableAgent m = Some ag ->
  JsMap.get (Agent.id ag) (agentSockets m) = Some ag
  /\ Agent.status ag = "available".
Proof.
  intros (_ & Hda & Hk & _) Hpick.
  apply getAvailableAgent_some in Hpick as [Hin Hav].
  apply String.eqb_eq in Hav. split; [|assumption].
  apply values_In in Hin as [k Hin]. rewrite (Hk k ag Hin).
  now apply distinct_In_get.
Qed.

Lemma not_picked (m : TicketManager) (agent : string) :
  registryOk m ->
  (forall info, JsMap.get agent (agentSockets m) = Some info ->
                Agent.status info <> "available") ->
  match getAvailableAgent m with
  | Some ag => Agent.id ag <> agent
  | None => True
  end.
Proof.
  intros H Hoff. destruct (getAvailableAgent m) as [ag|] eqn:E; [|trivial].
  destruct (picked_is_registered m ag H E) as [Hg Hav].
  intros Eid. rewrite Eid in Hg. now destruct (Hoff ag Hg).
Qed.

(** X15: after the socket of an agent has disconnected, that agent is
    not the one [getAvailableAgent] picks: no new ticket goes to an
    agent that has left, until it authenticates again. *)
Theorem disconnected_agent_not_offered (trace : list (Env * Event))
    (env : Env) (socket agent : string) :
  let s := run trace initial in
  JsMap.get socket (agentIdOf s) = Some agent ->
  match getAvailableAgent
          (ticketManager (fst (step env (agent_disconnect socket) s))) with
  | Some ag => Agent.id ag <> agent
  | None => True
  end.
Proof.
  intros s Hsock.
  destruct (reachable_invariants trace) as [Hc H]. fold s in Hc, H.
  pose proof (step_consistent env (agent_disconnect socket) s Hc) as Hc'.
  pose proof (step_registryOk env (agent_disconnect socket) s Hc H) as H'.
  destruct (String.eqb_spec agent "") as [->|Hne].
  - destruct (getAvailableAgent _) as [ag|] eqn:E; [|trivial].
    apply getAvailableAgent_some in E as [Hin _].
    destruct Hc' as (_ & _ & _ & _ & Hag). now apply Hag.
  - apply not_picked; [assumption|].
    intros info. simpl. unfold onAgentDisconnect. rewrite Hsock. simpl.
    destruct (String.eqb_spec agent "") as [E|_]; [contradiction|]. simpl.
    destruct (markOffline socket agent (ticketManager s)) as [m1 outs].
    simpl. now rewrite get_delete_eq.
Qed.

(** Agent A1 leaves: the next ticket would go to A2. *)
Lemma disconnected_agent_not_offered_witness :
  exists ag,
    getAvailableAgent
      (ticketManager
         (fst (step (sampleEnv 7) (agent_disconnect "s1") twoAgentsOneTicket)))
    = Some ag
    /\ Agent.id ag <> "A1".
Proof.
  pose proof (disconnected_agent_not_offered
                [(sampleEnv 1, agent_connection "s1");
                 (sampleEnv 2, agent_authenticate "s1" "A1" "Ann" None);
                 (sampleEnv 3, agent_connection "s2");
                 (sampleEnv 4, agent_authenticate "s2" "A2" "Bo" None);
                 (sampleEnv 5, customer_connection "c1");
                 (sampleEnv 6, customer_chat_message "c1" "Hello" true)]
                (sampleEnv 7) "s1" "A1") as H.
  cbv zeta in H. fold twoAgentsOneTicket in H.
  destruct (getAvailableAgent _) as [ag|] eqn:E.
  - exists ag. split; [reflexivity|]. apply H. vm_compute. reflexivity.
  - exfalso. vm_compute in E. discriminate E.
Defined.

(** X16: after an agent has set its own status to anything but
    available (busy, away), it is not the one [getAvailableAgent]
    picks. *)
Theorem unavailable_agent_not_offered (trace : list (Env * Event))
    (env : Env) (socket agent status : string) :
  let s := run trace initial in
  JsMap.get socket (agentIdOf s) = Some agent ->
  status <> "available" ->
  match getAvailableAgent
          (ticketManager (fst (step env (agent_update_status socket status) s)))
  with
  | Some ag => Agent.id ag <> agent
  | None => True
  end.
Proof.
  intros s Hsock Hst.
  destruct (reachable_invariants trace) as [Hc H]. fold s in Hc, H.
  pose proof (step_registryOk env (agent_update_status socket status) s Hc H)
    as H'.
  apply not_picked; [assumption|].
  intros info. simpl. unfold onUpdateStatus. rewrite Hsock.
  destruct (JsMap.get agent (agentSockets (ticketManager s))) as [old|] eqn:Eo;
    simpl.
  - rewrite get_set_eq. now intros [= <-].
  - now rewrite Eo.
Qed.

(** Agent A2 goes away: the next ticket would go to A1. *)
Lemma unavailable_agent_not_offered_witness :
  exists ag,
    getAvailableAgent
      (ticketManager
         (fst (step (sampleEnv 7) (agent_update_status "s2" "away")
                    twoAgentsOneTicket)))
    = Some ag
    /\ Agent.id ag <> "A2".
Proof.
  pose proof (unavailable_agent_not_offered
                [(sampleEnv 1, agent_connection "s1");
                 (sampleEnv 2, agent_authenticate "s1" "A1" "Ann" None);
                 (sampleEnv 3, agent_connection "s2");
                 (sampleEnv 4, agent_authenticate "s2" "A2" "Bo" None);
                 (sampleEnv 5, customer_connection "c1");
                 (sampleEnv 6, customer_chat_message "c1" "Hello" true)]
                (sampleEnv 7) "s2" "A2" "away") as H.
  cbv zeta in H. fold twoAgentsOneTicket in H.
  destruct (getAvailableAgent _) as [ag|] eqn:E.
  - exists ag. split; [reflexivity|]. apply H; [|discriminate].
    vm_compute. reflexivity.
  - exfalso. vm_compute in E. discriminate E.
Defined.

(** ** A first message when an agent is available *)

Lemma fresh_ticket_id env (m : TicketManager) :
  consistent m ->
  JsMap.get (generateTicketId env (ticketCounter m)) (tickets m) = None.
Proof.
  intros (_ & _ & _ & Hfr & _).
  destruct (JsMap.get _ (tickets m)) as [t|] eqn:E; [|reflexivity].
  destruct (Hfr _ t E) as (env' & c & E' & Hc).
  apply generateTicketId_counter in E'. lia.
Qed.

(** The state in which [chat_message] looks for the ticket of the
    customer: only [customerSockets] may differ from the state before. *)
Lemma stamped_customer_same (m : TicketManager) (socket : string) (now : Z) :
  forall m1,
    m1 = match JsMap.get socket (customerSockets m) with
         | Some info =>
             with_customerSockets
               (JsMap.set socket
                  (Customer.mk (Customer.id info) (Customer.connectedAt info)
                               now)
                  (customerSockets m)) m
         | None => m
         end ->
    tickets m1 = tickets m /\ agentSockets m1 = agentSockets m
    /\ ticketAssignments m1 = ticketAssignments m
    /\ agentTickets m1 = agentTickets m
    /\ ticketCounter m1 = ticketCounter m
    /\ getAvailableAgent m1 = getAvailableAgent m
    /\ getTicketByCustomer socket m1 = getTicketByCustomer socket m
    /\ (consistent m -> consistent m1)
    /\ (registryOk m -> registryOk m1).
Proof.
  intros m1 ->.
  destruct (JsMap.get socket (customerSockets m));
    (do 7 (split; [reflexivity|]); split; intros Hx; exact Hx).
Qed.

(** The routing of a message whose ticket is open, while an agent is
    available. *)
Lemma route_open_assigns env socket message callback agentIds key found
    (t0 : Ticket.t) (m2 : TicketManager) (ag : Agent.t) :
  JsMap.get key (tickets m2) = Some t0 ->
  Ticket.status t0 = "open" ->
  Ticket.id t0 = key ->
  getAvailableAgent m2 = Some ag ->
  let m3 := snd (assignTicket env key (Agent.id ag) m2) in
  routeChatMessage env socket message callback agentIds key found m2
  = (mkServer m3 agentIds,
     ((if callback
       then [ack socket "received" (generateMessageId env 1) (now env) key]
       else []) ++
      [to_agent (Agent.socketId ag)
         (new_ticket
            (getTicketSummary (default t0 (JsMap.get key (tickets m3))))
            message (now env));
       to_customer socket
         (chat_response connectingText (now env) (generateMessageId env 2)
                        "system" "agent_connecting")])%list).
Proof.
  intros Hk Hst Hid Hpick. unfold routeChatMessage.
  rewrite Hk. simpl default. rewrite Hst, Hid, Hpick. reflexivity.
Qed.

(** X17: in every state the server reaches, the first message of a
    customer socket that has no open or assigned ticket, sent while
    [getAvailableAgent] picks an agent, creates a ticket under the next
    generated id and assigns it to that agent: the ticket is assigned,
    names the agent and is entered in [ticketAssignments]; the load of
    the agent grows by one; the socket of the agent gets [new_ticket]
    with the summary of the ticket and the customer is told that an
    agent is connecting.  A message that is not empty is the one unread
    message of the ticket. *)
Theorem first_message_with_agent (trace : list (Env * Event)) (env : Env)
    (socket message : string) (callback : bool) (ag : Agent.t) :
  let s := run trace initial in
  let m := ticketManager s in
  getTicketByCustomer socket m = None ->
  getAvailableAgent m = Some ag ->
  let r := step env (customer_chat_message socket message callback) s in
  let m' := ticketManager (fst r) in
  let ticketId := generateTicketId env (ticketCounter m) in
  exists t,
    JsMap.get ticketId (tickets m') = Some t
    /\ Ticket.status t = "assigned"
    /\ Ticket.assignedAgent t = Some (Agent.id ag)
    /\ Ticket.customerSocketId t = socket
    /\ JsMap.get ticketId (ticketAssignments m') = Some (Agent.id ag)
    /\ ticketCount m' (Agent.id ag) = S (ticketCount m (Agent.id ag))
    /\ In (to_agent (Agent.socketId ag)
             (new_ticket (getTicketSummary t) message (now env))) (snd r)
    /\ In (to_customer socket
             (chat_response connectingText (now env)
                            (generateMessageId env 2) "system"
                            "agent_connecting")) (snd r)
    /\ (message <> "" ->
        unread t = 1%nat /\ length (Ticket.messages t) = 1%nat).
Proof.
  intros s m Hnone Hpick r m' ticketId.
  destruct (reachable_invariants trace) as [Hc H]. fold s m in Hc, H.
  subst r m'. simpl. unfold onChatMessage. fold m.
  set (m1 := match JsMap.get socket (customerSockets m) with
             | Some info => _
             | None => _
             end).
  destruct (stamped_customer_same m socket (now env) m1 eq_refl)
    as (Et & Ea & Eta & Eat & Ec & Eav & Eg & Hc1 & H1).
  specialize (Hc1 Hc). specialize (H1 H). clearbody m1.
  rewrite Eg, Hnone. unfold createTicket. rewrite Ec. fold ticketId.
  set (t0 := Ticket.mk ticketId socket socket "open" "normal" None
                       (now env) (now env) _ (now env) (now env) None None).
  set (m2 := with_ticketCounter _ _).
  assert (Hnew : JsMap.get ticketId (tickets m1) = None).
  { subst ticketId. rewrite <- Ec. now apply fresh_ticket_id. }
  assert (Ht0 : JsMap.get ticketId (tickets m2) = Some t0)
    by (subst m2; simpl; apply get_set_eq).
  assert (Hpick2 : getAvailableAgent m2 = Some ag)
    by (rewrite <- Hpick, <- Eav; reflexivity).
  destruct (picked_is_registered m1 ag H1) as [Hreg _];
    [now rewrite Eav|].
  assert (Hreg2 : JsMap.get (Agent.id ag) (agentSockets m2) = Some ag)
    by exact Hreg.
  destruct (assignTicket_effect env m2 ticketId (Agent.id ag) t0 ag Ht0 Hreg2)
    as (Htk & Hfwd & Hset & _).
  cbv beta iota. change (Ticket.id t0) with ticketId.
  rewrite (route_open_assigns env socket message callback (agentIdOf s)
             ticketId t0 t0 m2 ag Ht0 eq_refl eq_refl Hpick2).
  simpl fst. simpl snd. simpl ticketManager.
  rewrite Htk, get_set_eq. simpl default.
  eexists. split; [reflexivity|]. simpl.
  split; [reflexivity|]. split; [reflexivity|]. split; [reflexivity|].
  split; [rewrite Hfwd; apply get_set_eq|].
  split; [|split; [|split]].
  - unfold ticketCount. rewrite Hset.
    change (agentTickets m2) with (agentTickets m1). rewrite Eat.
    assert (Hfresh : forall s0,
              JsMap.get (Agent.id ag) (agentTickets m) = Some s0 ->
              JsSet.has ticketId s0 = false).
    { intros s0 Hs0. destruct (JsSet.has ticketId s0) eqn:E; [|reflexivity].
      destruct H as (_ & _ & _ & Hk & _).
      apply (Hk _ _ _ Hs0) in E. rewrite <- Et in E.
      apply get_None_keys in Hnew. contradiction. }
    destruct (JsMap.get (Agent.id ag) (agentTickets m)) as [s0|]; simpl.
    + unfold JsSet.add, JsSet.size. rewrite (Hfresh s0 eq_refl).
      rewrite length_app. simpl. lia.
    + reflexivity.
  - apply in_or_app. right. now left.
  - apply in_or_app. right. right. now left.
  - intros Hne. subst t0. unfold unread. simpl.
    destruct (String.eqb_spec message "") as [E|_]; [contradiction|].
    simpl. split; reflexivity.
Qed.

(** Agent A1 is online when customer c1 writes for the first time. *)
Lemma first_message_with_agent_witness :
  exists t,
    JsMap.get "TICKET-6-1" (tickets (ticketManager twoAgentsOneTicket))
    = Some t
    /\ Ticket.assignedAgent t = Some "A1"
    /\ unread t = 1%nat.
Proof.
  assert (Hag : exists ag,
            getAvailableAgent
              (ticketManager
                 (run [(sampleEnv 1, agent_connection "s1");
                       (sampleEnv 2, agent_authenticate "s1" "A1" "Ann" None);
                       (sampleEnv 3, agent_connection "s2");
                       (sampleEnv 4, agent_authenticate "s2" "A2" "Bo" None);
                       (sampleEnv 5, customer_connection "c1")] initial))
            = Some ag /\ Agent.id ag = "A1").
  { eexists. split; [vm_compute; reflexivity|reflexivity]. }
  destruct Hag as (ag & Hpick & Hid).
  destruct (first_message_with_agent
              [(sampleEnv 1, agent_connection "s1");
               (sampleEnv 2, agent_authenticate "s1" "A1" "Ann" None);
               (sampleEnv 3, agent_connection "s2");
               (sampleEnv 4, agent_authenticate "s2" "A2" "Bo" None);
               (sampleEnv 5, customer_connection "c1")]
              (sampleEnv 6) "c1" "Hello" true ag)
    as (t & Ht & _ & Hagent & _ & _ & _ & _ & _ & Hunread).
  - vm_compute. reflexivity.
  - exact Hpick.
  - exists t. split.
    + assert (Eid : generateTicketId (sampleEnv 6) 1 = "TICKET-6-1")
        by (vm_compute; reflexivity).
      rewrite <- Eid. exact Ht.
    + split; [now rewrite Hagent, Hid|]. apply Hunread. discriminate.
Defined.

(** ** Further messages of a customer *)

(** In a reachable state the ticket [getTicketByCustomer] returns is
    the one stored under the key it is returned with, which is its id. *)
Lemma found_ticket_is_stored (m : TicketManager) socket k t :
  consistent m -> registryOk m ->
  getTicketByCustomer socket m = Some (k, t) ->
  JsMap.get k (tickets m) = Some t /\ Ticket.id t = k.
Proof.
  intros (_ & Hid & _) (Hd & _) Hf. unfold getTicketByCustomer in Hf.
  apply find_some in Hf as [Hin _].
  pose proof (distinct_In_get k t _ Hd Hin) as Hg.
  split; [assumption|now apply Hid].
Qed.

(** X18: in every state the server reaches, a message of a customer
    whose ticket is assigned creates no ticket: it is appended to that
    ticket, as an unread message of the customer, the assignment index
    is untouched, and the message is forwarded as [customer_message] to
    the socket the agent of the ticket is registered with.  When that
    agent is not registered (it has disconnected), the message is stored
    all the same and nothing is forwarded. *)
Theorem follow_up_message_forwarded (trace : list (Env * Event)) (env : Env)
    (socket message : string) (callback : bool) (k : string) (t : Ticket.t) :
  let s := run trace initial in
  let m := ticketManager s in
  getTicketByCustomer socket m = Some (k, t) ->
  Ticket.status t = "assigned" ->
  let r := step env (customer_chat_message socket message callback) s in
  let m' := ticketManager (fst r) in
  tickets m'
  = JsMap.set k
      (Ticket.with_updatedAt (now env)
         (Ticket.with_messages
            (Ticket.messages t
             ++ [Message.mk (generateMessageId env 0) message "customer" None
                            (now env) false])%list t))
      (tickets m)
  /\ ticketCounter m' = ticketCounter m
  /\ ticketAssignments m' = ticketAssignments m
  /\ agentTickets m' = agentTickets m
  /\ exists agent,
       Ticket.assignedAgent t = Some agent
       /\ snd r
          = ((if callback
              then [ack socket "received" (generateMessageId env 1) (now env)
                        k]
              else []) ++
             match JsMap.get agent (agentSockets m) with
             | Some info =>
                 [to_agent (Agent.socketId info)
                    (customer_message k message (now env)
                                      (generateMessageId env 2) socket)]
             | None => []
             end)%list.
Proof.
  intros s m Hfound Hst r m'.
  destruct (reachable_invariants trace) as [Hc H]. fold s m in Hc, H.
  destruct (found_ticket_is_stored m socket k t Hc H Hfound) as [Hk Hid].
  assert (Hagent : exists agent,
            Ticket.assignedAgent t = Some agent /\ agent <> "").
  { destruct Hc as (Hok & _). destruct (Hok k t Hk) as [Ha Hne].
    specialize (Ha Hst). destruct (Ticket.assignedAgent t) as [a|];
      [|contradiction].
    exists a. split; [reflexivity|]. intros ->. now apply Hne. }
  destruct Hagent as (agent & Hag & Hne).
  subst r m'. simpl. unfold onChatMessage. fold m.
  set (m1 := match JsMap.get socket (customerSockets m) with
             | Some info => _
             | None => _
             end).
  destruct (stamped_customer_same m socket (now env) m1 eq_refl)
    as (Et & Ea & Eta & Eat & Ec & _ & Eg & _).
  clearbody m1. rewrite Eg, Hfound. cbv beta iota.
  unfold addMessage. rewrite Hid, Et, Hk. simpl snd.
  unfold routeChatMessage. simpl tickets. rewrite get_set_eq. simpl default.
  simpl Ticket.status. simpl Ticket.assignedAgent. simpl Ticket.id.
  rewrite Hst, Hag, Hid. simpl String.eqb. unfold truthy.
  destruct (String.eqb_spec agent "") as [E|_]; [contradiction|].
  simpl andb. cbv iota. simpl agentSockets. rewrite Ea.
  destruct (JsMap.get agent (agentSockets m)) as [info|] eqn:Ei; simpl;
    (split; [reflexivity|]; split; [exact Ec|]; split; [exact Eta|];
     split; [exact Eat|]; exists agent; split; [reflexivity|];
     rewrite Ei, ?app_nil_r; reflexivity).
Qed.

(** The customer of [twoAgentsOneTicket] writes again. *)
Lemma follow_up_message_forwarded_witness :
  let r :=
    step (sampleEnv 7) (customer_chat_message "c1" "Anyone?" false)
         twoAgentsOneTicket in
  snd r = [to_agent "s1"
             (customer_message "TICKET-6-1" "Anyone?" 7
                               (generateMessageId (sampleEnv 7) 2) "c1")]
  /\ ticketCounter (ticketManager (fst r))
     = ticketCounter (ticketManager twoAgentsOneTicket).
Proof.
  intros r.
  assert (Hf : exists t,
            getTicketByCustomer "c1" (ticketManager twoAgentsOneTicket)
            = Some ("TICKET-6-1", t)
            /\ Ticket.status t = "assigned"
            /\ Ticket.assignedAgent t = Some "A1").
  { eexists. split; [vm_compute; reflexivity|]. split; reflexivity. }
  destruct Hf as (t & Hf & Hst & Hag).
  destruct (follow_up_message_forwarded
              [(sampleEnv 1, agent_connection "s1");
               (sampleEnv 2, agent_authenticate "s1" "A1" "Ann" None);
               (sampleEnv 3, agent_connection "s2");
               (sampleEnv 4, agent_authenticate "s2" "A2" "Bo" None);
               (sampleEnv 5, customer_connection "c1");
               (sampleEnv 6, customer_chat_message "c1" "Hello" true)]
              (sampleEnv 7) "c1" "Anyone?" false "TICKET-6-1" t Hf Hst)
    as (_ & Hc & _ & _ & agent & Hagent & Hout).
  fold twoAgentsOneTicket in Hc, Hout. fold r in Hc, Hout.
  split; [|exact Hc].
  rewrite Hout. rewrite Hag in Hagent. injection Hagent as <-.
  vm_compute. reflexivity.
Defined.



(** ** The history of a ticket *)

Lemma laterVersion_refl t : laterVersion t t.
Proof. repeat split. exists []. now rewrite app_nil_r. Qed.

Lemma laterVersion_same_messages t t' :
  Ticket.id t' = Ticket.id t ->
  Ticket.customerId t' = Ticket.customerId t ->
  Ticket.customerSocketId t' = Ticket.customerSocketId t ->
  Ticket.createdAt t' = Ticket.createdAt t ->
  Ticket.messages t' = Ticket.messages t ->
  laterVersion t t'.
Proof.
  intros A B C D E. repeat split; try assumption.
  exists []. now rewrite E, app_nil_r.
Qed.

Lemma laterVersion_trans t1 t2 t3 :
  laterVersion t1 t2 -> laterVersion t2 t3 -> laterVersion t1 t3.
Proof.
  intros (A1 & B1 & C1 & D1 & more1 & E1) (A2 & B2 & C2 & D2 & more2 & E2).
  repeat split; try congruence.
  exists (more1 ++ more2)%list. now rewrite E2, E1, <- app_assoc.
Qed.

Lemma ticketsKept_refl m : ticketsKept m m.
Proof. intros k t Hk. exists t. split; [assumption|apply laterVersion_refl]. Qed.

Lemma ticketsKept_trans m1 m2 m3 :
  ticketsKept m1 m2 -> ticketsKept m2 m3 -> ticketsKept m1 m3.
Proof.
  intros H12 H23 k t Hk. destruct (H12 k t Hk) as (t2 & Hk2 & L12).
  destruct (H23 k t2 Hk2) as (t3 & Hk3 & L23).
  exists t3. split; [assumption|]. now apply (laterVersion_trans t t2).
Qed.

(** The tickets after a stored ticket has been replaced by a later
    version of it. *)
Lemma ticketsKept_update (m m' : TicketManager) k t t' :
  JsMap.get k (tickets m) = Some t ->
  laterVersion t t' ->
  tickets m' = JsMap.set k t' (tickets m) ->
  ticketsKept m m'.
Proof.
  intros Hk Hl Ht k0 t0 Hk0. rewrite Ht, get_set.
  destruct (String.eqb_spec k k0) as [->|Hne].
  - exists t'. split; [reflexivity|]. congruence.
  - exists t0. split; [assumption|apply laterVersion_refl].
Qed.

Lemma ticketsKept_same (m m' : TicketManager) :
  tickets m' = tickets m -> ticketsKept m m'.
Proof.
  intros E k t Hk. rewrite E. exists t.
  split; [assumption|apply laterVersion_refl].
Qed.

Lemma ticketsKept_addMessage env ticketId content sender senderId
    (m : TicketManager) :
  ticketsKept m (snd (addMessage env ticketId content sender senderId m)).
Proof.
  unfold addMessage.
  destruct (JsMap.get ticketId (tickets m)) as [t|] eqn:Et;
    [|apply ticketsKept_refl].
  eapply (ticketsKept_update m _ ticketId t); [assumption| |reflexivity].
  repeat split. simpl. eexists. now rewrite map_app.
Qed.

Lemma ticketsKept_assignTicket env ticketId agentId (m : TicketManager) :
  ticketsKept m (snd (assignTicket env ticketId agentId m)).
Proof.
  destruct (JsMap.get ticketId (tickets m)) as [t|] eqn:Et;
    [|unfold assignTicket; rewrite Et; apply ticketsKept_refl].
  destruct (JsMap.get agentId (agentSockets m)) as [agent|] eqn:Ea;
    [|unfold assignTicket; rewrite Et, Ea; apply ticketsKept_refl].
  destruct (assignTicket_effect env m ticketId agentId t agent Et Ea)
    as (Htk & _).
  eapply (ticketsKept_update m _ ticketId t); [assumption| |exact Htk].
  now apply laterVersion_same_messages.
Qed.

Lemma ticketsKept_closeTicket env ticketId closedBy (m : TicketManager) :
  ticketsKept m (snd (closeTicket env ticketId closedBy m)).
Proof.
  destruct (JsMap.get ticketId (tickets m)) as [t|] eqn:Et;
    [|unfold closeTicket; rewrite Et; apply ticketsKept_refl].
  destruct (closeTicket_effect env m ticketId closedBy t Et) as (Htk & _).
  eapply (ticketsKept_update m _ ticketId t); [assumption| |exact Htk].
  now apply laterVersion_same_messages.
Qed.

Lemma ticketsKept_createTicket env customerId customerSocketId initialMessage
    (m : TicketManager) :
  consistent m ->
  ticketsKept m
    (snd (createTicket env customerId customerSocketId initialMessage m)).
Proof.
  intros Hc k t Hk. unfold createTicket. simpl.
  rewrite get_set_ne.
  - exists t. split; [assumption|apply laterVersion_refl].
  - intros E. rewrite <- E, fresh_ticket_id in Hk by assumption.
    discriminate.
Qed.

Lemma step_ticketsKept env e (s : Server) :
  consistent (ticketManager s) ->
  ticketsKept (ticketManager s) (ticketManager (fst (step env e s))).
Proof.
  intros Hc.
  destruct (writesTickets e) eqn:Ew.
  2:{ apply ticketsKept_same.
      now destruct (quiet_events_keep_tickets_aux env e s Ew). }
  destruct e; try discriminate; simpl.
  - unfold onChatMessage.
    set (m1 := match JsMap.get socket (customerSockets (ticketManager s)) with
               | Some info => _
               | None => _
               end).
    destruct (stamped_customer_same (ticketManager s) socket (now env) m1
                eq_refl) as (Et & _ & _ & _ & _ & _ & _ & Hc1 & _).
    specialize (Hc1 Hc). clearbody m1.
    apply (ticketsKept_trans _ m1); [now apply ticketsKept_same|].
    assert (Hroute : forall key found m2,
              ticketsKept m2
                (ticketManager
                   (fst (routeChatMessage env socket message callback
                                          (agentIdOf s) key found m2)))).
    { intros key found m2. unfold routeChatMessage.
      set (ticket := default found _). clearbody ticket. cbv zeta.
      destruct (String.eqb (Ticket.status ticket) "open").
      - destruct (getAvailableAgent m2) as [ag|]; simpl;
          [apply ticketsKept_assignTicket|apply ticketsKept_refl].
      - destruct (_ && _); [|apply ticketsKept_refl].
        destruct (Ticket.assignedAgent ticket) as [ag|];
          [|apply ticketsKept_refl].
        destruct (JsMap.get ag (agentSockets m2)); apply ticketsKept_refl. }
    destruct (getTicketByCustomer socket m1) as [[k t]|].
    + eapply ticketsKept_trans; [|apply Hroute].
      apply ticketsKept_addMessage.
    + pose proof (ticketsKept_createTicket env socket socket (Some message)
                    m1 Hc1) as Hk.
      destruct (createTicket env socket socket (Some message) m1) as [t m'].
      eapply ticketsKept_trans; [exact Hk|apply Hroute].
  - unfold onSendMessage.
    destruct (JsMap.get socket (agentIdOf s)) as [agent|];
      [|apply ticketsKept_refl].
    destruct (negb (truthy (Some agent))); [apply ticketsKept_refl|].
    destruct (JsMap.get ticketId _) as [t|]; [|apply ticketsKept_refl].
    destruct (sameAgent _ _); [|apply ticketsKept_refl].
    pose proof (ticketsKept_addMessage env ticketId message "agent"
                  (Some agent) (ticketManager s)) as Hm.
    now destruct (addMessage _ _ _ _ _ _) as [[msg|] m1].
  - unfold onUpdateTicketStatus.
    destruct (JsMap.get ticketId (tickets (ticketManager s))) as [t|] eqn:Et;
      [|apply ticketsKept_refl].
    destruct (JsMap.get socket (agentIdOf s)) as [agent|];
      [|apply ticketsKept_refl].
    destruct (sameAgent _ _); [|apply ticketsKept_refl].
    assert (H1 : ticketsKept (ticketManager s)
                   (with_tickets
                      (JsMap.set ticketId
                         (Ticket.with_updatedAt (now env)
                            (Ticket.with_status status t))
                         (tickets (ticketManager s)))
                      (ticketManager s))).
    { eapply (ticketsKept_update _ _ ticketId t);
        [assumption| |reflexivity].
      now apply laterVersion_same_messages. }
    destruct (String.eqb status "closed"); simpl; [|assumption].
    eapply ticketsKept_trans; [exact H1|apply ticketsKept_closeTicket].
  - unfold onGetTicketDetails.
    destruct (JsMap.get ticketId _) as [t|] eqn:Et; [|apply ticketsKept_refl].
    destruct (sameAgent _ _); [|apply ticketsKept_refl].
    eapply (ticketsKept_update _ _ ticketId t); [assumption| |reflexivity].
    repeat split. simpl. exists []. now rewrite markRead_text, app_nil_r.
Qed.

(** X20: a ticket, once stored, stays: in any state the server reaches
    and after any further events, every ticket of that state is still
    stored under the same key, with the same id, customer and creation
    time, and with all the messages it had, in their order and with
    their id, content, sender and time, followed by those added since.
    No handler deletes a ticket, removes a message or rewrites one;
    only the [read] flag of a message changes. *)
Theorem ticket_history_kept (trace further : list (Env * Event)) :
  let s := run trace initial in
  ticketsKept (ticketManager s) (ticketManager (run further s)).
Proof.
  intros s.
  assert (Hc : consistent (ticketManager s))
    by apply (reachable_invariants trace).
  clearbody s. revert s Hc.
  induction further as [|[env e] rest IH]; intros s Hc;
    [apply ticketsKept_refl|].
  simpl. eapply ticketsKept_trans; [now apply step_ticketsKept|].
  apply IH. now apply step_consistent.
Qed.

(** ** Ids, time stamps, and the order of the pick *)

(** X21: ticket ids generated with different values of the counter are
    different, whatever the clock shows at the two moments: the time
    part of an id cannot make up for the counter. *)
Theorem generated_ids_differ (env env' : Env) (c c' : nat) :
  c <> c' -> generateTicketId env c <> generateTicketId env' c'.
Proof.
  intros Hne E. apply Hne. now apply (generateTicketId_counter env env').
Qed.

Lemma generated_ids_differ_witness :
  generateTicketId (sampleEnv 11) 1 <> generateTicketId (sampleEnv 1) 11.
Proof. apply generated_ids_differ. discriminate. Defined.

(** X22: in a run of the server whose clock readings never go back, no
    stored ticket has an [updatedAt] after the last reading. *)
Theorem stamps_not_after_last_reading (trace : list (Env * Event)) (c : Z) :
  clockMonotone c trace ->
  stampsBehind (lastReading c trace) (ticketManager (run trace initial)).
Proof.
  intros Hm. apply stamps_behind_clock; [|assumption].
  intros k t Hk. discriminate Hk.
Qed.

Lemma stamps_not_after_last_reading_witness :
  stampsBehind 4
    (ticketManager
       (run [(sampleEnv 1, customer_connection "c1");
             (sampleEnv 2, customer_chat_message "c1" "Hello" false);
             (sampleEnv 4, customer_chat_message "c1" "Hello?" false)]
            initial)).
Proof.
  apply (stamps_not_after_last_reading
           [(sampleEnv 1, customer_connection "c1");
            (sampleEnv 2, customer_chat_message "c1" "Hello" false);
            (sampleEnv 4, customer_chat_message "c1" "Hello?" false)] 0).
  simpl. lia.
Defined.

Section FirstLeast.
Context {A : Type} (cmp : A -> A -> Z) (key : A -> Z).
Hypothesis cmp_key : forall a b, cmp a b = key a - key b.

(** The head of the sorted array is the first of the elements with the
    least key, in the order of the array before the sort. *)
Lemma js_sort_head_first l h rest :
  js_sort cmp l = h :: rest ->
  exists before after,
    l = (before ++ h :: after)%list
    /\ (forall x, In x before -> key h < key x)
    /\ (forall x, In x after -> key h <= key x).
Proof.
  revert h rest. induction l as [|x0 l IH]; intros h rest Hs;
    [discriminate|].
  simpl in Hs. destruct (js_sort cmp l) as [|h' rest'] eqn:El.
  - assert (l = []) as ->.
    { apply length_zero_iff_nil. rewrite <- (js_sort_length cmp), El.
      reflexivity. }
    simpl in Hs. injection Hs as <- <-. exists [], [].
    repeat split; intros x [].
  - destruct (IH h' rest' eq_refl) as (before & after & -> & Hb & Ha).
    simpl in Hs. rewrite cmp_key in Hs.
    destruct (Z.leb_spec (key x0 - key h') 0) as [Hle|Hgt];
      injection Hs as <- <-.
    + exists [], (before ++ h' :: after)%list. split; [reflexivity|].
      split; [intros x []|]. intros x Hx.
      apply in_app_or in Hx as [Hx|[<-|Hx]].
      * specialize (Hb x Hx). lia.
      * lia.
      * specialize (Ha x Hx). lia.
    + exists (x0 :: before), after. split; [reflexivity|].
      split; [|assumption]. intros x [<-|Hx]; [lia|now apply Hb].
Qed.
End FirstLeast.

(** X23: among the available agents with the least load,
    [getAvailableAgent] picks the one that comes first in the order of
    [agentSockets], the order in which the agent ids were first
    registered: every available agent before it has strictly more
    tickets, and none after it has fewer. *)
Theorem getAvailableAgent_first_least_loaded (m : TicketManager)
    (a : Agent.t) :
  getAvailableAgent m = Some a ->
  exists before after,
    List.filter isAvailable (JsMap.values (agentSockets m))
    = (before ++ a :: after)%list
    /\ (forall b, In b before ->
          (ticketCount m (Agent.id a) < ticketCount m (Agent.id b))%nat)
    /\ (forall b, In b after ->
          (ticketCount m (Agent.id a) <= ticketCount m (Agent.id b))%nat).
Proof.
  unfold getAvailableAgent.
  destruct (js_sort _ _) as [|h rest] eqn:Es; [discriminate|].
  intros [= ->].
  destruct (js_sort_head_first (byTicketCount m)
              (fun x => Z.of_nat (ticketCount m (Agent.id x)))
              (fun _ _ => eq_refl) _ a rest Es)
    as (before & after & E & Hb & Ha).
  exists before, after. split; [assumption|]. split.
  - intros b Hin. specialize (Hb b Hin). simpl in Hb. lia.
  - intros b Hin. specialize (Ha b Hin). simpl in Ha. lia.
Qed.

(** Both agents of [twoAgentsOneTicket] are available; A1 has the
    ticket, so A2 is picked, after A1 in the order of registration. *)
Lemma getAvailableAgent_first_least_loaded_witness :
  exists a before after,
    getAvailableAgent (ticketManager twoAgentsOneTicket) = Some a
    /\ List.filter isAvailable
         (JsMap.values (agentSockets (ticketManager twoAgentsOneTicket)))
       = (before ++ a :: after)%list
    /\ Agent.id a = "A2".
Proof.
  assert (Hp : exists a,
            getAvailableAgent (ticketManager twoAgentsOneTicket) = Some a
            /\ Agent.id a = "A2").
  { eexists. split; [vm_compute; reflexivity|reflexivity]. }
  destruct Hp as (a & Hp & Hid).
  destruct (getAvailableAgent_first_least_loaded _ a Hp)
    as (before & after & E & _).
  exists a, before, after. now repeat split.
Defined.

(** ** A customer leaves *)

(** X24: in every state the server reaches, when a customer socket
    whose open or assigned ticket names an agent disconnects, the entry
    of the socket leaves [customerSockets], the agent, if it is
    registered, is told [customer_disconnected] with the id of the
    ticket on its current socket, and the ticket itself is not touched:
    it is not closed and stays with its agent. *)
Theorem customer_disconnect_notifies_agent (trace : list (Env * Event))
    (env : Env) (socket k agent : string) (t : Ticket.t) :
  let s := run trace initial in
  let m := ticketManager s in
  getTicketByCustomer socket m = Some (k, t) ->
  Ticket.assignedAgent t = Some agent ->
  let r := step env (customer_disconnect socket) s in
  let m' := ticketManager (fst r) in
  snd r
  = match JsMap.get agent (agentSockets m) with
    | Some info =>
        [to_agent (Agent.socketId info) (customer_disconnected k (now env))]
    | None => []
    end
  /\ JsMap.get socket (customerSockets m') = None
  /\ JsMap.get k (tickets m') = Some t
  /\ getTicketByCustomer socket m' = Some (k, t)
  /\ ticketAssignments m' = ticketAssignments m
  /\ agentTickets m' = agentTickets m.
Proof.
  intros s m Hfound Hag r m'.
  destruct (reachable_invariants trace) as [Hc H]. fold s m in Hc, H.
  destruct (found_ticket_is_stored m socket k t Hc H Hfound) as [Hk Hid].
  assert (Hne : agent <> "").
  { destruct Hc as (Hok & _). destruct (Hok k t Hk) as [_ Hn].
    intros ->. now apply Hn. }
  subst r m'. simpl. unfold onCustomerDisconnect. fold m.
  rewrite Hfound. unfold agentSocketOf. rewrite Hag, Hid. simpl.
  destruct (String.eqb_spec agent "") as [E|_]; [contradiction|]. simpl.
  rewrite get_delete_eq.
  split; [now destruct (JsMap.get agent (agentSockets m))|].
  now repeat split.
Qed.

Lemma customer_disconnect_notifies_agent_witness :
  snd (step (sampleEnv 7) (customer_disconnect "c1") twoAgentsOneTicket)
  = [to_agent "s1" (customer_disconnected "TICKET-6-1" 7)].
Proof.
  assert (Hf : exists t,
            getTicketByCustomer "c1" (ticketManager twoAgentsOneTicket)
            = Some ("TICKET-6-1", t)
            /\ Ticket.assignedAgent t = Some "A1").
  { eexists. split; [vm_compute; reflexivity|reflexivity]. }
  destruct Hf as (t & Hf & Hag).
  destruct (customer_disconnect_notifies_agent
              [(sampleEnv 1, agent_connection "s1");
               (sampleEnv 2, agent_authenticate "s1" "A1" "Ann" None);
               (sampleEnv 3, agent_connection "s2");
               (sampleEnv 4, agent_authenticate "s2" "A2" "Bo" None);
               (sampleEnv 5, customer_connection "c1");
               (sampleEnv 6, customer_chat_message "c1" "Hello" true)]
              (sampleEnv 7) "c1" "TICKET-6-1" "A1" t Hf Hag) as (Hout & _).
  fold twoAgentsOneTicket in Hout. rewrite Hout. vm_compute. reflexivity.
Defined.

(** ** One open or assigned ticket for a customer, in every run *)

Lemma assignTicket_counter env ticketId agentId (m : TicketManager) :
  ticketCounter (snd (assignTicket env ticketId agentId m)) = ticketCounter m.
Proof.
  unfold assignTicket.
  destruct (JsMap.get ticketId (tickets m)) as [t|]; [|reflexivity].
  destruct (JsMap.get agentId (agentSockets m)) as [a|]; [|reflexivity].
  cbv zeta. repeat case_match; reflexivity.
Qed.

Lemma routeChatMessage_counter env socket message callback agentIds key
    found (m2 : TicketManager) :
  ticketCounter
    (ticketManager
       (fst (routeChatMessage env socket message callback agentIds key found
                              m2)))
  = ticketCounter m2.
Proof.
  unfold routeChatMessage. cbv zeta.
  destruct (String.eqb _ "open").
  - destruct (getAvailableAgent m2) as [ag|]; simpl; [|reflexivity].
    apply assignTicket_counter.
  - destruct (_ && _); [|reflexivity].
    destruct (Ticket.assignedAgent _) as [ag|]; [|reflexivity].
    now destruct (JsMap.get ag (agentSockets m2)).
Qed.

(** The handler of [chat_message] draws a ticket id exactly when
    [getTicketByCustomer] finds nothing. *)
Lemma onChatMessage_counter env socket message callback (s : Server) :
  ticketCounter
    (ticketManager (fst (onChatMessage env socket message callback s)))
  = match getTicketByCustomer socket (ticketManager s) with
    | Some _ => ticketCounter (ticketManager s)
    | None => S (ticketCounter (ticketManager s))
    end.
Proof.
  unfold onChatMessage.
  set (m1 := match JsMap.get socket (customerSockets (ticketManager s)) with
             | Some info => _
             | None => _
             end).
  destruct (stamped_customer_same (ticketManager s) socket (now env) m1
              eq_refl) as (_ & _ & _ & _ & Hcnt & _ & Hget & _).
  clearbody m1. rewrite <- Hget, <- Hcnt.
  destruct (getTicketByCustomer socket m1) as [[k t]|].
  - rewrite routeChatMessage_counter. unfold addMessage.
    now destruct (JsMap.get (Ticket.id t) (tickets m1)).
  - unfold createTicket. cbv zeta. now rewrite routeChatMessage_counter.
Qed.

(** C2, amended: in every state reached by a sequence of customer and
    agent events and disconnects in which no accepted
    [update_ticket_status] gives the status open or assigned to a ticket
    that is neither while another ticket of the same customer socket is
    open or assigned, at most one open or assigned ticket has a given
    [customerSocketId].  Closing a ticket, reopening it while the
    customer has no other open or assigned ticket, and any change among
    the statuses of an open or assigned ticket are all allowed.  And in
    every state the server reaches, the handler of [chat_message] adds a
    ticket exactly when [getTicketByCustomer] finds no open or assigned
    ticket of the socket: the number of tickets is then one more, and
    the same as before when a ticket is found. *)
Theorem one_active_ticket_per_customer (trace : list (Env * Event)) :
  let s := run trace initial in
  (neverReopens trace initial = true -> oneActiveTicket (ticketManager s))
  /\ forall env socket message callback,
       JsMap.size
         (tickets
            (ticketManager
               (fst (step env (customer_chat_message socket message callback)
                          s))))
       = match getTicketByCustomer socket (ticketManager s) with
         | Some _ => JsMap.size (tickets (ticketManager s))
         | None => S (JsMap.size (tickets (ticketManager s)))
         end.
Proof.
  intros s. split.
  - intros Hn. apply run_oneActive; [apply initial_consistent| |assumption].
    intros k1 k2 t1 t2 H. discriminate H.
  - intros env socket message callback.
    destruct (reachable_invariants trace) as [Hc Hr]. fold s in Hc, Hr.
    pose proof (step_registryOk env
                  (customer_chat_message socket message callback) s Hc Hr)
      as Hr'.
    destruct Hr as (_ & _ & _ & _ & Hsize).
    destruct Hr' as (_ & _ & _ & _ & Hsize').
    pose proof (onChatMessage_counter env socket message callback s) as Hcnt.
    change (onChatMessage env socket message callback s)
      with (step env (customer_chat_message socket message callback) s)
      in Hcnt.
    rewrite <- Hsize' in Hcnt.
    destruct (getTicketByCustomer socket (ticketManager s)); lia.
Qed.

(** A run in which a ticket is closed, set back to open by its agent
    while the customer has no other ticket, written to again by the
    customer and set to resolved, after which the customer gets a new
    one. *)
Lemma one_active_ticket_per_customer_witness :
  oneActiveTicket
    (ticketManager
       (run [(sampleEnv 1, agent_connection "s1");
             (sampleEnv 2, agent_authenticate "s1" "A1" "Ann" None);
             (sampleEnv 5, customer_connection "c1");
             (sampleEnv 6, customer_chat_message "c1" "Hello" true);
             (sampleEnv 7,
              agent_update_ticket_status "s1" "TICKET-6-1" "closed");
             (sampleEnv 8,
              agent_update_ticket_status "s1" "TICKET-6-1" "open");
             (sampleEnv 9, customer_chat_message "c1" "Again" true);
             (sampleEnv 10,
              agent_update_ticket_status "s1" "TICKET-6-1" "resolved");
             (sampleEnv 11, customer_chat_message "c1" "Anew" true)]
            initial)).
Proof.
  apply (proj1 (one_active_ticket_per_customer _)). vm_compute. reflexivity.
Defined.
